(** * statsmodels example notebooks: quasi-binomial regression, quantile
    regression and meta-analysis.

    The repository consists of three notebooks that prepare small data sets,
    call the statsmodels, pandas, numpy and matplotlib libraries, and print or
    plot what they return.  This development embeds

    - the arithmetic the notebooks do themselves (the variance function [vf],
      the data frame preparation of the barley blotch data, the 2 x 2 x K
      contingency tables) as executable functions, and
    - the notebooks' code cells as abstract syntax of the Python subset they
      are written in, with the static analyses and the definitional
      interpreter the structural properties are stated on.

    Floating point numbers are modelled as exact rationals ([Q]); numpy
    integer arrays as lists of [Z], with the wrap-around of [int64]
    arithmetic ([Int64]) and the memory that views share ([Strided]) written
    out where a property depends on them. *)

From Stdlib Require Import ZArith QArith Qround Qpower List String Ascii Lia Bool.
From Stdlib Require Import Reals Lra.
From Stdlib Require Lqa.
From stdpp Require Import gmap strings.

Import ListNotations.
Local Open Scope string_scope.

(* ===================================================================== *)
(** * Part I: definitions *)
(* ===================================================================== *)

(** ** Numbers as the notebooks' arithmetic sees them

    Python's arithmetic operators are duck typed: [vf.__call__] is applied by
    the library to floats and to numpy arrays alike.  [PyNum] is the interface
    the two methods of [vf] need: integer literals, [+], [-], [*] and [**]
    with a literal non-negative exponent. *)

Class PyNum (A : Type) : Type := {
  py_lit : Z -> A;
  py_add : A -> A -> A;
  py_sub : A -> A -> A;
  py_mul : A -> A -> A;
  py_pow : A -> N -> A
}.

Declare Scope py_scope.
Delimit Scope py_scope with py.
Notation "x + y" := (py_add x y) : py_scope.
Notation "x - y" := (py_sub x y) : py_scope.
Notation "x * y" := (py_mul x y) : py_scope.
Notation "x ** n" := (py_pow x n) (at level 30, right associativity) : py_scope.

#[export] Instance PyNum_Q : PyNum Q := {
  py_lit := inject_Z;
  py_add := Qplus;
  py_sub := Qminus;
  py_mul := Qmult;
  py_pow := fun x n => Qpower x (Z.of_N n)
}.

#[export] Instance PyNum_R : PyNum R := {
  py_lit := IZR;
  py_add := Rplus;
  py_sub := Rminus;
  py_mul := Rmult;
  py_pow := fun x n => pow x (N.to_nat n)
}.

(** Polynomials in one variable over the rationals, as coefficient lists
    (constant term first).  Trailing zeros are allowed; two lists denote the
    same polynomial when all their coefficients agree ([peq]). *)
Module Poly.

Definition poly : Type := list Q.

Definition coef (p : poly) (n : nat) : Q := nth n p 0%Q.

Definition peq (p q : poly) : Prop := forall n, (coef p n == coef q n)%Q.

Definition pconst (c : Q) : poly := [c].

Definition pX : poly := [0%Q; 1%Q].

Fixpoint padd (p q : poly) : poly :=
  match p, q with
  | [], _ => q
  | _, [] => p
  | a :: p', b :: q' => (a + b)%Q :: padd p' q'
  end.

Definition pscale (c : Q) (p : poly) : poly := List.map (Qmult c) p.

Definition psub (p q : poly) : poly := padd p (pscale (-1)%Q q).

Fixpoint pmul (p q : poly) : poly :=
  match p with
  | [] => []
  | a :: p' => padd (pscale a q) (0%Q :: pmul p' q)
  end.

Fixpoint ppow (p : poly) (n : nat) : poly :=
  match n with
  | O => pconst 1%Q
  | S n' => pmul p (ppow p n')
  end.

(** Horner evaluation. *)
Fixpoint peval (p : poly) (x : Q) : Q :=
  match p with
  | [] => 0%Q
  | a :: p' => (a + x * peval p' x)%Q
  end.

(** Formal derivative: the coefficient of [X^k] becomes [k] times the
    coefficient of [X^(k-1)]. *)
Fixpoint pderiv_from (k : Z) (p : poly) : poly :=
  match p with
  | [] => []
  | a :: p' => (inject_Z k * a)%Q :: pderiv_from (k + 1) p'
  end.

Definition pderiv (p : poly) : poly :=
  match p with
  | [] => []
  | _ :: p' => pderiv_from 1 p'
  end.

End Poly.

#[export] Instance PyNum_poly : PyNum Poly.poly := {
  py_lit := fun z => Poly.pconst (inject_Z z);
  py_add := Poly.padd;
  py_sub := Poly.psub;
  py_mul := Poly.pmul;
  py_pow := fun p n => Poly.ppow p (N.to_nat n)
}.

(** ** The variance function of the quasi-binomial notebook

<<
class vf(sm.families.varfuncs.VarianceFunction):
    def __call__(self, mu):
        return mu ** 2 * (1 - mu) ** 2

    def deriv(self, mu):
        return 2 * mu - 6 * mu ** 2 + 4 * mu ** 3
>>
    Python's [**] binds tighter than [*], which binds tighter than [+] and
    [-]; [+] and [-] associate to the left. *)
Module vf.
Section Methods.
Context {A : Type} `{PyNum A}.
Local Open Scope py_scope.

Definition __call__ (mu : A) : A :=
  (mu ** 2) * ((py_lit 1 - mu) ** 2).

Definition deriv (mu : A) : A :=
  ((py_lit 2 * mu) - (py_lit 6 * (mu ** 2))) + (py_lit 4 * (mu ** 3)).

End Methods.
End vf.

(** ** Reading comma separated text

    What [pandas.read_csv] does with the two inline data sets: lines are
    separated by the newline character, blank lines are skipped, fields are
    separated by commas; a field is an integer ([12]), a decimal ([17.50]),
    missing (empty) or text.  A column holds integers if all its fields are
    integers, floats if they are integers, decimals or missing, and text
    otherwise. *)
Module Csv.

Fixpoint split (sep : ascii) (s : string) : list string :=
  match s with
  | EmptyString => [EmptyString]
  | String c s' =>
      if Ascii.eqb c sep then EmptyString :: split sep s'
      else match split sep s' with
           | [] => [String c EmptyString]
           | w :: ws => String c w :: ws
           end
  end.

Definition newline : ascii := ascii_of_nat 10.
Definition comma : ascii := ascii_of_nat 44.
Definition dot : ascii := ascii_of_nat 46.
Definition space : ascii := ascii_of_nat 32.

Definition lines (s : string) : list string :=
  List.filter (fun l => negb (String.eqb l EmptyString)) (split newline s).

Definition digit_of (c : ascii) : option Z :=
  let n := nat_of_ascii c in
  if (48 <=? n)%nat && (n <=? 57)%nat then Some (Z.of_nat (n - 48)) else None.

Fixpoint parse_digits (acc : Z) (s : string) : option Z :=
  match s with
  | EmptyString => Some acc
  | String c s' =>
      match digit_of c with
      | Some d => parse_digits (10 * acc + d) s'
      | None => None
      end
  end.

Fixpoint lstrip (s : string) : string :=
  match s with
  | String c s' => if Ascii.eqb c space then lstrip s' else s
  | EmptyString => EmptyString
  end.

(** Unsigned integer: one or more digits. *)
Definition parse_int (s : string) : option Z :=
  match s with
  | EmptyString => None
  | _ => parse_digits 0 s
  end.

(** Unsigned decimal [ddd.ddd]: the digits before and after the point, read
    as one integer, over the matching power of ten. *)
Definition parse_decimal (s : string) : option Q :=
  match split dot s with
  | [ip; fp] =>
      match parse_digits 0 ip, parse_digits 0 fp with
      | Some i, Some f =>
          let scale := Pos.pow 10 (Pos.of_nat (String.length fp)) in
          if (String.length fp =? 0)%nat then
            match ip with EmptyString => None | _ => Some (inject_Z i) end
          else Some (Qmake (i * Zpos scale + f) scale)
      | _, _ => None
      end
  | _ => None
  end.

End Csv.

(** ** Data frames

    A [pandas.DataFrame] with the default row index [0 .. n-1]: a list of
    labelled columns of equal length.  Column labels are integers (a file read
    without a header) or strings. *)
Module Frame.

Inductive label : Type :=
  | LInt (z : Z)
  | LStr (s : string).

Inductive cell : Type :=
  | CInt (z : Z)
  | CFloat (q : Q)
  | CNaN
  | CStr (s : string).

Abbreviation series := (list cell).

Record frame : Type := mk_frame { columns : list (label * series) }.

#[export] Instance label_eq_dec : EqDecision label.
Proof. solve_decision. Defined.

Definition nrows (df : frame) : nat :=
  match columns df with
  | [] => 0
  | (_, c) :: _ => length c
  end.

(** A frame is rectangular with [r] rows. *)
Definition rect (r : nat) (df : frame) : Prop :=
  Forall (fun lc : label * series => length lc.2 = r) (columns df).

(** [df.index], as integers. *)
Definition index (df : frame) : list Z :=
  List.map Z.of_nat (seq 0 (nrows df)).

(** [df[l]] *)
Fixpoint lookup_column (l : label) (cols : list (label * series)) : option series :=
  match cols with
  | [] => None
  | (l', c) :: rest => if decide (l' = l) then Some c else lookup_column l rest
  end.

Definition get_column (l : label) (df : frame) : option series :=
  lookup_column l (columns df).

(** [df[l] = values]: an existing column is replaced where it stands, a new
    one is added as the last column. *)
Fixpoint assign_column (l : label) (v : series) (cols : list (label * series))
  : list (label * series) :=
  match cols with
  | [] => [(l, v)]
  | (l', c) :: rest =>
      if decide (l' = l) then (l', v) :: rest
      else (l', c) :: assign_column l v rest
  end.

Definition set_column (l : label) (v : series) (df : frame) : frame :=
  mk_frame (assign_column l v (columns df)).

(** [df.rename(columns={old: new})] *)
Definition rename (old new : label) (df : frame) : frame :=
  mk_frame (List.map (fun lc : label * series =>
                        if decide (lc.1 = old) then (new, lc.2) else lc)
                     (columns df)).

(** [df.drop(l, axis=1)]: [None] (a [KeyError]) when there is no such
    column. *)
Definition drop (l : label) (df : frame) : option frame :=
  match get_column l df with
  | None => None
  | Some _ =>
      Some (mk_frame (List.filter (fun lc : label * series =>
                                     negb (bool_decide (lc.1 = l)))
                                  (columns df)))
  end.

Definition label_cell (l : label) : cell :=
  match l with
  | LInt z => CInt z
  | LStr s => CStr s
  end.

(** [df.melt()] with no identifier columns: the columns are stacked one
    under the other in their order; [variable] repeats each column's label,
    [value] holds its cells. *)
Definition melt (df : frame) : frame :=
  mk_frame
    [ (LStr "variable",
       List.flat_map (fun lc : label * series =>
                        repeat (label_cell lc.1) (length lc.2)) (columns df));
      (LStr "value",
       List.flat_map (fun lc : label * series => lc.2) (columns df)) ].

(** True division of a column by an integer scalar ([/=]): [None] (a
    [TypeError]) on text. *)
Definition div_cell (d : Z) (c : cell) : option cell :=
  match c with
  | CInt z => Some (CFloat (inject_Z z / inject_Z d))
  | CFloat q => Some (CFloat (q / inject_Z d))
  | CNaN => Some CNaN
  | CStr _ => None
  end.

Definition div_series (d : Z) (s : series) : option series :=
  mapM (div_cell d) s.

(** *** Parsing *)

Definition parse_field (s : string) : cell :=
  match s with
  | EmptyString => CNaN
  | _ =>
      match Csv.parse_int (Csv.lstrip s) with
      | Some z => CInt z
      | None =>
          match Csv.parse_decimal (Csv.lstrip s) with
          | Some q => CFloat q
          | None => CStr s
          end
      end
  end.

Definition is_int (c : cell) : bool :=
  match c with CInt _ => true | _ => false end.

Definition is_numeric (c : cell) : bool :=
  match c with CStr _ => false | _ => true end.

Definition to_float (c : cell) : cell :=
  match c with
  | CInt z => CFloat (inject_Z z)
  | _ => c
  end.

(** The column's dtype: [int64] if every field is an integer, [float64] if
    every field is a number or missing, [object] otherwise. *)
Definition infer_dtype (fields : list string) : series :=
  let cells := List.map parse_field fields in
  if forallb is_int cells then cells
  else if forallb is_numeric cells then List.map to_float cells
  else List.map (fun s => match s with EmptyString => CNaN | _ => CStr s end)
                fields.

Definition field_column (rows : list (list string)) (j : nat) : list string :=
  List.map (fun row => nth j row EmptyString) rows.

Definition ncols (rows : list (list string)) : nat :=
  match rows with
  | [] => 0
  | r :: _ => length r
  end.

(** [pd.read_csv(buffer, header=None)]: columns are labelled [0, 1, ...]. *)
Definition read_csv_noheader (text : string) : frame :=
  let rows := List.map (Csv.split Csv.comma) (Csv.lines text) in
  mk_frame (List.map (fun j => (LInt (Z.of_nat j),
                                infer_dtype (field_column rows j)))
                     (seq 0 (ncols rows))).

(** [pd.read_csv(buffer)]: the first line gives the column labels. *)
Definition read_csv (text : string) : frame :=
  match List.map (Csv.split Csv.comma) (Csv.lines text) with
  | [] => mk_frame []
  | header :: rows =>
      mk_frame (List.map (fun j => (LStr (nth j header EmptyString),
                                    infer_dtype (field_column rows j)))
                         (seq 0 (length header)))
  end.

End Frame.

(** ** The quasi-binomial notebook's data preparation *)
Module QuasiBinomial.
Import Frame.

(** The text the [StringIO] buffer [raw] holds: ten lines of nine
    percentages. *)
Definition raw : string :=
"0.05,0.00,1.25,2.50,5.50,1.00,5.00,5.00,17.50
0.00,0.05,1.25,0.50,1.00,5.00,0.10,10.00,25.00
0.00,0.05,2.50,0.01,6.00,5.00,5.00,5.00,42.50
0.10,0.30,16.60,3.00,1.10,5.00,5.00,5.00,50.00
0.25,0.75,2.50,2.50,2.50,5.00,50.00,25.00,37.50
0.05,0.30,2.50,0.01,8.00,5.00,10.00,75.00,95.00
0.50,3.00,0.00,25.00,16.50,10.00,50.00,50.00,62.50
1.30,7.50,20.00,55.00,29.50,5.00,25.00,75.00,95.00
1.50,1.00,37.50,5.00,20.00,50.00,50.00,75.00,95.00
1.50,12.70,26.25,40.00,43.50,75.00,75.00,75.00,95.00".

(** [1 + np.floor(df.index / 10).astype(int)]: the index is divided as a
    float, rounded down and converted back to an integer. *)
Definition site_of_index (i : Z) : Z :=
  1 + Qfloor (inject_Z i / inject_Z 10).

(** [1 + (df.index % 10)] *)
Definition variety_of_index (i : Z) : Z :=
  1 + i mod 10.

(** The cell that builds [df], statement by statement, from the frame
    [read_csv] returned:
<<
df = pd.read_csv(raw, header=None)
df = df.melt()
df["site"] = 1 + np.floor(df.index / 10).astype(int)
df["variety"] = 1 + (df.index % 10)
df = df.rename(columns={"value": "blotch"})
df = df.drop("variable", axis=1)
df["blotch"] /= 100
>> *)
Definition prepare (df : frame) : option frame :=
  let df := melt df in
  let df := set_column (LStr "site")
              (List.map (fun i => CInt (site_of_index i)) (index df)) df in
  let df := set_column (LStr "variety")
              (List.map (fun i => CInt (variety_of_index i)) (index df)) df in
  let df := rename (LStr "value") (LStr "blotch") df in
  df ← drop (LStr "variable") df;
  blotch ← get_column (LStr "blotch") df;
  blotch ← div_series 100 blotch;
  Some (set_column (LStr "blotch") blotch df).

Definition df : option frame := prepare (read_csv_noheader raw).

(** A percentage: a float between 0 and 100. *)
Definition is_percentage (c : cell) : bool :=
  match c with
  | CFloat q => Qle_bool 0 q && Qle_bool q 100
  | _ => false
  end.

(** The raw percentage in row [r], column [c] of the literal. *)
Definition raw_value (r c : nat) : option cell :=
  '(_, col) ← columns (read_csv_noheader raw) !! c;
  col !! r.

(** The numbers written in the literal, line by line and field by field,
    as numbers rather than as text. *)
Definition percentages : list (list Q) :=
  [ [0.05; 0.00; 1.25; 2.50; 5.50; 1.00; 5.00; 5.00; 17.50];
    [0.00; 0.05; 1.25; 0.50; 1.00; 5.00; 0.10; 10.00; 25.00];
    [0.00; 0.05; 2.50; 0.01; 6.00; 5.00; 5.00; 5.00; 42.50];
    [0.10; 0.30; 16.60; 3.00; 1.10; 5.00; 5.00; 5.00; 50.00];
    [0.25; 0.75; 2.50; 2.50; 2.50; 5.00; 50.00; 25.00; 37.50];
    [0.05; 0.30; 2.50; 0.01; 8.00; 5.00; 10.00; 75.00; 95.00];
    [0.50; 3.00; 0.00; 25.00; 16.50; 10.00; 50.00; 50.00; 62.50];
    [1.30; 7.50; 20.00; 55.00; 29.50; 5.00; 25.00; 75.00; 95.00];
    [1.50; 1.00; 37.50; 5.00; 20.00; 50.00; 50.00; 75.00; 95.00];
    [1.50; 12.70; 26.25; 40.00; 43.50; 75.00; 75.00; 75.00; 95.00] ]%Q.

(** The number in line [r], field [c] of the literal. *)
Definition number_at (r c : nat) : option Q :=
  line ← percentages !! r; line !! c.

End QuasiBinomial.

(** ** numpy arrays of integers

    An array is its shape and its elements in row-major (C) order of their
    logical indices; a transposed view is modelled by the array it shows.
    Elements are unbounded integers: the counts of the notebook are far from
    the 64-bit range. *)
Module NdArray.
Local Open Scope Z_scope.

Record ndarray : Type := mk_array { shape : list nat; data : list Z }.

Definition size_of (sh : list nat) : nat := fold_right Nat.mul 1%nat sh.

(** An array is well formed when it holds as many elements as its shape
    says. *)
Definition well_formed (a : ndarray) : Prop :=
  length (data a) = size_of (shape a).

(** [a - b] on vectors: [None] (a [ValueError]) when the lengths differ. *)
Definition vec_sub (a b : list Z) : option (list Z) :=
  if (length a =? length b)%nat
  then Some (List.map (fun ab : Z * Z => ab.1 - ab.2) (combine a b))
  else None.

(** [np.column_stack(cols)] on vectors of one length [K]: the [K] x [n] array
    whose column [j] is [cols[j]]. *)
Definition column_stack (cols : list (list Z)) : option ndarray :=
  match cols with
  | [] => None
  | c0 :: _ =>
      let K := length c0 in
      if forallb (fun c => (length c =? K)%nat) cols
      then Some (mk_array [K; length cols]
                   (List.flat_map (fun k => List.map (fun c => nth k c 0) cols)
                                  (seq 0 K)))
      else None
  end.

(** [a.T] of a two-dimensional array. *)
Definition transpose (a : ndarray) : option ndarray :=
  match shape a with
  | [m; n] =>
      Some (mk_array [n; m]
              (List.flat_map
                 (fun j => List.map (fun i => nth (i * n + j)%nat (data a) 0)
                                    (seq 0 m))
                 (seq 0 n)))
  | _ => None
  end.

(** [a.reshape(dims)]: at most one dimension may be [-1] and is then
    inferred from the number of elements; [None] (a [ValueError]) when the
    sizes do not match. *)
Definition known_size (dims : list Z) : Z :=
  fold_right (fun d acc => if (d <? 0) then acc else d * acc) 1 dims.

Definition reshape (dims : list Z) (a : ndarray) : option ndarray :=
  let total := Z.of_nat (length (data a)) in
  let known := known_size dims in
  let unknown := List.filter (fun d => d <? 0) dims in
  match unknown with
  | [] =>
      if (known =? total) then Some (mk_array (List.map Z.to_nat dims) (data a))
      else None
  | [-1] =>
      if (0 <? known) && (total mod known =? 0)
      then Some (mk_array
                   (List.map (fun d => if (d <? 0) then Z.to_nat (total / known)
                                       else Z.to_nat d) dims)
                   (data a))
      else None
  | _ => None
  end.

(** [a[i, j]] and [a[i, j, k]]: [None] (an [IndexError]) out of range. *)
Definition get2 (a : ndarray) (i j : nat) : option Z :=
  match shape a with
  | [m; n] => if (i <? m)%nat && (j <? n)%nat then data a !! (i * n + j)%nat
              else None
  | _ => None
  end.

Definition get3 (a : ndarray) (i j k : nat) : option Z :=
  match shape a with
  | [d0; d1; d2] =>
      if (i <? d0)%nat && (j <? d1)%nat && (k <? d2)%nat
      then data a !! ((i * d1 + j) * d2 + k)%nat
      else None
  | _ => None
  end.

(** [a[i, j] = v] *)
Definition set2 (a : ndarray) (i j : nat) (v : Z) : option ndarray :=
  match shape a with
  | [m; n] =>
      if (i <? m)%nat && (j <? n)%nat
      then Some (mk_array (shape a) (<[(i * n + j)%nat := v]> (data a)))
      else None
  | _ => None
  end.

(** [a.T[i, j] = v]: the transposed view shares the array's memory, so the
    assignment writes element [j, i] of [a].  (That this is what the
    assignment does to shared memory is derived on [Strided] views, see
    [SharedMemory] in Part II.) *)
Definition set_through_T (a : ndarray) (i j : nat) (v : Z) : option ndarray :=
  set2 a j i v.

(** The rows of a two-dimensional array (iteration, tuple unpacking). *)
Definition rows (a : ndarray) : option (list (list Z)) :=
  match shape a with
  | [m; n] =>
      Some (List.map (fun i => List.map (fun j => nth (i * n + j)%nat (data a) 0)
                                        (seq 0 n))
                     (seq 0 m))
  | _ => None
  end.



End NdArray.

(** ** The meta-analysis notebook's contingency tables *)
Module MetaAnalysis.
Import Frame NdArray.
Local Open Scope Z_scope.

(** The text of the string [ss]; the lines of the literal are indented by
    four spaces inside the string. *)
Definition ss : string :=
"    study,nei,nci,e1i,c1i,e2i,c2i,e3i,c3i,e4i,c4i
    1,19,22,16.0,20.0,11,12,4.0,8.0,4,3
    2,34,35,22.0,22.0,18,12,15.0,8.0,15,6
    3,72,68,44.0,40.0,21,15,10.0,3.0,3,0
    4,22,20,19.0,12.0,14,5,5.0,4.0,2,3
    5,70,32,62.0,27.0,42,13,26.0,6.0,15,5
    6,183,94,130.0,65.0,80,33,47.0,14.0,30,11
    7,26,50,24.0,30.0,13,18,5.0,10.0,3,9
    8,61,55,51.0,44.0,37,30,19.0,19.0,11,15
    9,36,25,30.0,17.0,23,12,13.0,4.0,10,4
    10,45,35,43.0,35.0,19,14,8.0,4.0,6,0
    11,246,208,169.0,139.0,106,76,67.0,42.0,51,35
    12,386,141,279.0,97.0,170,46,97.0,21.0,73,8
    13,59,32,56.0,30.0,34,17,21.0,9.0,20,7
    14,45,15,42.0,10.0,18,3,9.0,1.0,9,1
    15,14,18,14.0,18.0,13,14,12.0,13.0,9,12
    16,26,19,21.0,15.0,12,10,6.0,4.0,5,1
    17,74,75,,,42,40,,,23,30".

Definition df3 : frame := read_csv ss.

(** [df[[l1, l2, ...]]]: the named columns, in the order asked for. *)
Definition select (ls : list label) (df : frame) : option frame :=
  cols ← mapM (fun l => c ← get_column l df; Some (l, c)) ls;
  Some (mk_frame cols).

Definition int_of_cell (c : cell) : option Z :=
  match c with
  | CInt z => Some z
  | _ => None
  end.

(** [df.values] of a frame of integer columns: rows are observations. *)
Definition values (df : frame) : option ndarray :=
  cols ← mapM (fun lc : label * series => mapM int_of_cell lc.2) (columns df);
  a ← column_stack cols;
  Some a.

Definition df_12y : option frame :=
  select [LStr "e2i"; LStr "nei"; LStr "c2i"; LStr "nci"] df3.

(** [dta = df_12y.values.T] *)
Definition dta : option ndarray :=
  df ← df_12y; v ← values df; transpose v.

(** [dta_c = dta.copy(); dta_c.T[0, 0] = 18; dta_c.T[1, 0] = 22] *)
Definition dta_c : option ndarray :=
  a ← dta;
  a ← set_through_T a 0%nat 0%nat 18;
  set_through_T a 1%nat 0%nat 22.

(** The cell that builds the 2 x 2 x K tables from the four vectors:
<<
counts = np.column_stack([t, nt - t, c, nc - c])
ctables = counts.T.reshape(2, 2, -1)
>> *)
Definition counts (t nt c nc : list Z) : option ndarray :=
  nt_t ← vec_sub nt t;
  nc_c ← vec_sub nc c;
  column_stack [t; nt_t; c; nc_c].

Definition ctables (t nt c nc : list Z) : option ndarray :=
  counts ← counts t nt c nc;
  counts_T ← transpose counts;
  reshape [2; 2; -1] counts_T.

(** [t, nt, c, nc = dta_c]: the four rows of the array; [None] (a
    [ValueError]) when it does not have exactly four. *)
Definition unpack4 (a : ndarray) : option (list Z * list Z * list Z * list Z) :=
  rs ← rows a;
  match rs with
  | [t; nt; c; nc] => Some (t, nt, c, nc)
  | _ => None
  end.

Definition notebook_ctables : option ndarray :=
  a ← dta_c;
  '(t, nt, c, nc) ← unpack4 a;
  ctables t nt c nc.

(** The four vectors the notebook unpacks from [dta_c]. *)
Definition t : list Z :=
  [18; 22; 21; 14; 42; 80; 13; 37; 23; 19; 106; 170; 34; 18; 13; 12; 42].
Definition nt : list Z :=
  [19; 34; 72; 22; 70; 183; 26; 61; 36; 45; 246; 386; 59; 45; 14; 26; 74].
Definition c : list Z :=
  [12; 12; 15; 5; 13; 33; 18; 30; 12; 14; 76; 46; 17; 3; 14; 10; 40].
Definition nc : list Z :=
  [22; 35; 68; 20; 32; 94; 50; 55; 25; 35; 208; 141; 32; 15; 18; 19; 75].

End MetaAnalysis.

(** ** The notebooks as abstract syntax

    The subset of Python the notebooks' code cells are written in.  [STry]
    (a statement with an exception handler) is part of the language although
    no cell uses it: that is what the analyses below establish.  Comments are
    not part of the syntax. *)
Module Py.

Inductive binop : Type := Add | Sub | Mult | Div | Pow | Mod.

#[warnings="-register-all"]
Inductive expr : Type :=
  | EName (x : string)
  | EInt (n : Z)
  | EFloat (literal : string)                (* the literal as written *)
  | EStr (s : string)
  | EBool (b : bool)
  | ENone
  | EList (es : list expr)
  | ETuple (es : list expr)
  | EDict (keys vals : list expr)
  | EBinOp (op : binop) (l r : expr)
  | ENeg (e : expr)
  | EAttr (e : expr) (a : string)            (* e.a *)
  | ESubscript (e idx : expr)                (* e[idx] *)
  | ESlice (lo hi : option expr)             (* lo:hi inside a subscript *)
  | ECall (f : expr) (args : list expr) (kwargs : list (string * expr))
  | EStar (e : expr)                         (* a starred call argument *)
  | ELambda (params : list string) (body : expr)
  | EListComp (elt : expr) (var : string) (iter : expr).

#[warnings="-register-all"]
Inductive stmt : Type :=
  | SImport (module : string) (asname : option string)
  | SFromImport (module : string) (names : list string)
  | SAssign (target value : expr)
  | SAugAssign (target : expr) (op : binop) (value : expr)
  | SExpr (e : expr)
  | SPrint (es : list expr)                  (* the Python 2 statement *)
  | SReturn (e : expr)
  | SDef (name : string) (params : list string) (body : list stmt)
  | SClass (name : string) (bases : list expr) (body : list stmt)
  | SFor (var : string) (iter : expr) (body : list stmt)
  | SMagic (line : string)                   (* an IPython % line *)
  | STry (body handler : list stmt).         (* try: body except: handler *)

Inductive cell : Type :=
  | Markdown
  | Heading
  | Code (source : list stmt).

Record notebook : Type := {
  nb_name : string;
  nb_cells : list cell
}.

Definition cell_source (c : cell) : list stmt :=
  match c with
  | Code src => src
  | _ => []
  end.

(** The statements of a notebook, in the order of its cells. *)
Definition statements (nb : notebook) : list stmt :=
  List.flat_map cell_source (nb_cells nb).

End Py.

Declare Scope nb_scope.
Delimit Scope nb_scope with nb.
Notation "e ∙ a" := (Py.EAttr e a) (at level 25, left associativity) : nb_scope.
Notation "x ::= e" := (Py.SAssign (Py.EName x) e) (at level 60) : nb_scope.

(** ** The three notebooks *)
Module Notebooks.
Import Py.
Local Open Scope nb_scope.

Definition call (f : expr) (args : list expr) : expr := ECall f args [].
Definition callk (f : expr) (args : list expr) (kw : list (string * expr)) : expr :=
  ECall f args kw.
Definition N' (x : string) : expr := EName x.
Definition S' (s : string) : expr := EStr s.
Definition I' (n : Z) : expr := EInt n.
Definition F' (s : string) : expr := EFloat s.
Definition names (xs : list string) : expr := ETuple (List.map EName xs).

(** *** Quasi-binomial regression *)

Definition glm_formula : expr :=
  S' "blotch ~ 0 + C(variety) + C(site)".

(** The residual plot, once per fitted model. *)
Definition residual_plot (result : string) : list stmt :=
  [ SExpr (call (N' "plt" ∙ "clf") []);
    SExpr (call (N' "plt" ∙ "grid") [EBool true]);
    SExpr (call (N' "plt" ∙ "plot")
             [ callk (N' result ∙ "predict") [] [("linear", EBool true)];
               N' result ∙ "resid_pearson";
               S' "o" ]);
    SExpr (call (N' "plt" ∙ "xlabel") [S' "Linear predictor"]);
    SExpr (call (N' "plt" ∙ "ylabel") [S' "Residual"]) ].

Definition vf_call_body : expr :=
  EBinOp Mult (EBinOp Pow (N' "mu") (I' 2))
              (EBinOp Pow (EBinOp Sub (I' 1) (N' "mu")) (I' 2)).

Definition vf_deriv_body : expr :=
  EBinOp Add
    (EBinOp Sub (EBinOp Mult (I' 2) (N' "mu"))
                (EBinOp Mult (I' 6) (EBinOp Pow (N' "mu") (I' 2))))
    (EBinOp Mult (I' 4) (EBinOp Pow (N' "mu") (I' 3))).

Definition quasibinomial : notebook := {|
  nb_name := "quasibinomial";
  nb_cells :=
    [ Markdown;
      Code [ SImport "statsmodels.api" (Some "sm");
             SImport "numpy" (Some "np");
             SImport "pandas" (Some "pd");
             SImport "matplotlib.pyplot" (Some "plt");
             SFromImport "io" ["StringIO"] ];
      Markdown;
      Code [ "raw" ::= call (N' "StringIO") [S' QuasiBinomial.raw] ];
      Markdown;
      Code [ "df" ::= callk (N' "pd" ∙ "read_csv") [N' "raw"] [("header", ENone)];
             "df" ::= call (N' "df" ∙ "melt") [];
             SAssign (ESubscript (N' "df") (S' "site"))
               (EBinOp Add (I' 1)
                  (call (call (N' "np" ∙ "floor")
                           [EBinOp Div (N' "df" ∙ "index") (I' 10)] ∙ "astype")
                        [N' "int"]));
             SAssign (ESubscript (N' "df") (S' "variety"))
               (EBinOp Add (I' 1) (EBinOp Mod (N' "df" ∙ "index") (I' 10)));
             "df" ::= callk (N' "df" ∙ "rename") []
                        [("columns", EDict [S' "value"] [S' "blotch"])];
             "df" ::= callk (N' "df" ∙ "drop") [S' "variable"] [("axis", I' 1)];
             SAugAssign (ESubscript (N' "df") (S' "blotch")) Div (I' 100) ];
      Markdown;
      Code [ "model1" ::= callk (N' "sm" ∙ "GLM" ∙ "from_formula") [glm_formula]
                            [ ("family",
                               call (N' "sm" ∙ "families" ∙ "Binomial") []);
                              ("data", N' "df") ];
             "result1" ::= callk (N' "model1" ∙ "fit") [] [("scale", S' "X2")];
             SExpr (call (N' "print") [call (N' "result1" ∙ "summary") []]) ];
      Markdown;
      Code (residual_plot "result1");
      Markdown;
      Code [ SClass "vf" [N' "sm" ∙ "families" ∙ "varfuncs" ∙ "VarianceFunction"]
               [ SDef "__call__" ["self"; "mu"] [SReturn vf_call_body];
                 SDef "deriv" ["self"; "mu"] [SReturn vf_deriv_body] ] ];
      Markdown;
      Code [ "bin" ::= call (N' "sm" ∙ "families" ∙ "Binomial") [];
             SAssign (N' "bin" ∙ "variance") (call (N' "vf") []);
             "model2" ::= callk (N' "sm" ∙ "GLM" ∙ "from_formula") [glm_formula]
                            [ ("family", N' "bin"); ("data", N' "df") ];
             "result2" ::= callk (N' "model2" ∙ "fit") [] [("scale", S' "X2")];
             SExpr (call (N' "print") [call (N' "result2" ∙ "summary") []]) ];
      Markdown;
      Code (residual_plot "result2") ]
|}.

(** *** Quantile regression (a Python 2 notebook)

    [print] is a statement here, and [True] in [rc('text', usetex=True)] is
    a name, as Python 2 parses it. *)

Definition income_row (e : expr) : expr :=
  call (ESubscript (e ∙ "ix") (S' "income") ∙ "tolist") [].

Definition fit_model_body : list stmt :=
  [ "res" ::= callk (N' "mod" ∙ "fit") [] [("q", N' "q")];
    SReturn
      (EBinOp Add
         (EList [ N' "q";
                  ESubscript (N' "res" ∙ "params") (S' "Intercept");
                  ESubscript (N' "res" ∙ "params") (S' "income") ])
         (income_row (call (N' "res" ∙ "conf_int") []))) ].

Definition get_y_body : expr :=
  EBinOp Add (N' "a") (EBinOp Mult (N' "b") (N' "x")).

Definition quantile_line (target column : string) (style : list (string * expr))
  : stmt :=
  target ::= callk (N' "plt" ∙ "plot") [N' "models" ∙ "q"; N' "models" ∙ column] style.

Definition ols_line (target key : string) (style : list (string * expr)) : stmt :=
  target ::= callk (N' "plt" ∙ "plot")
               [ N' "models" ∙ "q";
                 EBinOp Mult (EList [ESubscript (N' "ols") (S' key)]) (N' "n") ]
               style.

Definition quantile_regression : notebook := {|
  nb_name := "quantile_regression";
  nb_cells :=
    [ Heading;
      Markdown;
      Code [ SImport "patsy" None;
             SImport "numpy" (Some "np");
             SImport "pandas" (Some "pd");
             SImport "statsmodels.api" (Some "sm");
             SImport "statsmodels.formula.api" (Some "smf");
             SImport "matplotlib.pyplot" (Some "plt");
             SFromImport "statsmodels.regression.quantile_regression" ["QuantReg"];
             "data" ::= call (N' "sm" ∙ "datasets" ∙ "engel" ∙ "load_pandas") []
                          ∙ "data";
             SExpr (call (N' "data" ∙ "head") []) ];
      Markdown;
      Code [ "mod" ::= call (N' "smf" ∙ "quantreg") [S' "foodexp ~ income"; N' "data"];
             "res" ::= callk (N' "mod" ∙ "fit") [] [("q", F' ".5")];
             SPrint [call (N' "res" ∙ "summary") []] ];
      Markdown;
      Markdown;
      Code [ "quantiles" ::= call (N' "np" ∙ "arange") [F' ".05"; F' ".96"; F' ".1"];
             SDef "fit_model" ["q"] fit_model_body;
             "models" ::= EListComp (call (N' "fit_model") [N' "x"]) "x" (N' "quantiles");
             "models" ::= callk (N' "pd" ∙ "DataFrame") [N' "models"]
                            [("columns", EList [S' "q"; S' "a"; S' "b";
                                                S' "lb"; S' "ub"])];
             "ols" ::= call (call (N' "smf" ∙ "ols") [S' "foodexp ~ income"; N' "data"]
                               ∙ "fit") [];
             "ols_ci" ::= income_row (call (N' "ols" ∙ "conf_int") []);
             "ols" ::= callk (N' "dict") []
                         [ ("a", ESubscript (N' "ols" ∙ "params") (S' "Intercept"));
                           ("b", ESubscript (N' "ols" ∙ "params") (S' "income"));
                           ("lb", ESubscript (N' "ols_ci") (I' 0));
                           ("ub", ESubscript (N' "ols_ci") (I' 1)) ];
             SPrint [N' "models"];
             SPrint [N' "ols"] ];
      Markdown;
      Code [ "x" ::= call (N' "np" ∙ "arange")
                       [ call (N' "data" ∙ "income" ∙ "min") [];
                         call (N' "data" ∙ "income" ∙ "max") [];
                         I' 50 ];
             "get_y" ::= ELambda ["a"; "b"] get_y_body;
             SAssign (names ["fig"; "ax"])
               (callk (N' "plt" ∙ "subplots") []
                  [("figsize", ETuple [I' 8; I' 6])]);
             SFor "i" (call (N' "range") [ESubscript (N' "models" ∙ "shape") (I' 0)])
               [ "y" ::= call (N' "get_y")
                           [ ESubscript (N' "models" ∙ "a") (N' "i");
                             ESubscript (N' "models" ∙ "b") (N' "i") ];
                 SExpr (callk (N' "ax" ∙ "plot") [N' "x"; N' "y"]
                          [("linestyle", S' "dotted"); ("color", S' "grey")]) ];
             "y" ::= call (N' "get_y") [ ESubscript (N' "ols") (S' "a");
                                       ESubscript (N' "ols") (S' "b") ];
             SExpr (callk (N' "ax" ∙ "plot") [N' "x"; N' "y"]
                      [("color", S' "red"); ("label", S' "OLS")]);
             SExpr (callk (N' "ax" ∙ "scatter")
                      [N' "data" ∙ "income"; N' "data" ∙ "foodexp"]
                      [("alpha", F' ".2")]);
             SExpr (call (N' "ax" ∙ "set_xlim") [ETuple [I' 240; I' 3000]]);
             SExpr (call (N' "ax" ∙ "set_ylim") [ETuple [I' 240; I' 2000]]);
             "legend" ::= call (N' "ax" ∙ "legend") [];
             SExpr (callk (N' "ax" ∙ "set_xlabel") [S' "Income"]
                      [("fontsize", I' 16)]);
             SExpr (callk (N' "ax" ∙ "set_ylabel") [S' "Food expenditure"]
                      [("fontsize", I' 16)]) ];
      Markdown;
      Code [ SFromImport "matplotlib" ["rc"];
             SExpr (callk (N' "rc") [S' "text"] [("usetex", N' "True")]);
             "n" ::= ESubscript (N' "models" ∙ "shape") (I' 0);
             quantile_line "p1" "b"
               [("color", S' "black"); ("label", S' "Quantile Reg.")];
             quantile_line "p2" "ub"
               [("linestyle", S' "dotted"); ("color", S' "black")];
             quantile_line "p3" "lb"
               [("linestyle", S' "dotted"); ("color", S' "black")];
             ols_line "p4" "b" [("color", S' "red"); ("label", S' "OLS")];
             ols_line "p5" "lb" [("linestyle", S' "dotted"); ("color", S' "red")];
             ols_line "p6" "ub" [("linestyle", S' "dotted"); ("color", S' "red")];
             SExpr (call (N' "plt" ∙ "ylabel") [S' "\beta_\mbox{income}"]);
             SExpr (call (N' "plt" ∙ "xlabel")
                      [S' "Quantiles of the conditional food expenditure distribution"]);
             SExpr (call (N' "plt" ∙ "legend") []);
             SExpr (call (N' "plt" ∙ "show") []) ] ]
|}.

(** *** Meta-analysis *)

Definition combine (target method_re : string) (use_t : bool)
    (row_names : list (string * expr)) : stmt :=
  target ::= callk (N' "combine_effects") [N' "eff"; N' "var_eff"]
               ([("method_re", S' method_re); ("use_t", EBool use_t)]
                ++ row_names).

Definition with_rownames : list (string * expr) :=
  [("row_names", N' "rownames")].

Definition print_ (args : list expr) : stmt := SExpr (call (N' "print") args).

Definition print_method (res : string) : stmt :=
  print_ [S' "method RE:"; N' res ∙ "method_re"].

Definition print_summary_frame (res : string) : stmt :=
  print_ [call (N' res ∙ "summary_frame") []].

Definition forest (res : string) : stmt :=
  "fig" ::= call (N' res ∙ "plot_forest") [].

Definition fig_size (h w : Z) : list stmt :=
  [ SExpr (call (N' "fig" ∙ "set_figheight") [I' h]);
    SExpr (call (N' "fig" ∙ "set_figwidth") [I' w]) ].

Definition conf_int_samples (res : string) : stmt :=
  SExpr (callk (N' res ∙ "conf_int_samples") []
           [("nobs", call (N' "np" ∙ "array")
                       [EBinOp Add (N' "nobs1") (N' "nobs2")])]).

Definition effect_2prop (data statistic : string) : stmt :=
  SAssign (names ["eff"; "var_eff"])
    (callk (N' "effectsize_2proportions") [EStar (N' data)]
       [("statistic", S' statistic)]).

Definition study (name : string) (ns : list Z) : expr :=
  EList (S' name :: List.map EInt ns).

Definition check_results : list stmt :=
  [ SExpr (ETuple
      [ N' "res_glm" ∙ "scale";
        EBinOp Sub
          (call (N' "res_glm" ∙ "conf_int") [])
          (ESubscript (N' "res_frame" ∙ "loc")
             (ETuple [S' "fixed effect"; EList [S' "ci_low"; S' "ci_upp"]])
           ∙ "values") ]) ].

Definition print_glm_table : stmt :=
  print_ [ESubscript (call (N' "res_glm" ∙ "summary") [] ∙ "tables") (I' 1)].

Definition metaanalysis1 : notebook := {|
  nb_name := "metaanalysis1";
  nb_cells :=
    [ Markdown;
      Code [ SMagic "matplotlib inline" ];
      Code [ SImport "numpy" (Some "np");
             SImport "pandas" (Some "pd");
             SFromImport "scipy" ["stats"; "optimize"];
             SFromImport "statsmodels.regression.linear_model" ["WLS"];
             SFromImport "statsmodels.genmod.generalized_linear_model" ["GLM"];
             SFromImport "statsmodels.stats.meta_analysis"
               [ "effectsize_smd"; "effectsize_2proportions"; "combine_effects";
                 "_fit_tau_iterative"; "_fit_tau_mm"; "_fit_tau_iter_mm" ];
             SExpr (call (N' "pd" ∙ "set_option") [S' "display.width"; I' 100]) ];
      Markdown;
      Code [ "data" ::= EList
               [ study "Carroll" [94; 22; 60; 92; 20; 60]%Z;
                 study "Grant" [98; 21; 65; 92; 22; 65]%Z;
                 study "Peck" [98; 28; 40; 88; 26; 40]%Z;
                 study "Donat" [94; 19; 200; 82; 17; 200]%Z;
                 study "Stewart" [98; 21; 50; 88; 22; 45]%Z;
                 study "Young" [96; 21; 85; 92; 22; 85]%Z ];
             "colnames" ::= EList [ S' "study"; S' "mean_t"; S' "sd_t"; S' "n_t";
                                    S' "mean_c"; S' "sd_c"; S' "n_c" ];
             "rownames" ::= EListComp (ESubscript (N' "i") (I' 0)) "i" (N' "data");
             "dframe1" ::= callk (N' "pd" ∙ "DataFrame") [N' "data"]
                             [("columns", N' "colnames")];
             SExpr (N' "rownames") ];
      Code [ SAssign (names ["mean2"; "sd2"; "nobs2"; "mean1"; "sd1"; "nobs1"])
               (call (N' "np" ∙ "asarray")
                  [ ESubscript (N' "dframe1")
                      (EList [ S' "mean_t"; S' "sd_t"; S' "n_t";
                               S' "mean_c"; S' "sd_c"; S' "n_c" ]) ] ∙ "T");
             "rownames" ::= ESubscript (N' "dframe1") (S' "study");
             SExpr (call (N' "rownames" ∙ "tolist") []) ];
      Code [ SExpr (call (N' "np" ∙ "array")
                      [EBinOp Add (N' "nobs1") (N' "nobs2")]) ];
      Markdown;
      Code [ SAssign (names ["eff"; "var_eff"])
               (call (N' "effectsize_smd")
                  [ N' "mean2"; N' "sd2"; N' "nobs2";
                    N' "mean1"; N' "sd1"; N' "nobs1" ]) ];
      Markdown;
      Code [ combine "res3" "chi2" true with_rownames;
             conf_int_samples "res3";
             print_summary_frame "res3" ];
      Code [ SExpr (N' "res3" ∙ "cache_ci") ];
      Code [ SExpr (N' "res3" ∙ "method_re") ];
      Code (forest "res3" :: fig_size 6 6);
      Code [ combine "res3" "chi2" false with_rownames;
             conf_int_samples "res3";
             print_summary_frame "res3" ];
      Markdown;
      Code [ combine "res4" "iterated" false with_rownames;
             "res4_df" ::= call (N' "res4" ∙ "summary_frame") [];
             print_method "res4";
             print_summary_frame "res4";
             forest "res4" ];
      Code [];
      Markdown;
      Code [ "eff" ::= call (N' "np" ∙ "array")
               [EList [ F' "61.00"; F' "61.40"; F' "62.21"; F' "62.30"; F' "62.34";
                        F' "62.60"; F' "62.70"; F' "62.84"; F' "65.90" ]];
             "var_eff" ::= call (N' "np" ∙ "array")
               [EList [ F' "0.2025"; F' "1.2100"; F' "0.0900"; F' "0.2025";
                        F' "0.3844"; F' "0.5625"; F' "0.0676"; F' "0.0225";
                        F' "1.8225" ]];
             "rownames" ::= EList [ S' "PTB"; S' "NMi"; S' "NIMC"; S' "KRISS";
                                    S' "LGC"; S' "NRC"; S' "IRMM"; S' "NIST";
                                    S' "LNE" ] ];
      Code ([ combine "res2_DL" "dl" true with_rownames;
              print_method "res2_DL";
              print_summary_frame "res2_DL";
              forest "res2_DL" ] ++ fig_size 6 6);
      Code ([ combine "res2_PM" "pm" true with_rownames;
              print_method "res2_PM";
              print_summary_frame "res2_PM";
              forest "res2_PM" ] ++ fig_size 6 6);
      Code [];
      Markdown;
      Code [ SImport "io" None ];
      Code [ "ss" ::= S' MetaAnalysis.ss;
             "df3" ::= call (N' "pd" ∙ "read_csv")
                         [call (N' "io" ∙ "StringIO") [N' "ss"]];
             "df_12y" ::= ESubscript (N' "df3")
                            (EList [S' "e2i"; S' "nei"; S' "c2i"; S' "nci"]);
             SAssign (names ["count1"; "nobs1"; "count2"; "nobs2"])
               (N' "df_12y" ∙ "values" ∙ "T");
             "dta" ::= N' "df_12y" ∙ "values" ∙ "T" ];
      Code [ effect_2prop "dta" "rd" ];
      Code [ SExpr (names ["eff"; "var_eff"]) ];
      Code ([ combine "res5" "iterated" false [];
              "res5_df" ::= call (N' "res5" ∙ "summary_frame") [];
              print_method "res5";
              print_ [S' "RE variance tau2:"; N' "res5" ∙ "tau2"];
              print_summary_frame "res5";
              forest "res5" ] ++ fig_size 8 6);
      Markdown;
      Code [ "dta_c" ::= call (N' "dta" ∙ "copy") [];
             SAssign (ESubscript (N' "dta_c" ∙ "T") (ETuple [I' 0; I' 0])) (I' 18);
             SAssign (ESubscript (N' "dta_c" ∙ "T") (ETuple [I' 1; I' 0])) (I' 22);
             SExpr (N' "dta_c" ∙ "T") ];
      Code ([ effect_2prop "dta_c" "rd";
              combine "res5" "iterated" false [];
              "res5_df" ::= call (N' "res5" ∙ "summary_frame") [];
              print_method "res5";
              print_summary_frame "res5";
              forest "res5" ] ++ fig_size 8 6);
      Code ([ combine "res5" "chi2" false [];
              "res5_df" ::= call (N' "res5" ∙ "summary_frame") [];
              print_method "res5";
              print_summary_frame "res5";
              forest "res5" ] ++ fig_size 8 6);
      Markdown;
      Code [ SFromImport "statsmodels.genmod.generalized_linear_model" ["GLM"] ];
      Code [ effect_2prop "dta_c" "or";
             combine "res" "chi2" false [];
             "res_frame" ::= call (N' "res" ∙ "summary_frame") [];
             print_ [ESubscript (N' "res_frame" ∙ "iloc")
                       (ESlice (Some (ENeg (I' 4))) None)] ];
      Markdown;
      Code [ "weights" ::= EBinOp Div (I' 1) (N' "var_eff");
             "mod_glm" ::= callk (N' "GLM")
                             [ N' "eff";
                               call (N' "np" ∙ "ones")
                                 [call (N' "len") [N' "eff"]] ]
                             [("var_weights", N' "weights")];
             "res_glm" ::= callk (N' "mod_glm" ∙ "fit") [] [("scale", F' "1.0")];
             print_glm_table ];
      Code check_results;
      Markdown;
      Code [ "res_glm" ::= callk (N' "mod_glm" ∙ "fit") [] [("scale", S' "x2")];
             print_glm_table ];
      Code check_results;
      Markdown;
      Code [ SAssign (names ["t"; "nt"; "c"; "nc"]) (N' "dta_c");
             "counts" ::= call (N' "np" ∙ "column_stack")
                            [EList [ N' "t"; EBinOp Sub (N' "nt") (N' "t");
                                     N' "c"; EBinOp Sub (N' "nc") (N' "c") ]];
             "ctables" ::= call (N' "counts" ∙ "T" ∙ "reshape")
                             [I' 2; I' 2; ENeg (I' 1)];
             SExpr (ESubscript (N' "ctables")
                      (ETuple [ESlice None None; ESlice None None; I' 0])) ];
      Code [ SExpr (ESubscript (N' "counts") (I' 0)) ];
      Code [ SExpr (ESubscript (N' "dta_c" ∙ "T") (I' 0)) ];
      Code [ SImport "statsmodels.stats.api" (Some "smstats") ];
      Code [ "st" ::= call (N' "smstats" ∙ "StratifiedTable")
                        [call (N' "ctables" ∙ "astype") [N' "np" ∙ "float64"]] ];
      Markdown;
      Code [ SExpr (ETuple [ N' "st" ∙ "logodds_pooled";
                             EBinOp Sub (N' "st" ∙ "logodds_pooled")
                                        (F' "0.4428186730553189") ]) ];
      Code [ SExpr (ETuple [ N' "st" ∙ "logodds_pooled_se";
                             EBinOp Sub (N' "st" ∙ "logodds_pooled_se")
                                        (F' "0.08928560091027186") ]) ];
      Code [ SExpr (call (N' "st" ∙ "logodds_pooled_confint") []) ];
      Code [ print_ [call (N' "st" ∙ "test_equal_odds") []] ];
      Code [ print_ [call (N' "st" ∙ "test_null_odds") []] ];
      Markdown;
      Code [ SExpr (call (N' "ctables" ∙ "sum") [I' 1]) ];
      Code [ SExpr (names ["nt"; "nc"]) ];
      Markdown;
      Code [ print_ [call (N' "st" ∙ "summary") []] ] ]
|}.

(** The notebooks of the repository. *)
Definition all : list notebook :=
  [quasibinomial; quantile_regression; metaanalysis1].

End Notebooks.

(** ** Static analyses of the notebooks' code *)
Module Analysis.
Import Py.

(** *** Traversals *)

(** An expression and everything inside it, outermost first. *)
Fixpoint subexprs (e : expr) : list expr :=
  e ::
  match e with
  | EList es | ETuple es => List.flat_map subexprs es
  | EDict ks vs => List.flat_map subexprs ks ++ List.flat_map subexprs vs
  | EBinOp _ l r => subexprs l ++ subexprs r
  | ENeg e1 | EAttr e1 _ | EStar e1 => subexprs e1
  | ESubscript e1 i => subexprs e1 ++ subexprs i
  | ESlice lo hi =>
      match lo with Some e1 => subexprs e1 | None => [] end
      ++ match hi with Some e1 => subexprs e1 | None => [] end
  | ECall f args kwargs =>
      subexprs f ++ List.flat_map subexprs args
      ++ List.flat_map (fun kv : string * expr => let (_, v) := kv in subexprs v)
                       kwargs
  | ELambda _ body => subexprs body
  | EListComp elt _ iter => subexprs iter ++ subexprs elt
  | EName _ | EInt _ | EFloat _ | EStr _ | EBool _ | ENone => []
  end.

(** The expressions a statement holds itself (not those of nested
    statements). *)
Definition stmt_exprs (s : stmt) : list expr :=
  match s with
  | SAssign t v => [t; v]
  | SAugAssign t _ v => [t; v]
  | SExpr e => [e]
  | SPrint es => es
  | SReturn e => [e]
  | SClass _ bases _ => bases
  | SFor _ iter _ => [iter]
  | SImport _ _ | SFromImport _ _ | SDef _ _ _ | SMagic _ | STry _ _ => []
  end.

(** A statement and every statement nested in it. *)
Fixpoint substmts (s : stmt) : list stmt :=
  s ::
  match s with
  | SDef _ _ body | SClass _ _ body | SFor _ _ body => List.flat_map substmts body
  | STry body handler =>
      List.flat_map substmts body ++ List.flat_map substmts handler
  | _ => []
  end.

Definition all_stmts (l : list stmt) : list stmt := List.flat_map substmts l.

Definition all_exprs (l : list stmt) : list expr :=
  List.flat_map subexprs (List.flat_map stmt_exprs (all_stmts l)).

(** *** Exception handlers, loops, imports, magics *)

Definition is_try (s : stmt) : bool :=
  match s with STry _ _ => true | _ => false end.

Definition handler_free (l : list stmt) : bool :=
  forallb (fun s => negb (is_try s)) (all_stmts l).

Definition is_loop (s : stmt) : bool :=
  match s with SFor _ _ _ => true | _ => false end.

Definition imports (l : list stmt) : list string :=
  List.flat_map (fun s => match s with
                          | SImport m _ => [m]
                          | SFromImport m ns => List.map (fun n => m ++ "." ++ n) ns
                          | _ => []
                          end) (all_stmts l).

Definition magics (l : list stmt) : list string :=
  List.flat_map (fun s => match s with SMagic line => [line] | _ => [] end)
                (all_stmts l).

(** *** Functions defined by a notebook *)

Record fundef : Type := {
  fd_name : string;
  fd_params : list string;
  fd_body : list stmt
}.

(** [def]s, methods of [class]es (named [class.method]) and lambdas bound to
    a name. *)
Fixpoint defs_of (scope : string) (s : stmt) : list fundef :=
  match s with
  | SDef n ps body =>
      {| fd_name := scope ++ n; fd_params := ps; fd_body := body |}
      :: List.flat_map (defs_of (scope ++ n ++ ".")) body
  | SClass n _ body => List.flat_map (defs_of (scope ++ n ++ ".")) body
  | SFor _ _ body => List.flat_map (defs_of scope) body
  | STry body handler =>
      List.flat_map (defs_of scope) body ++ List.flat_map (defs_of scope) handler
  | SAssign (EName x) (ELambda ps e) =>
      [{| fd_name := scope ++ x; fd_params := ps; fd_body := [SReturn e] |}]
  | _ => []
  end.

Definition defined_functions (nb : notebook) : list fundef :=
  List.flat_map (defs_of "") (statements nb).

Definition is_lambda (e : expr) : bool :=
  match e with ELambda _ _ => true | _ => false end.

(** *** Arithmetic done by the notebook's own code

    [+] and [*] with a list operand are list concatenation and repetition;
    every other operator application computes with numbers. *)
Definition is_list_expr (e : expr) : bool :=
  match e with
  | EList _ | EListComp _ _ _ => true
  | ECall (EAttr _ "tolist") _ _ => true
  | _ => false
  end.

Definition is_arithmetic (e : expr) : bool :=
  match e with
  | EBinOp Add l r | EBinOp Mult l r => negb (is_list_expr l || is_list_expr r)
  | EBinOp _ _ _ => true
  | ENeg _ => true
  | _ => false
  end.

Definition is_aug_assign (s : stmt) : bool :=
  match s with SAugAssign _ _ _ => true | _ => false end.

Definition arithmetic_of (l : list stmt) : list expr :=
  List.filter is_arithmetic (all_exprs l).

Definition performs_arithmetic (fd : fundef) : bool :=
  negb (forallb (fun e => negb (is_arithmetic e)) (all_exprs (fd_body fd)))
  || existsb is_aug_assign (all_stmts (fd_body fd)).

(** *** The script: the code outside the notebook's functions

    A statement and the statements of its loop bodies and handlers, but not
    those of the functions and classes it defines. *)
Fixpoint script_stmts (s : stmt) : list stmt :=
  s ::
  match s with
  | SFor _ _ body => List.flat_map script_stmts body
  | STry body handler =>
      List.flat_map script_stmts body ++ List.flat_map script_stmts handler
  | _ => []
  end.

(** An expression and everything inside it but the bodies of lambdas. *)
Fixpoint script_subexprs (e : expr) : list expr :=
  e ::
  match e with
  | EList es | ETuple es => List.flat_map script_subexprs es
  | EDict ks vs =>
      List.flat_map script_subexprs ks ++ List.flat_map script_subexprs vs
  | EBinOp _ l r => script_subexprs l ++ script_subexprs r
  | ENeg e1 | EAttr e1 _ | EStar e1 => script_subexprs e1
  | ESubscript e1 i => script_subexprs e1 ++ script_subexprs i
  | ESlice lo hi =>
      match lo with Some e1 => script_subexprs e1 | None => [] end
      ++ match hi with Some e1 => script_subexprs e1 | None => [] end
  | ECall f args kwargs =>
      script_subexprs f ++ List.flat_map script_subexprs args
      ++ List.flat_map (fun kv : string * expr =>
                          let (_, v) := kv in script_subexprs v) kwargs
  | EListComp elt _ iter => script_subexprs iter ++ script_subexprs elt
  | ELambda _ _ | EName _ | EInt _ | EFloat _ | EStr _ | EBool _ | ENone => []
  end.

Definition script (nb : notebook) : list stmt :=
  List.flat_map script_stmts (statements nb).

Definition script_exprs (nb : notebook) : list expr :=
  List.flat_map script_subexprs (List.flat_map stmt_exprs (script nb)).

Definition is_comprehension (e : expr) : bool :=
  match e with EListComp _ _ _ => true | _ => false end.

(** The arithmetic expressions of the two methods of [vf], run on any number
    type: names are looked up in [env], exponents are literal. *)
Fixpoint aeval {A : Type} `{PyNum A} (env : string -> option A) (e : expr)
  : option A :=
  match e with
  | EName x => env x
  | EInt n => Some (py_lit n)
  | EBinOp Pow l (EInt n) =>
      if (0 <=? n)%Z then x ← aeval env l; Some (py_pow x (Z.to_N n)) else None
  | EBinOp Add l r => x ← aeval env l; y ← aeval env r; Some (py_add x y)
  | EBinOp Sub l r => x ← aeval env l; y ← aeval env r; Some (py_sub x y)
  | EBinOp Mult l r => x ← aeval env l; y ← aeval env r; Some (py_mul x y)
  | _ => None
  end.

Definition bind1 {A : Type} (x : string) (v : A) : string -> option A :=
  fun y => if String.eqb x y then Some v else None.

(** The variables [get_y] reads: its parameters [a] and [b] and the
    module-level [x]. *)
Definition get_y_env {A : Type} (a b x : A) (y : string) : option A :=
  if String.eqb y "a" then Some a
  else if String.eqb y "b" then Some b
  else if String.eqb y "x" then Some x
  else None.

(** *** Where values come from *)

Inductive origin : Type :=
  | OLibrary (path : string)   (* reached from an import: the dotted path, a
                                  call written [()], a subscript [[]] *)
  | OBuiltin (name : string)   (* a Python builtin *)
  | OFunction (name : string)  (* a function or class the notebook defines *)
  | OLiteral                   (* built from literal constants only *)
  | OBuffer                    (* a StringIO over a literal string *)
  | OValue                     (* computed by the notebook from the above *)
  | OUnbound (name : string).  (* a name nothing binds *)

Definition builtins : list string :=
  ["print"; "int"; "range"; "dict"; "len"].

(** In Python 2, the language of the quantile regression notebook, [True]
    is not a constant of the syntax but the name of a builtin, looked up
    like any other name. *)
Definition builtin_constants : list string := ["True"].

Definition builtin_names : list string := builtins ++ builtin_constants.

Definition env : Type := list (string * origin).

Fixpoint lookup_env (x : string) (g : env) : option origin :=
  match g with
  | [] => None
  | (y, o) :: g' => if String.eqb x y then Some o else lookup_env x g'
  end.

Definition bind (x : string) (o : origin) (g : env) : env := (x, o) :: g.

Definition is_literal (o : origin) : bool :=
  match o with OLiteral => true | _ => false end.

Definition is_string_io (path : string) : bool :=
  String.eqb path "io.StringIO".

Definition member (o : origin) (suffix : string) : origin :=
  match o with
  | OLibrary p => OLibrary (p ++ suffix)
  | OUnbound x => OUnbound x
  | _ => OValue
  end.

Fixpoint origin_of (g : env) (e : expr) : origin :=
  match e with
  | EName x =>
      match lookup_env x g with
      | Some o => o
      | None =>
          if existsb (String.eqb x) builtins then OBuiltin x
          else if existsb (String.eqb x) builtin_constants then OLiteral
          else OUnbound x
      end
  | EInt _ | EFloat _ | EStr _ | EBool _ | ENone => OLiteral
  | EList es | ETuple es =>
      if forallb (fun e1 => is_literal (origin_of g e1)) es then OLiteral
      else OValue
  | EDict ks vs =>
      if forallb (fun e1 => is_literal (origin_of g e1)) ks
         && forallb (fun e1 => is_literal (origin_of g e1)) vs
      then OLiteral
      else OValue
  | EBinOp _ _ _ | ENeg _ | ESlice _ _ | EStar _ | EListComp _ _ _ => OValue
  | EAttr e1 a => member (origin_of g e1) ("." ++ a)
  | ESubscript e1 _ => member (origin_of g e1) "[]"
  | ECall f args _ =>
      match origin_of g f with
      | OLibrary p =>
          if is_string_io p
             && forallb (fun a => is_literal (origin_of g a)) args
          then OBuffer
          else OLibrary (p ++ "()")
      | OUnbound x => OUnbound x
      | _ => OValue
      end
  | ELambda _ _ => OFunction "<lambda>"
  end.

Record call_site : Type := {
  cs_callee : expr;
  cs_origin : origin;
  cs_args : list origin;
  cs_kwargs : list (string * origin)
}.

Definition bind_all (xs : list string) (o : origin) (g : env) : env :=
  fold_right (fun x acc => bind x o acc) g xs.

(** The calls an expression makes, innermost first (callee, then arguments,
    then the call itself). *)
Fixpoint calls_of (g : env) (e : expr) : list call_site :=
  match e with
  | EList es | ETuple es => List.flat_map (calls_of g) es
  | EDict ks vs => List.flat_map (calls_of g) ks ++ List.flat_map (calls_of g) vs
  | EBinOp _ l r => calls_of g l ++ calls_of g r
  | ENeg e1 | EAttr e1 _ | EStar e1 => calls_of g e1
  | ESubscript e1 i => calls_of g e1 ++ calls_of g i
  | ESlice lo hi =>
      match lo with Some e1 => calls_of g e1 | None => [] end
      ++ match hi with Some e1 => calls_of g e1 | None => [] end
  | ECall f args kwargs =>
      calls_of g f ++ List.flat_map (calls_of g) args
      ++ List.flat_map (fun kv : string * expr => let (_, v) := kv in calls_of g v)
                       kwargs
      ++ [{| cs_callee := f;
             cs_origin := origin_of g f;
             cs_args := List.map (origin_of g) args;
             cs_kwargs := List.map (fun kv : string * expr =>
                                      (kv.1, origin_of g kv.2)) kwargs |}]
  | ELambda ps body => calls_of (bind_all ps OValue g) body
  | EListComp elt x iter => calls_of g iter ++ calls_of (bind x OValue g) elt
  | EName _ | EInt _ | EFloat _ | EStr _ | EBool _ | ENone => []
  end.

Definition top_module (m : string) : string :=
  match Csv.split Csv.dot m with
  | top :: _ => top
  | [] => m
  end.

Definition target_names (t : expr) : list string :=
  match t with
  | EName x => [x]
  | ETuple es | EList es =>
      List.flat_map (fun e => match e with EName x => [x] | _ => [] end) es
  | _ => []
  end.

(** The names an expression reads that nothing in [bound] binds and that
    are no builtins. *)
Definition unbound (bound : list string) (x : string) : list string :=
  if existsb (String.eqb x) bound || existsb (String.eqb x) builtin_names
  then [] else [x].

Fixpoint unbound_reads (bound : list string) (e : expr) : list string :=
  match e with
  | EName x => unbound bound x
  | EList es | ETuple es => List.flat_map (unbound_reads bound) es
  | EDict ks vs =>
      (List.flat_map (unbound_reads bound) ks
       ++ List.flat_map (unbound_reads bound) vs)%list
  | EBinOp _ l r => (unbound_reads bound l ++ unbound_reads bound r)%list
  | ENeg e1 | EAttr e1 _ | EStar e1 => unbound_reads bound e1
  | ESubscript e1 i => (unbound_reads bound e1 ++ unbound_reads bound i)%list
  | ESlice lo hi =>
      (match lo with Some e1 => unbound_reads bound e1 | None => [] end
       ++ match hi with Some e1 => unbound_reads bound e1 | None => [] end)%list
  | ECall f args kwargs =>
      (unbound_reads bound f ++ List.flat_map (unbound_reads bound) args
       ++ List.flat_map (fun kv : string * expr =>
                           let (_, v) := kv in unbound_reads bound v) kwargs)%list
  | ELambda ps body => unbound_reads (ps ++ bound)%list body
  | EListComp elt x iter =>
      (unbound_reads bound iter ++ unbound_reads (x :: bound) elt)%list
  | EInt _ | EFloat _ | EStr _ | EBool _ | ENone => []
  end.

Definition thread_names (f : list string -> stmt -> list string * list string)
  : list string -> list stmt -> list string * list string :=
  fix go (bound : list string) (l : list stmt) : list string * list string :=
    match l with
    | [] => (bound, [])
    | s :: l' =>
        let (b1, u1) := f bound s in
        let (b2, u2) := go b1 l' in
        (b2, (u1 ++ u2)%list)
    end.

(** One statement: the names bound after it, and the names it reads before
    anything has bound them.  A function body is checked where the function
    is defined. *)
Fixpoint reads_before_binding (bound : list string) (s : stmt)
  : list string * list string :=
  match s with
  | SImport m (Some a) => (a :: bound, [])
  | SImport m None => (top_module m :: bound, [])
  | SFromImport _ ns => ((ns ++ bound)%list, [])
  | SAssign (EName x) v => (x :: bound, unbound_reads bound v)
  | SAssign ((ETuple _ | EList _) as t) v =>
      ((target_names t ++ bound)%list, unbound_reads bound v)
  | SAssign t v => (bound, (unbound_reads bound v ++ unbound_reads bound t)%list)
  | SAugAssign t _ v =>
      (bound, (unbound_reads bound t ++ unbound_reads bound v)%list)
  | SExpr e | SReturn e => (bound, unbound_reads bound e)
  | SPrint es => (bound, List.flat_map (unbound_reads bound) es)
  | SDef n ps body =>
      (n :: bound, (thread_names reads_before_binding (ps ++ bound)%list body).2)
  | SClass n bases body =>
      (n :: bound,
       (List.flat_map (unbound_reads bound) bases
        ++ (thread_names reads_before_binding bound body).2)%list)
  | SFor x iter body =>
      let (b1, u) := thread_names reads_before_binding (x :: bound) body in
      (b1, (unbound_reads bound iter ++ u)%list)
  | SMagic _ => (bound, [])
  | STry body handler =>
      let (b1, u1) := thread_names reads_before_binding bound body in
      let (b2, u2) := thread_names reads_before_binding b1 handler in
      (b2, (u1 ++ u2)%list)
  end.

(** The names a notebook reads before an earlier statement of the notebook
    has bound them, cells run in order from an empty kernel. *)
Definition backward_reads (nb : notebook) : list string :=
  (thread_names reads_before_binding [] (statements nb)).2.

(** Threading an environment through a block of statements. *)
Definition thread {A : Type} (f : env -> stmt -> env * list A)
  : env -> list stmt -> env * list A :=
  fix go (g : env) (l : list stmt) : env * list A :=
    match l with
    | [] => (g, [])
    | s :: l' =>
        let (g1, c1) := f g s in
        let (g2, c2) := go g1 l' in
        (g2, (c1 ++ c2)%list)
    end.

(** One statement: the environment after it and the calls it makes.  The
    calls of a function body are recorded where the function is defined,
    with its parameters bound to values of the notebook. *)
Fixpoint analyse (g : env) (s : stmt) : env * list call_site :=
  match s with
  | SImport m (Some a) => (bind a (OLibrary m) g, [])
  | SImport m None => (bind (top_module m) (OLibrary (top_module m)) g, [])
  | SFromImport m ns =>
      (fold_left (fun acc n => bind n (OLibrary (m ++ "." ++ n)) acc) ns g, [])
  | SAssign (EName x) v => (bind x (origin_of g v) g, calls_of g v)
  | SAssign t v =>
      (bind_all (target_names t) (member (origin_of g v) "[]") g,
       (calls_of g v ++ calls_of g t)%list)
  | SAugAssign t _ v => (g, (calls_of g t ++ calls_of g v)%list)
  | SExpr e => (g, calls_of g e)
  | SPrint es => (g, List.flat_map (calls_of g) es)
  | SReturn e => (g, calls_of g e)
  | SDef n ps body =>
      (bind n (OFunction n) g, (thread analyse (bind_all ps OValue g) body).2)
  | SClass n bases body =>
      (bind n (OFunction n) g,
       (List.flat_map (calls_of g) bases ++ (thread analyse g body).2)%list)
  | SFor x iter body =>
      let (g1, cs) := thread analyse (bind x (member (origin_of g iter) "[]") g)
                        body in
      (g1, (calls_of g iter ++ cs)%list)
  | SMagic _ => (g, [])
  | STry body handler =>
      let (g1, c1) := thread analyse g body in
      let (g2, c2) := thread analyse g1 handler in
      (g2, (c1 ++ c2)%list)
  end.

(** The calls of a notebook, cells run in order from an empty kernel. *)
Definition calls (nb : notebook) : list call_site :=
  (thread analyse [] (statements nb)).2.

(** The last component of a callee: [fit] of [model1.fit], [print] of
    [print]. *)
Definition callee_name (e : expr) : string :=
  match e with
  | EName x => x
  | EAttr _ a => a
  | _ => ""
  end.

Definition library_path (o : origin) : option string :=
  match o with OLibrary p => Some p | _ => None end.

(** The model-fitting operations: [.fit(...)], [combine_effects(...)] and
    [StratifiedTable(...)]. *)
Definition is_fitting_call (c : call_site) : bool :=
  existsb (String.eqb (callee_name (cs_callee c)))
          ["fit"; "combine_effects"; "StratifiedTable"].

Definition fitting_calls (nb : notebook) : list call_site :=
  List.filter is_fitting_call (calls nb).

Definition from_statsmodels (o : origin) : bool :=
  match o with
  | OLibrary p => String.prefix "statsmodels." p
  | _ => false
  end.

(** *** Where input can come from *)

Definition mem (x : string) (l : list string) : bool :=
  existsb (String.eqb x) l.

(** The libraries the notebooks import, by top-level module. *)
Definition libraries : list string :=
  ["statsmodels"; "numpy"; "pandas"; "matplotlib"; "scipy"; "patsy"; "io"].

Definition is_paren (c : ascii) : bool := Ascii.eqb c (ascii_of_nat 40).
Definition is_bracket (c : ascii) : bool := Ascii.eqb c (ascii_of_nat 91).

(** A path through a call [()] or a subscript [[]] names an object made
    while the notebook runs; a path without one names a module, or a class
    or function of a module, reached from an import by its dotted name. *)
Fixpoint derived (path : string) : bool :=
  match path with
  | EmptyString => false
  | String c rest => is_paren c || is_bracket c || derived rest
  end.




(** Where the operations called take their data from, as the documentation
    of the libraries describes them: [load_pandas] is the interface of
    statsmodels to the data sets it ships; [read_csv] reads the file, URL or
    buffer it is given; [StringIO] is a buffer in memory over the string it
    is given; the remaining classes and functions, and the methods of the
    objects made from them, compute from their arguments and from the object
    they are called on, draw, or change a setting. *)
Definition dataset_interface : list string :=
  ["statsmodels.api.datasets.engel.load_pandas"].

Definition text_readers : list string := ["pandas.read_csv"].

Definition text_buffers : list string := ["io.StringIO"].

Definition in_memory_operations : list string :=
  [ "numpy.floor"; "numpy.arange"; "numpy.asarray"; "numpy.array";
    "numpy.ones"; "numpy.column_stack";
    "pandas.DataFrame"; "pandas.set_option";
    "statsmodels.api.families.Binomial"; "statsmodels.api.GLM.from_formula";
    "statsmodels.formula.api.quantreg"; "statsmodels.formula.api.ols";
    "statsmodels.genmod.generalized_linear_model.GLM";
    "statsmodels.stats.meta_analysis.effectsize_smd";
    "statsmodels.stats.meta_analysis.effectsize_2proportions";
    "statsmodels.stats.meta_analysis.combine_effects";
    "statsmodels.stats.api.StratifiedTable";
    "matplotlib.rc"; "matplotlib.pyplot.clf"; "matplotlib.pyplot.grid";
    "matplotlib.pyplot.plot"; "matplotlib.pyplot.xlabel";
    "matplotlib.pyplot.ylabel"; "matplotlib.pyplot.subplots";
    "matplotlib.pyplot.legend"; "matplotlib.pyplot.show" ].

Definition object_methods : list string :=
  [ "melt"; "astype"; "rename"; "drop"; "head"; "copy"; "reshape"; "sum";
    "min"; "max"; "tolist";
    "fit"; "predict"; "summary"; "summary_frame"; "conf_int";
    "conf_int_samples"; "logodds_pooled_confint"; "test_equal_odds";
    "test_null_odds";
    "plot"; "scatter"; "set_xlim"; "set_ylim"; "set_xlabel"; "set_ylabel";
    "legend"; "plot_forest"; "set_figheight"; "set_figwidth" ].

Definition all_buffers (os : list origin) : bool :=
  match os with
  | [OBuffer] => true
  | _ => false
  end.

Definition all_literals (os : list origin) : bool :=
  match os with
  | [OLiteral] => true
  | _ => false
  end.

Definition no_arguments (c : call_site) : bool :=
  match cs_args c, cs_kwargs c with
  | [], [] => true
  | _, _ => false
  end.

(** A call takes nothing from outside the notebook and the libraries: it
    calls a builtin other than [open] and [input], a function of the
    notebook, a method of an object, the data set interface, a reader on a
    buffer, a buffer over a literal string, or an operation that works in
    memory.  Whatever else a notebook might call fails the check. *)
Definition inline_or_library (c : call_site) : bool :=
  match cs_origin c with
  | OBuiltin x => mem x builtins
  | OFunction _ => true
  | OLibrary p =>
      if derived p
      then match cs_callee c with
           | EAttr _ m => mem m object_methods
           | _ => false
           end
      else if mem p text_readers then all_buffers (cs_args c)
      else if mem p text_buffers
           then all_literals (cs_args c)
                && match cs_kwargs c with [] => true | _ => false end
      else if mem p dataset_interface then no_arguments c
      else mem p in_memory_operations
  | _ => false
  end.

(** *** Checks, per notebook *)

(** Input comes from literals and from the libraries: every import is one of
    [libraries]; every call passes [inline_or_library]; no name is read that
    the notebook has not bound; the only magic selects the inline display of
    figures. *)
Definition self_contained (nb : notebook) : bool :=
  forallb (fun m => mem (top_module m) libraries) (imports (statements nb))
  && forallb inline_or_library (calls nb)
  && match backward_reads nb with [] => true | _ => false end
  && forallb (String.eqb "matplotlib inline") (magics (statements nb)).

Definition is_unbound (o : origin) : bool :=
  match o with OUnbound _ => true | _ => false end.

(** The arguments of a call are values of the kernel. *)
Definition arguments_bound (c : call_site) : bool :=
  forallb (fun o => negb (is_unbound o)) (cs_args c)
  && forallb (fun ko : string * origin => negb (is_unbound ko.2)) (cs_kwargs c).

Definition fitting_names : list string :=
  ["fit"; "combine_effects"; "StratifiedTable"].

(** The calls a function of the notebook makes, given what is bound where it
    is defined. *)
Definition calls_in_body (g : env) (fd : fundef) : list call_site :=
  (thread analyse (bind_all (fd_params fd) OValue g) (fd_body fd)).2.

(** What is bound before statement number [n] of the notebook. *)
Definition env_before (nb : notebook) (n : nat) : env :=
  (thread analyse [] (take n (statements nb))).1.

End Analysis.

(** ** Running a notebook

    A definitional interpreter for the notebooks' code.  Everything the
    Python runtime and the imported libraries do (building constants and
    lists, arithmetic on arrays, attribute access, calls, iteration, printing)
    is a request to an arbitrary [runtime], which answers with an object, with
    the items of an iterable, or by raising an exception; the interpreter
    itself does the control flow, the name binding and the calls of the
    functions the notebook defines.  Every request is logged with its answer.
    [fuel] bounds the depth of the evaluation.

    Simplifications: an iteration asks for all items at once; the variable
    of a list comprehension is bound in the enclosing scope (as in Python 2);
    a function of the notebook takes positional arguments only; a handler
    catches every exception; the display of the value of a cell's last
    expression is left to the runtime and is not a request of its own. *)
Module Kernel.
Import Py.
Local Open Scope list_scope.

Inductive const : Type :=
  | KInt (n : Z)
  | KFloat (literal : string)
  | KStr (s : string)
  | KBool (b : bool)
  | KNone.

Section Runtime.

(** Objects of the Python runtime and of the libraries, and the state of the
    world they live in. *)
Context {ext world : Type}.

#[warnings="-register-all"]
Inductive value : Type :=
  | VExt (x : ext)
  | VFun (params : list string) (body : list stmt)
  | VLam (params : list string) (body : expr)
  | VClass (name : string) (bases : list value) (body : list stmt).

Inductive request : Type :=
  | RConst (c : const)
  | RBuiltin (x : string)
  | RImport (module : string) (member : option string)
  | RMagic (line : string)
  | RList (vs : list value)
  | RTuple (vs : list value)
  | RDict (ks vs : list value)
  | RBinOp (op : binop) (l r : value)
  | RInplace (op : binop) (l r : value)
  | RNeg (v : value)
  | RGetAttr (v : value) (a : string)
  | RSetAttr (v : value) (a : string) (x : value)
  | RGetItem (v i : value)
  | RSetItem (v i x : value)
  | RSlice (lo hi : option value)
  | RCall (f : value) (args : list value) (kwargs : list (string * value))
  | RNew (cls : value) (args : list value) (kwargs : list (string * value))
  | RIter (v : value)
  | RPrint (vs : list value).

Inductive response : Type :=
  | Returned (x : ext)
  | Items (xs : list ext)
  | Raised (e : ext).

(** The external libraries and the Python runtime. *)
Context (runtime : request -> world -> response * world).

Inductive exn : Type :=
  | LibraryError (e : ext)        (* raised by the runtime or a library *)
  | KernelError (what : string).  (* raised by the interpreter itself *)

Inductive outcome (A : Type) : Type :=
  | Done (a : A)
  | Raise (e : exn)
  | OutOfFuel.
Arguments Done {A} a.
Arguments Raise {A} e.
Arguments OutOfFuel {A}.

Definition event : Type := request * response.

(** The kernel: the module-level variables, the local variables of the
    notebook functions being called, the world of the libraries, and the log
    of requests. *)
Record state : Type := mk_state {
  globals : gmap string value;
  frames : list (gmap string value);
  libs : world;
  log : list event
}.

Definition M (A : Type) : Type := state -> outcome A * state.

Definition ret {A : Type} (a : A) : M A := fun s => (Done a, s).

Definition bind {A B : Type} (m : M A) (k : A -> M B) : M B :=
  fun s =>
    match m s with
    | (Done a, s') => k a s'
    | (Raise e, s') => (Raise e, s')
    | (OutOfFuel, s') => (OutOfFuel, s')
    end.

Notation "x <- m ;; k" := (bind m (fun x => k))
  (at level 100, m at next level, right associativity).
Notation "m ;;; k" := (bind m (fun _ => k))
  (at level 100, right associativity).

Definition raise {A : Type} (what : string) : M A :=
  fun s => (Raise (KernelError what), s).

Definition out_of_fuel {A : Type} : M A := fun s => (OutOfFuel, s).

Definition ask (r : request) (s : state) : response * state :=
  let (resp, w) := runtime r (libs s) in
  (resp, mk_state (globals s) (frames s) w (log s ++ [(r, resp)])).

(** A request answered by one object. *)
Definition perform (r : request) : M value :=
  fun s =>
    match ask r s with
    | (Returned x, s') => (Done (VExt x), s')
    | (Raised e, s') => (Raise (LibraryError e), s')
    | (Items _, s') => (Raise (KernelError "an object was expected"), s')
    end.

(** A request answered by the items of an iterable. *)
Definition perform_items (r : request) : M (list value) :=
  fun s =>
    match ask r s with
    | (Items xs, s') => (Done (List.map VExt xs), s')
    | (Raised e, s') => (Raise (LibraryError e), s')
    | (Returned _, s') => (Raise (KernelError "items were expected"), s')
    end.

(** Names: the innermost function call's locals, then the module's
    variables, then the builtins of the runtime. *)
Definition lookup_name (x : string) : M value :=
  fun s =>
    let local := match frames s with
                 | fr :: _ => fr !! x
                 | [] => None
                 end in
    match local with
    | Some v => (Done v, s)
    | None =>
        match globals s !! x with
        | Some v => (Done v, s)
        | None => perform (RBuiltin x) s
        end
    end.

Definition assign_name (x : string) (v : value) : M unit :=
  fun s =>
    match frames s with
    | fr :: rest =>
        (Done tt, mk_state (globals s) (<[x := v]> fr :: rest) (libs s) (log s))
    | [] =>
        (Done tt, mk_state (<[x := v]> (globals s)) [] (libs s) (log s))
    end.

(** Running [m] with a fresh frame of locals, dropped afterwards however [m]
    ends. *)
Definition with_frame {A : Type} (fr : gmap string value) (m : M A) : M A :=
  fun s =>
    let (o, s') := m (mk_state (globals s) (fr :: frames s) (libs s) (log s)) in
    (o, mk_state (globals s') (tl (frames s')) (libs s') (log s')).

Fixpoint map_m {A B : Type} (f : A -> M B) (l : list A) : M (list B) :=
  match l with
  | [] => ret []
  | a :: l' => b <- f a ;; bs <- map_m f l' ;; ret (b :: bs)
  end.

(** A block of statements: stops at the first [return]. *)
Fixpoint block (f : stmt -> M (option value)) (l : list stmt)
  : M (option value) :=
  match l with
  | [] => ret None
  | s :: l' =>
      r <- f s ;;
      match r with
      | Some v => ret (Some v)
      | None => block f l'
      end
  end.

(** A loop body run once per item: stops at the first [return]. *)
Fixpoint for_each (f : value -> M (option value)) (items : list value)
  : M (option value) :=
  match items with
  | [] => ret None
  | v :: rest =>
      r <- f v ;;
      match r with
      | Some w => ret (Some w)
      | None => for_each f rest
      end
  end.

Fixpoint assign_names (xs : list string) (vs : list value) : M unit :=
  match xs, vs with
  | [], [] => ret tt
  | x :: xs', v :: vs' => assign_name x v ;;; assign_names xs' vs'
  | _, _ => raise "wrong number of values to unpack"
  end.

Definition frame_of (ps : list string) (args : list value)
  : option (gmap string value) :=
  if (length ps =? length args)%nat
  then Some (list_to_map (zip ps args))
  else None.

Definition or_none (r : option value) : M value :=
  match r with
  | Some v => ret v
  | None => perform (RConst KNone)
  end.

Definition names_of (es : list expr) : option (list string) :=
  mapM (fun e => match e with EName x => Some x | _ => None end) es.

(** Expressions, statements and calls. *)
Fixpoint eval (fuel : nat) (e : expr) {struct fuel} : M value :=
  match fuel with
  | O => out_of_fuel
  | S n =>
      match e with
      | EName x => lookup_name x
      | EInt z => perform (RConst (KInt z))
      | EFloat l => perform (RConst (KFloat l))
      | EStr t => perform (RConst (KStr t))
      | EBool b => perform (RConst (KBool b))
      | ENone => perform (RConst KNone)
      | EList es => vs <- map_m (eval n) es ;; perform (RList vs)
      | ETuple es => vs <- map_m (eval n) es ;; perform (RTuple vs)
      | EDict ks vs =>
          kvs <- map_m (eval n) ks ;;
          vvs <- map_m (eval n) vs ;;
          perform (RDict kvs vvs)
      | EBinOp op l r =>
          vl <- eval n l ;; vr <- eval n r ;; perform (RBinOp op vl vr)
      | ENeg e1 => v <- eval n e1 ;; perform (RNeg v)
      | EAttr e1 a => v <- eval n e1 ;; perform (RGetAttr v a)
      | ESubscript e1 i =>
          v <- eval n e1 ;; vi <- eval n i ;; perform (RGetItem v vi)
      | ESlice lo hi =>
          vlo <- match lo with
                 | Some e1 => v <- eval n e1 ;; ret (Some v)
                 | None => ret None
                 end ;;
          vhi <- match hi with
                 | Some e1 => v <- eval n e1 ;; ret (Some v)
                 | None => ret None
                 end ;;
          perform (RSlice vlo vhi)
      | ECall f args kwargs =>
          vf <- eval n f ;;
          vargs <- map_m (fun a =>
                            match a with
                            | EStar e1 =>
                                v <- eval n e1 ;; perform_items (RIter v)
                            | _ => v <- eval n a ;; ret [v]
                            end) args ;;
          vkw <- map_m (fun kv : string * expr =>
                          v <- eval n kv.2 ;; ret (kv.1, v)) kwargs ;;
          call n vf (concat vargs) vkw
      | EStar _ => raise "a starred expression outside a call"
      | ELambda ps body => ret (VLam ps body)
      | EListComp elt x iter =>
          it <- eval n iter ;;
          items <- perform_items (RIter it) ;;
          vs <- map_m (fun item => assign_name x item ;;; eval n elt) items ;;
          perform (RList vs)
      end
  end

with exec (fuel : nat) (s : stmt) {struct fuel} : M (option value) :=
  match fuel with
  | O => out_of_fuel
  | S n =>
      match s with
      | SImport m asname =>
          v <- perform (RImport m None) ;;
          assign_name (match asname with
                       | Some a => a
                       | None => Analysis.top_module m
                       end) v ;;;
          ret None
      | SFromImport m ns =>
          map_m (fun x => v <- perform (RImport m (Some x)) ;; assign_name x v)
                ns ;;;
          ret None
      | SAssign t e =>
          v <- eval n e ;;
          match t with
          | EName x => assign_name x v
          | ETuple ts | EList ts =>
              match names_of ts with
              | Some xs =>
                  items <- perform_items (RIter v) ;; assign_names xs items
              | None => raise "cannot assign to this target"
              end
          | ESubscript o i =>
              vo <- eval n o ;; vi <- eval n i ;;
              perform (RSetItem vo vi v) ;;; ret tt
          | EAttr o a =>
              vo <- eval n o ;; perform (RSetAttr vo a v) ;;; ret tt
          | _ => raise "cannot assign to this target"
          end ;;;
          ret None
      | SAugAssign t op e =>
          match t with
          | EName x =>
              cur <- lookup_name x ;;
              v <- eval n e ;;
              r <- perform (RInplace op cur v) ;;
              assign_name x r
          | ESubscript o i =>
              vo <- eval n o ;; vi <- eval n i ;;
              cur <- perform (RGetItem vo vi) ;;
              v <- eval n e ;;
              r <- perform (RInplace op cur v) ;;
              perform (RSetItem vo vi r) ;;; ret tt
          | EAttr o a =>
              vo <- eval n o ;;
              cur <- perform (RGetAttr vo a) ;;
              v <- eval n e ;;
              r <- perform (RInplace op cur v) ;;
              perform (RSetAttr vo a r) ;;; ret tt
          | _ => raise "cannot assign to this target"
          end ;;;
          ret None
      | SExpr e => eval n e ;;; ret None
      | SPrint es =>
          vs <- map_m (eval n) es ;; perform (RPrint vs) ;;; ret None
      | SReturn e => v <- eval n e ;; ret (Some v)
      | SDef x ps body => assign_name x (VFun ps body) ;;; ret None
      | SClass x bases body =>
          vb <- map_m (eval n) bases ;;
          assign_name x (VClass x vb body) ;;;
          ret None
      | SFor x iter body =>
          it <- eval n iter ;;
          items <- perform_items (RIter it) ;;
          for_each (fun item => assign_name x item ;;; block (exec n) body)
                   items
      | SMagic line => perform (RMagic line) ;;; ret None
      | STry body handler =>
          fun st =>
            match block (exec n) body st with
            | (Raise _, st') => block (exec n) handler st'
            | r => r
            end
      end
  end

with call (fuel : nat) (f : value) (args : list value)
          (kwargs : list (string * value)) {struct fuel} : M value :=
  match fuel with
  | O => out_of_fuel
  | S n =>
      match f with
      | VExt _ => perform (RCall f args kwargs)
      | VClass _ _ _ => perform (RNew f args kwargs)
      | VFun ps body =>
          match kwargs, frame_of ps args with
          | [], Some fr =>
              r <- with_frame fr (block (exec n) body) ;; or_none r
          | _, _ => raise "the arguments do not match the parameters"
          end
      | VLam ps body =>
          match kwargs, frame_of ps args with
          | [], Some fr => with_frame fr (eval n body)
          | _, _ => raise "the arguments do not match the parameters"
          end
      end
  end.

(** One cell: a code cell runs its statements; a [return] at the top level
    is an error.  Other cells do nothing. *)
Definition exec_cell (fuel : nat) (c : cell) : M unit :=
  match c with
  | Code src =>
      r <- block (exec fuel) src ;;
      match r with
      | None => ret tt
      | Some _ => raise "return outside a function"
      end
  | Markdown | Heading => ret tt
  end.

(** Run All: the cells in their order, from cell number [i] on; stops at the
    first cell that does not complete.  Returns the numbers of the cells that
    were started, in the order they were started. *)
Fixpoint run_cells (fuel : nat) (i : nat) (cells : list cell) (s : state)
  : list nat * outcome unit * state :=
  match cells with
  | [] => ([], Done tt, s)
  | c :: rest =>
      match exec_cell fuel c s with
      | (Done _, s') =>
          let '(started, o, s'') := run_cells fuel (S i) rest s' in
          (i :: started, o, s'')
      | (o, s') => ([i], o, s')
      end
  end.

Definition fresh (w : world) : state := mk_state ∅ [] w [].

Definition run (fuel : nat) (nb : notebook) (w : world)
  : list nat * outcome unit * state :=
  run_cells fuel 0 (nb_cells nb) (fresh w).

(** A log with no raised exception in it. *)
Definition is_raised (ev : event) : bool :=
  match ev.2 with Raised _ => true | _ => false end.

Definition quiet (l : list event) : Prop :=
  Forall (fun ev => is_raised ev = false) l.

(** A log whose last entry, and no other, is the exception [e]. *)
Definition fails_last (l : list event) (e : ext) : Prop :=
  exists l0 r, l = l0 ++ [(r, Raised e)] /\ quiet l0.

(** Values hold no code with an exception handler. *)
Fixpoint handler_free_value (v : value) : bool :=
  match v with
  | VExt _ => true
  | VFun _ body => Analysis.handler_free body
  | VLam _ _ => true
  | VClass _ bases body =>
      forallb handler_free_value bases && Analysis.handler_free body
  end.

Definition ok_value (v : value) : Prop := handler_free_value v = true.

Definition ok_result (r : option value) : Prop :=
  match r with
  | Some v => ok_value v
  | None => True
  end.

Definition handler_free_map (m : gmap string value) : Prop :=
  map_Forall (fun _ v => handler_free_value v = true) m.

Definition handler_free_state (s : state) : Prop :=
  handler_free_map (globals s) /\ Forall handler_free_map (frames s).

End Runtime.

Arguments value : clear implicits.
Arguments request : clear implicits.
Arguments response : clear implicits.
Arguments exn : clear implicits.
Arguments outcome : clear implicits.
Arguments event : clear implicits.
Arguments state : clear implicits.
Arguments M : clear implicits.
Arguments Done {ext A} a.
Arguments Raise {ext A} e.
Arguments OutOfFuel {ext A}.

(** What a computation leaves in the log, by the way it ends: a library
    exception is the last entry of what was logged, and the only exception
    in it; otherwise no exception was logged. *)
Definition verdict {ext A : Type} (P : A -> Prop) (o : outcome ext A)
    (l : list (event ext)) : Prop :=
  match o with
  | Done a => quiet l /\ P a
  | Raise (LibraryError e) => fails_last l e
  | Raise (KernelError _) => quiet l
  | OutOfFuel => quiet l
  end.

(** [m] swallows no exception: run from a state without handlers in its
    closures, it extends the log by entries that fit the way it ends. *)
Definition propagates {ext world A : Type} (P : A -> Prop) (m : M ext world A)
  : Prop :=
  forall s o s',
    handler_free_state s -> m s = (o, s') ->
    handler_free_state s'
    /\ exists l, log s' = log s ++ l /\ verdict P o l.

(** A runtime for trying the interpreter: objects are numbered in the order
    they are made; an iteration yields as many items as the next entry of the
    script says; request number [fail_at] raises. *)
Record script : Type := mk_script {
  next_id : nat;
  item_counts : list nat;
  fail_at : option nat
}.

Definition scripted (r : request nat) (w : script) : response nat * script :=
  let n := next_id w in
  if bool_decide (fail_at w = Some n)
  then (Raised n, mk_script (S n) (item_counts w) (fail_at w))
  else
    match r with
    | RIter _ =>
        match item_counts w with
        | k :: rest => (Items (repeat n k), mk_script (S n) rest (fail_at w))
        | [] => (Items [], mk_script (S n) [] (fail_at w))
        end
    | _ => (Returned n, mk_script (S n) (item_counts w) (fail_at w))
    end.

(** Scripts under which the notebooks run to completion: the number of
    items of each iteration, in the order the notebook iterates (list
    comprehensions, tuple unpackings, starred arguments, [for] loops). *)
Definition completing_script (nb : notebook) : script :=
  if String.eqb (nb_name nb) "quantile_regression"
  then mk_script 0 [2; 2; 2]%nat None
  else if String.eqb (nb_name nb) "metaanalysis1"
  then mk_script 0 [1; 6; 2; 4; 4; 2; 4; 2; 4; 2; 4]%nat None
  else mk_script 0 [] None.

End Kernel.

(** ** 64-bit integers

    The integer arrays and columns of the notebooks have dtype [int64]:
    numpy computes on them modulo [2^64] and reports no overflow. *)
Module Int64.
Local Open Scope Z_scope.

Definition in_range (z : Z) : Prop := - 2 ^ 63 <= z < 2 ^ 63.

(** The signed integer with the 64-bit pattern of [z]. *)
Definition wrap (z : Z) : Z := (z + 2 ^ 63) mod 2 ^ 64 - 2 ^ 63.

Definition add (a b : Z) : Z := wrap (a + b).

Definition sub (a b : Z) : Z := wrap (a - b).

(** An operator applied element by element, with numpy's broadcasting of a
    vector of length one; [None] (a [ValueError]) when the lengths do not
    fit. *)
Definition elementwise (op : Z -> Z -> Z) (a b : list Z) : option (list Z) :=
  if (length a =? length b)%nat
  then Some (List.map (fun ab : Z * Z => op ab.1 ab.2) (combine a b))
  else match a, b with
       | [x], _ => Some (List.map (op x) b)
       | _, [y] => Some (List.map (fun x => op x y) a)
       | _, _ => None
       end.

End Int64.

(** ** The contingency tables, on [int64] vectors

    The cell of the meta-analysis notebook that builds the tables, with the
    subtraction numpy does on the [int64] rows of [dta_c]:
<<
t, nt, c, nc = dta_c
counts = np.column_stack([t, nt - t, c, nc - c])
ctables = counts.T.reshape(2, 2, -1)
>> *)
Module StratifiedCounts.
Import NdArray.

Definition counts (t nt c nc : list Z) : option ndarray :=
  nt_t ← Int64.elementwise Int64.sub nt t;
  nc_c ← Int64.elementwise Int64.sub nc c;
  column_stack [t; nt_t; c; nc_c].

Definition ctables (t nt c nc : list Z) : option ndarray :=
  counts ← counts t nt c nc;
  counts_T ← transpose counts;
  reshape [2; 2; -1]%Z counts_T.

End StratifiedCounts.

(** ** numpy arrays as views of shared memory

    A two-dimensional [int64] array is a view: the buffer it reads and
    writes, the position of its first element in the buffer and, for each
    of its two axes, a length and a stride, counted in elements.  Views may
    share a buffer: [a.T] is a view of the buffer of [a]; [a.copy()] has a
    buffer of its own.  Strides are not negative here: the notebooks make no
    reversed view. *)
Module Strided.
Local Open Scope Z_scope.

(** The buffers allocated so far, by number. *)
Abbreviation memory := (list (list Z)).

Record view : Type := mk_view {
  buffer : nat;
  start : nat;
  rows : nat;
  cols : nat;
  row_stride : nat;
  col_stride : nat
}.

(** Where element [i, j] of a view lies in its buffer. *)
Definition position (a : view) (i j : nat) : nat :=
  (start a + i * row_stride a + j * col_stride a)%nat.

(** An index on an axis of length [n]: [-n .. -1] count from the end;
    [None] (an [IndexError]) out of range. *)
Definition index (n : nat) (k : Z) : option nat :=
  if (0 <=? k) && (k <? Z.of_nat n) then Some (Z.to_nat k)
  else if (- Z.of_nat n <=? k) && (k <? 0) then Some (Z.to_nat (k + Z.of_nat n))
  else None.

(** [a[i, j]] *)
Definition getitem (m : memory) (a : view) (i j : Z) : option Z :=
  i' ← index (rows a) i;
  j' ← index (cols a) j;
  b ← m !! buffer a;
  b !! position a i' j'.

Definition int64 (x : Z) : bool := (- 2 ^ 63 <=? x) && (x <? 2 ^ 63).

(** [a[i, j] = x] with a Python integer [x]: [None] for an index out of
    range (an [IndexError]) and for an integer that does not fit [int64]
    (an [OverflowError]). *)
Definition setitem (m : memory) (a : view) (i j x : Z) : option memory :=
  i' ← index (rows a) i;
  j' ← index (cols a) j;
  b ← m !! buffer a;
  if int64 x && (position a i' j' <? length b)%nat
  then Some (<[buffer a := <[position a i' j' := x]> b]> m)
  else None.

(** [a.T]: the same buffer, the axes exchanged. *)
Definition T (a : view) : view :=
  mk_view (buffer a) (start a) (cols a) (rows a) (col_stride a) (row_stride a).

(** The positions of the elements of a view, row by row. *)
Definition positions (a : view) : list nat :=
  List.flat_map (fun i => List.map (position a i) (seq 0 (cols a)))
                (seq 0 (rows a)).

(** The elements of a view, row by row; [None] when the view reaches
    outside its buffer. *)
Definition elements (m : memory) (a : view) : option (list Z) :=
  b ← m !! buffer a;
  mapM (fun p => b !! p) (positions a).

(** [a.copy()]: a new buffer with the elements row by row, and the view of
    all of it. *)
Definition copy (m : memory) (a : view) : option (memory * view) :=
  es ← elements m a;
  Some ((m ++ [es])%list, mk_view (length m) 0 (rows a) (cols a) (cols a) 1).

(** The array a view shows. *)
Definition to_array (m : memory) (a : view) : option NdArray.ndarray :=
  es ← elements m a;
  Some (NdArray.mk_array [rows a; cols a] es).

End Strided.

(** ** Frames built from rows

    More of what the notebooks do with [pandas]: a frame built from a list
    of rows, and the items of a frame as numbers. *)
Module FrameRows.
Import Frame.

(** The cell of a frame in column [c], row [r]. *)
Definition cell_at (df : frame) (c r : nat) : option cell :=
  columns df !! c ≫= (fun lc : label * series => lc.2 !! r).

(** The length of the longest row. *)
Definition width (rows : list (list cell)) : nat :=
  fold_right Nat.max 0%nat (List.map (@length cell) rows).

(** The dtype of a column built from Python objects: [int64] if all are
    integers, [float64] if all are numbers or missing, [object] otherwise. *)
Definition infer_cells (cells : series) : series :=
  if forallb is_int cells then cells
  else if forallb is_numeric cells then List.map to_float cells
  else cells.

(** [pd.DataFrame(rows, columns=names)] on a list of lists: shorter rows are
    padded with missing values; [None] (a [ValueError]) when the longest row
    does not have as many items as there are names.  No rows give a frame of
    empty columns. *)
Definition from_rows (rows : list (list cell)) (names : list string)
  : option frame :=
  match rows with
  | [] => Some (mk_frame (List.map (fun n => (LStr n, [])) names))
  | _ =>
      if (width rows =? length names)%nat
      then Some (mk_frame
                   (imap (fun j n =>
                            (LStr n,
                             infer_cells
                               (List.map (fun row => nth j row CNaN) rows)))
                         names))
      else None
  end.

(** A cell as a float: [Some None] for a missing value (NaN), [None] (a
    [TypeError] in arithmetic) for text. *)
Definition float_of (c : cell) : option (option Q) :=
  match c with
  | CInt z => Some (Some (inject_Z z))
  | CFloat q => Some (Some q)
  | CNaN => Some None
  | CStr _ => None
  end.

(** [df.l[i]]: [None] (a [KeyError]) without such a column or row. *)
Definition item (l : string) (i : nat) (df : frame) : option cell :=
  col ← get_column (LStr l) df; col !! i.

End FrameRows.

(** ** The meta-analysis notebook's first example *)
Module SmdExample.
Import Frame NdArray MetaAnalysis FrameRows.
Local Open Scope Z_scope.

Definition data : list (list cell) :=
  [ [CStr "Carroll"; CInt 94; CInt 22; CInt 60; CInt 92; CInt 20; CInt 60];
    [CStr "Grant"; CInt 98; CInt 21; CInt 65; CInt 92; CInt 22; CInt 65];
    [CStr "Peck"; CInt 98; CInt 28; CInt 40; CInt 88; CInt 26; CInt 40];
    [CStr "Donat"; CInt 94; CInt 19; CInt 200; CInt 82; CInt 17; CInt 200];
    [CStr "Stewart"; CInt 98; CInt 21; CInt 50; CInt 88; CInt 22; CInt 45];
    [CStr "Young"; CInt 96; CInt 21; CInt 85; CInt 92; CInt 22; CInt 85] ].

Definition colnames : list string :=
  ["study"; "mean_t"; "sd_t"; "n_t"; "mean_c"; "sd_c"; "n_c"].

(** [[i[0] for i in data]]: [None] (an [IndexError]) on an empty row. *)
Definition first_items (rows : list (list cell)) : option (list cell) :=
  mapM head rows.

(** [a + b] on [int64] vectors: the sums wrap around; with numpy's
    broadcasting of a vector of length one; [None] (a [ValueError]) when the
    lengths do not fit. *)
Definition vec_add (a b : list Z) : option (list Z) :=
  Int64.elementwise Int64.add a b.

(** Unpacking an array into six names: its six rows; [None] (a
    [ValueError]) when it does not have exactly six. *)
Definition unpack6 (a : ndarray)
  : option (list Z * list Z * list Z * list Z * list Z * list Z) :=
  rs ← rows a;
  match rs with
  | [r1; r2; r3; r4; r5; r6] => Some (r1, r2, r3, r4, r5, r6)
  | _ => None
  end.

(** What the three cells of the example leave in the kernel. *)
Record vectors : Type := mk_vectors {
  rownames_0 : list cell;     (* [rownames], from the comprehension *)
  rownames : list cell;       (* [rownames.tolist()], from the frame *)
  mean2 : list Z; sd2 : list Z; nobs2 : list Z;
  mean1 : list Z; sd1 : list Z; nobs1 : list Z;
  nobs : list Z               (* [nobs1 + nobs2] *)
}.

(** The cells, on any list of rows:
<<
rownames = [i[0] for i in data]
dframe1 = pd.DataFrame(data, columns=colnames)
mean2, sd2, nobs2, mean1, sd1, nobs1 = np.asarray(
    dframe1[["mean_t", "sd_t", "n_t", "mean_c", "sd_c", "n_c"]]
).T
rownames = dframe1["study"]
np.array(nobs1 + nobs2)
>> *)
Definition unpack_studies (rows : list (list cell)) : option vectors :=
  names0 ← first_items rows;
  dframe1 ← from_rows rows colnames;
  sel ← select [LStr "mean_t"; LStr "sd_t"; LStr "n_t";
                LStr "mean_c"; LStr "sd_c"; LStr "n_c"] dframe1;
  a ← values sel;
  aT ← transpose a;
  '(m2, s2, n2, m1, s1, n1) ← unpack6 aT;
  names ← get_column (LStr "study") dframe1;
  total ← vec_add n1 n2;
  Some (mk_vectors names0 names m2 s2 n2 m1 s1 n1 total).

(** A study as one row of [data]: its name, then mean, standard deviation
    and sample size of the treatment and of the control group. *)
Record study : Type := mk_study {
  name : string;
  mean_t : Z; sd_t : Z; n_t : Z;
  mean_c : Z; sd_c : Z; n_c : Z
}.

Definition row_of (s : study) : list cell :=
  [CStr (name s); CInt (mean_t s); CInt (sd_t s); CInt (n_t s);
   CInt (mean_c s); CInt (sd_c s); CInt (n_c s)].

(** The numbers of a study fit [int64], so that [pd.DataFrame] stores the
    six columns as [int64] and not as Python objects. *)
Definition representable (s : study) : Prop :=
  Int64.in_range (mean_t s) /\ Int64.in_range (sd_t s)
  /\ Int64.in_range (n_t s) /\ Int64.in_range (mean_c s)
  /\ Int64.in_range (sd_c s) /\ Int64.in_range (n_c s).

(** The six studies of [data]. *)
Definition studies : list study :=
  [ mk_study "Carroll" 94 22 60 92 20 60;
    mk_study "Grant" 98 21 65 92 22 65;
    mk_study "Peck" 98 28 40 88 26 40;
    mk_study "Donat" 94 19 200 82 17 200;
    mk_study "Stewart" 98 21 50 88 22 45;
    mk_study "Young" 96 21 85 92 22 85 ].

End SmdExample.

(** ** The quantile regression notebook's table of fits and its lines *)
Module QuantileRegression.
Import Frame FrameRows.
Local Open Scope Q_scope.

(** What the notebook reads off a fitted model [res]:
    [res.params['Intercept']], [res.params['income']] and
    [res.conf_int().ix['income'].tolist()]. *)
Record fit : Type := mk_fit {
  intercept : Q;
  income : Q;
  conf_int_income : list Q
}.

Section Fits.

(** [mod.fit(q=q)], the library's quantile regression. *)
Variable mod_fit : Q -> fit.

(**
<<
def fit_model(q):
    res = mod.fit(q=q)
    return [q, res.params['Intercept'], res.params['income']] + \
            res.conf_int().ix['income'].tolist()
>> *)
Definition fit_model (q : Q) : list cell :=
  let res := mod_fit q in
  ([CFloat q; CFloat (intercept res); CFloat (income res)]
   ++ List.map CFloat (conf_int_income res))%list.

(**
<<
models = [fit_model(x) for x in quantiles]
models = pd.DataFrame(models, columns=['q', 'a', 'b','lb','ub'])
>> *)
Definition models (quantiles : list Q) : option frame :=
  from_rows (List.map fit_model quantiles) ["q"; "a"; "b"; "lb"; "ub"].

End Fits.

(** [get_y = lambda a, b: a + b * x], on the array [x]; a missing [a] or
    [b] gives missing values. *)
Definition get_y (x : list Q) (a b : option Q) : list (option Q) :=
  List.map (fun xi => a' ← a; b' ← b; Some (a' + b' * xi)) x.

(** The lines of the first plot, one per row of [models]:
<<
for i in range(models.shape[0]):
    y = get_y(models.a[i], models.b[i])
    ax.plot(x, y, linestyle='dotted', color='grey')
>> *)
Definition quantile_lines (x : list Q) (models : frame)
  : option (list (list (option Q))) :=
  mapM (fun i =>
          a ← item "a" i models ≫= float_of;
          b ← item "b" i models ≫= float_of;
          Some (get_y x a b))
       (seq 0 (nrows models)).

End QuantileRegression.

(** ** Names are bound before they are read

    A stricter reading of scopes than [Analysis.backward_reads], matching
    the interpreter: a name bound only inside a loop body or a handler does
    not count as bound afterwards (the loop may run zero times), and the body
    of a function or lambda sees its parameters, its own local names and the
    module-level names bound where it is defined. *)
Module Scoping.
Import Py.

(** The names known to be bound: at module level, and (inside a function)
    in the function's frame. *)
Record scope : Type := mk_scope {
  module_names : list string;
  local_names : option (list string)
}.

Definition top : scope := mk_scope [] None.

(** An assignment binds in the innermost frame. *)
Definition bind (x : string) (sc : scope) : scope :=
  match local_names sc with
  | None => mk_scope (x :: module_names sc) None
  | Some l => mk_scope (module_names sc) (Some (x :: l))
  end.

Definition bind_all (xs : list string) (sc : scope) : scope :=
  fold_left (fun acc x => bind x acc) xs sc.

(** The scope of a function body: the parameters, over the module-level
    names. *)
Definition enter (ps : list string) (sc : scope) : scope :=
  mk_scope (module_names sc) (Some ps).

Definition visible (sc : scope) (x : string) : bool :=
  match local_names sc with
  | Some l => Analysis.mem x l
  | None => false
  end
  || Analysis.mem x (module_names sc)
  || Analysis.mem x Analysis.builtin_names.

(** Every name the expression reads is visible where it is read. *)
Fixpoint reads_ok (sc : scope) (e : expr) : bool :=
  match e with
  | EName x => visible sc x
  | EInt _ | EFloat _ | EStr _ | EBool _ | ENone => true
  | EList es | ETuple es => forallb (reads_ok sc) es
  | EDict ks vs => forallb (reads_ok sc) ks && forallb (reads_ok sc) vs
  | EBinOp _ l r => reads_ok sc l && reads_ok sc r
  | ENeg e1 | EAttr e1 _ | EStar e1 => reads_ok sc e1
  | ESubscript e1 i => reads_ok sc e1 && reads_ok sc i
  | ESlice lo hi =>
      match lo with Some e1 => reads_ok sc e1 | None => true end
      && match hi with Some e1 => reads_ok sc e1 | None => true end
  | ECall f args kwargs =>
      reads_ok sc f && forallb (reads_ok sc) args
      && forallb (fun kv : string * expr => reads_ok sc kv.2) kwargs
  | ELambda ps body => reads_ok (enter ps sc) body
  | EListComp elt x iter => reads_ok sc iter && reads_ok (bind x sc) elt
  end.

Definition thread_scope (f : scope -> stmt -> option scope)
  : scope -> list stmt -> option scope :=
  fix go (sc : scope) (l : list stmt) : option scope :=
    match l with
    | [] => Some sc
    | s :: l' =>
        match f sc s with
        | Some sc1 => go sc1 l'
        | None => None
        end
    end.

Definition guard (b : bool) (sc : scope) : option scope :=
  if b then Some sc else None.

(** One statement: [None] if it may read a name that is not bound, else the
    scope after it.  The body of a class is a scope of its own over the
    module-level names; a method sees its parameters, its locals and the
    module-level names, not the names of the class body. *)
Fixpoint binds_before_reads (sc : scope) (s : stmt) : option scope :=
  match s with
  | SImport m (Some a) => Some (bind a sc)
  | SImport m None => Some (bind (Analysis.top_module m) sc)
  | SFromImport _ ns => Some (bind_all ns sc)
  | SAssign t v =>
      match t with
      | EName x => guard (reads_ok sc v) (bind x sc)
      | ETuple ts | EList ts =>
          guard (reads_ok sc v)
                (match Kernel.names_of ts with
                 | Some xs => bind_all xs sc
                 | None => sc
                 end)
      | ESubscript o i => guard (reads_ok sc v && reads_ok sc o && reads_ok sc i) sc
      | EAttr o _ => guard (reads_ok sc v && reads_ok sc o) sc
      | _ => guard (reads_ok sc v) sc
      end
  | SAugAssign t _ v =>
      match t with
      | EName x => guard (visible sc x && reads_ok sc v) sc
      | ESubscript o i => guard (reads_ok sc o && reads_ok sc i && reads_ok sc v) sc
      | EAttr o _ => guard (reads_ok sc o && reads_ok sc v) sc
      | _ => Some sc
      end
  | SExpr e | SReturn e => guard (reads_ok sc e) sc
  | SPrint es => guard (forallb (reads_ok sc) es) sc
  | SDef n ps body =>
      match thread_scope binds_before_reads (enter ps sc) body with
      | Some _ => Some (bind n sc)
      | None => None
      end
  | SClass n bases body =>
      match thread_scope binds_before_reads (enter [] sc) body with
      | Some _ => guard (forallb (reads_ok sc) bases) (bind n sc)
      | None => None
      end
  | SFor x iter body =>
      match thread_scope binds_before_reads (bind x sc) body with
      | Some _ => guard (reads_ok sc iter) sc
      | None => None
      end
  | SMagic _ => Some sc
  | STry body handler =>
      match thread_scope binds_before_reads sc body,
            thread_scope binds_before_reads sc handler with
      | Some _, Some _ => Some sc
      | _, _ => None
      end
  end.

Definition block_ok : scope -> list stmt -> option scope :=
  thread_scope binds_before_reads.

(** The cells of a notebook, run in order. *)
Fixpoint cells_ok (sc : scope) (cells : list cell) : bool :=
  match cells with
  | [] => true
  | Code src :: rest =>
      match block_ok sc src with
      | Some sc' => cells_ok sc' rest
      | None => false
      end
  | _ :: rest => cells_ok sc rest
  end.

Definition well_scoped (nb : notebook) : bool := cells_ok top (nb_cells nb).

(** The methods of the classes a notebook defines at module level: the
    code the libraries call back. *)
Definition methods_of (body : list stmt) : list (string * list string * list stmt) :=
  List.flat_map (fun s => match s with
                          | SDef m ps mbody => [(m, ps, mbody)]
                          | _ => []
                          end) body.

(** *** What the scopes say about a kernel *)
Section Semantics.
Import Kernel.
Context {ext world : Type}.

Definition binds (m : gmap string (value ext)) (xs : list string) : Prop :=
  forall x, In x xs -> is_Some (m !! x).

(** The kernel binds at least the names of the scope. *)
Definition agrees (sc : scope) (s : state ext world) : Prop :=
  binds (globals s) (module_names sc)
  /\ match local_names sc, frames s with
     | None, [] => True
     | Some l, fr :: _ => binds fr l
     | _, _ => False
     end.

(** A function value whose body reads only its parameters, its locals and
    module-level names that [G] binds; a class whose body, methods
    included, does. *)
Definition closure_ok (G : gmap string (value ext)) (v : value ext) : Prop :=
  match v with
  | VFun ps body =>
      exists g, binds G g /\ is_Some (block_ok (mk_scope g (Some ps)) body)
  | VLam ps body =>
      exists g, binds G g /\ reads_ok (mk_scope g (Some ps)) body = true
  | VClass _ _ body =>
      exists g, binds G g /\ is_Some (block_ok (mk_scope g (Some [])) body)
  | VExt _ => True
  end.

Definition store_ok (G m : gmap string (value ext)) : Prop :=
  map_Forall (fun _ v => closure_ok G v) m.

Definition state_ok (s : state ext world) : Prop :=
  store_ok (globals s) (globals s)
  /\ Forall (store_ok (globals s)) (frames s).

Definition value_ok (v : value ext) (s : state ext world) : Prop :=
  closure_ok (globals s) v.

Definition includes (m m' : gmap string (value ext)) : Prop :=
  forall x, is_Some (m !! x) -> is_Some (m' !! x).

(** Names stay bound: the module binds at least what it did, and so does the
    innermost frame; the frames below it are the same. *)
Definition grows (s s' : state ext world) : Prop :=
  includes (globals s) (globals s')
  /\ match frames s, frames s' with
     | [], [] => True
     | fr :: rest, fr' :: rest' => rest' = rest /\ includes fr fr'
     | _, _ => False
     end.

Definition stable (P : state ext world -> Prop) : Prop :=
  forall s s', P s -> grows s s' -> P s'.

(** A request for a name asks for a builtin of Python. *)
Definition known_request (r : request ext) : Prop :=
  match r with
  | RBuiltin x => In x Analysis.builtin_names
  | _ => True
  end.

Definition known_name (ev : event ext) : Prop := known_request ev.1.

(** From a kernel whose closures are well scoped and that satisfies [P],
    [m] keeps names bound and closures well scoped, asks only for builtin
    names, and establishes [Q] when it completes. *)
Definition scoped {A : Type} (P : state ext world -> Prop)
    (Q : A -> state ext world -> Prop) (m : M ext world A) : Prop :=
  forall s o s',
    state_ok s -> P s -> m s = (o, s') ->
    grows s s' /\ state_ok s'
    /\ (exists l, log s' = (log s ++ l)%list /\ Forall known_name l)
    /\ forall a, o = Done a -> Q a s'.

(** The result of a statement: a returned value, or the scope after it. *)
Definition after (sc : scope) (r : option (value ext)) (s : state ext world)
  : Prop :=
  match r with
  | Some v => value_ok v s
  | None => agrees sc s
  end.

End Semantics.

End Scoping.

(* ===================================================================== *)
(** * Part II: theorems *)
(* ===================================================================== *)

(** Case analysis over the notebooks of the repository, and over the
    members of a list that computes. *)
Ltac each_notebook H :=
  unfold Notebooks.all in H;
  repeat (destruct H as [<- | H]); [ .. | destruct H].

Ltac each_member H :=
  vm_compute in H;
  repeat (destruct H as [<- | H]); [ .. | destruct H].

(** ** The definitions on small inputs *)

Example split_fields :
  Csv.split Csv.comma "1.50,12.70,,x" = ["1.50"; "12.70"; ""; "x"].
Proof. reflexivity. Qed.

Example parse_decimal_17_50 :
  Csv.parse_decimal "17.50" = Some (1750 # 100)%Q
  /\ Csv.parse_decimal "0.01" = Some (1 # 100)%Q
  /\ Csv.parse_decimal "12" = None
  /\ Csv.parse_int "12" = Some 12%Z.
Proof. repeat split. Qed.

Example parse_field_kinds :
  List.map Frame.parse_field ["    17"; "42"; "16.0"; ""; "Carroll"]
  = [Frame.CInt 17; Frame.CInt 42; Frame.CFloat (160 # 10); Frame.CNaN;
     Frame.CStr "Carroll"].
Proof. reflexivity. Qed.

Example melt_two_by_two :
  Frame.melt (Frame.mk_frame
                [ (Frame.LInt 0, [Frame.CInt 1; Frame.CInt 2]);
                  (Frame.LInt 1, [Frame.CInt 3; Frame.CInt 4]) ])
  = Frame.mk_frame
      [ (Frame.LStr "variable",
         [Frame.CInt 0; Frame.CInt 0; Frame.CInt 1; Frame.CInt 1]);
        (Frame.LStr "value",
         [Frame.CInt 1; Frame.CInt 2; Frame.CInt 3; Frame.CInt 4]) ].
Proof. reflexivity. Qed.

Example raw_first_and_last_line :
  List.map (QuasiBinomial.raw_value 0) (seq 0 9)
  = List.map (fun q => Some (Frame.CFloat q))
      [ 5 # 100; 0 # 100; 125 # 100; 250 # 100; 550 # 100; 100 # 100;
        500 # 100; 500 # 100; 1750 # 100 ]%Q
  /\ List.map (QuasiBinomial.raw_value 9) (seq 0 9)
     = List.map (fun q => Some (Frame.CFloat q))
         [ 150 # 100; 1270 # 100; 2625 # 100; 4000 # 100; 4350 # 100;
           7500 # 100; 7500 # 100; 7500 # 100; 9500 # 100 ]%Q.
Proof. split; vm_compute; reflexivity. Qed.

Example site_and_variety_of_row_37 :
  QuasiBinomial.site_of_index 37 = 4%Z
  /\ QuasiBinomial.variety_of_index 37 = 8%Z.
Proof. split; reflexivity. Qed.

Example vf_at_one_half :
  (vf.__call__ (1 # 2) == 1 # 16)%Q /\ (vf.deriv (1 # 2) == 0)%Q.
Proof. split; reflexivity. Qed.

Example transpose_two_by_three :
  NdArray.transpose (NdArray.mk_array [2; 3]%nat [1; 2; 3; 4; 5; 6]%Z)
  = Some (NdArray.mk_array [3; 2]%nat [1; 4; 2; 5; 3; 6]%Z).
Proof. reflexivity. Qed.

Example reshape_infers_dimension :
  NdArray.reshape [2; 2; -1]%Z
    (NdArray.mk_array [4; 2]%nat [1; 2; 3; 4; 5; 6; 7; 8]%Z)
  = Some (NdArray.mk_array [2; 2; 2]%nat [1; 2; 3; 4; 5; 6; 7; 8]%Z)
  /\ NdArray.reshape [2; 2; -1]%Z
       (NdArray.mk_array [3; 2]%nat [1; 2; 3; 4; 5; 6]%Z) = None.
Proof. split; reflexivity. Qed.

Example ctables_of_two_studies :
  MetaAnalysis.ctables [18; 22]%Z [19; 34]%Z [12; 12]%Z [22; 35]%Z
  = Some (NdArray.mk_array [2; 2; 2]%nat [18; 22; 1; 12; 12; 12; 10; 23]%Z).
Proof. reflexivity. Qed.

Example set_through_view :
  NdArray.set_through_T
    (NdArray.mk_array [2; 3]%nat [1; 2; 3; 4; 5; 6]%Z) 2 0 9%Z
  = Some (NdArray.mk_array [2; 3]%nat [1; 2; 9; 4; 5; 6]%Z).
Proof. reflexivity. Qed.

(** ** Polynomial arithmetic evaluates pointwise *)
Section PolyEval.
Import Poly.
Local Open Scope Q_scope.

Lemma peval_padd (p q : poly) (x : Q) :
  peval (padd p q) x == peval p x + peval q x.
Proof.
  revert q. induction p as [|a p IH]; intros [|b q]; simpl; try ring.
  rewrite IH. ring.
Qed.

Lemma peval_pscale (c : Q) (p : poly) (x : Q) :
  peval (pscale c p) x == c * peval p x.
Proof.
  induction p as [|a p IH]; simpl; [ring|].
  unfold pscale in IH. rewrite IH. ring.
Qed.

Lemma peval_psub (p q : poly) (x : Q) :
  peval (psub p q) x == peval p x - peval q x.
Proof.
  unfold psub. rewrite peval_padd, peval_pscale. ring.
Qed.

Lemma peval_pmul (p q : poly) (x : Q) :
  peval (pmul p q) x == peval p x * peval q x.
Proof.
  induction p as [|a p IH]; simpl; [ring|].
  rewrite peval_padd, peval_pscale. simpl. rewrite IH. ring.
Qed.

Lemma peval_ppow (p : poly) (n : nat) (x : Q) :
  peval (ppow p n) x == peval p x ^ Z.of_nat n.
Proof.
  induction n as [|n IH].
  - simpl. ring.
  - cbn [ppow]. rewrite peval_pmul, IH.
    replace (Z.of_nat (S n)) with (1 + Z.of_nat n)%Z by lia.
    rewrite Qpower_plus' by lia. rewrite Qpower_1_r. reflexivity.
Qed.

Lemma peval_pX (x : Q) : peval pX x == x.
Proof. unfold pX. simpl. ring. Qed.

Lemma peval_pconst (c x : Q) : peval (pconst c) x == c.
Proof. unfold pconst. simpl. ring. Qed.

End PolyEval.

(** ** The variance function and its derivative *)
Section VarianceFunction.
Import Poly.

(** The two methods, run on the indeterminate [X], give these coefficient
    lists (up to [==] on the coefficients): [X^2 - 2 X^3 + X^4] and
    [2 X - 6 X^2 + 4 X^3]. *)
Lemma vf_call_coefficients :
  peq (vf.__call__ pX) [0; 0; 1; -2; 1]%Q.
Proof.
  intros n. do 5 (destruct n as [|n]; [vm_compute; reflexivity|]).
  destruct n; reflexivity.
Qed.

Lemma vf_deriv_coefficients :
  peq (vf.deriv pX) [0; 2; -6; 4]%Q.
Proof.
  intros n. do 4 (destruct n as [|n]; [vm_compute; reflexivity|]).
  destruct n; reflexivity.
Qed.

(** The polynomial a method computes on [X] evaluates, at every rational, to
    what the method computes on that rational. *)
Lemma vf_call_poly_sound (mu : Q) :
  (peval (vf.__call__ pX) mu == vf.__call__ mu)%Q.
Proof.
  unfold vf.__call__. cbn [py_mul py_pow py_sub py_lit PyNum_poly PyNum_Q].
  rewrite peval_pmul, !peval_ppow, peval_psub, peval_pconst, peval_pX.
  reflexivity.
Qed.

Lemma vf_deriv_poly_sound (mu : Q) :
  (peval (vf.deriv pX) mu == vf.deriv mu)%Q.
Proof.
  unfold vf.deriv.
  cbn [py_add py_mul py_pow py_sub py_lit PyNum_poly PyNum_Q].
  rewrite peval_padd, peval_psub, !peval_pmul, !peval_ppow, !peval_pconst,
    peval_pX.
  reflexivity.
Qed.

Lemma pderiv_vf_call :
  peq (pderiv (vf.__call__ pX)) (vf.deriv pX).
Proof.
  intros n. do 4 (destruct n as [|n]; [vm_compute; reflexivity|]).
  destruct n; reflexivity.
Qed.

(** On the reals, [vf.deriv] is the derivative of [vf.__call__] at every
    point. *)
Lemma vf_deriv_real (mu : R) :
  derivable_pt_lim (fun x : R => vf.__call__ x) mu (vf.deriv mu).
Proof.
  unfold vf.__call__, vf.deriv.
  cbn [py_add py_mul py_pow py_sub py_lit PyNum_R].
  change (N.to_nat 2) with 2%nat. change (N.to_nat 3) with 3%nat.
  set (f := fun x : R => (x ^ 2)%R).
  set (g := fun x : R => ((1 - x) ^ 2)%R).
  assert (Hf : derivable_pt_lim f mu (2 * mu)%R).
  { unfold f.
    replace (2 * mu)%R with (INR 2 * mu ^ Init.Nat.pred 2)%R by (simpl; ring).
    apply derivable_pt_lim_pow. }
  assert (Hg : derivable_pt_lim g mu (- (2 * (1 - mu)))%R).
  { unfold g.
    replace (- (2 * (1 - mu)))%R
      with (INR 2 * (1 - mu) ^ Init.Nat.pred 2 * (0 - 1))%R by (simpl; ring).
    apply (derivable_pt_lim_comp (fun x => (1 - x)%R) (fun y => (y ^ 2)%R)).
    - apply (derivable_pt_lim_minus (fun _ => 1%R) (fun x => x)).
      + apply derivable_pt_lim_const.
      + apply derivable_pt_lim_id.
    - apply derivable_pt_lim_pow. }
  replace (2 * mu - 6 * mu ^ 2 + 4 * mu ^ 3)%R
    with (2 * mu * g mu + f mu * - (2 * (1 - mu)))%R
    by (unfold f, g; ring).
  exact (derivable_pt_lim_mult f g mu _ _ Hf Hg).
Qed.

(** C3: the custom variance function class [vf] is internally consistent: the
    formal derivative of the polynomial [vf.__call__] computes,
    [mu^2 (1 - mu)^2], is the polynomial [vf.deriv] computes,
    [2 mu - 6 mu^2 + 4 mu^3], coefficient by coefficient over the rationals;
    both polynomials evaluate at every rational [mu] to what the methods
    return there; and on the reals [vf.deriv mu] is the derivative of
    [vf.__call__] at every [mu]. *)
Theorem vf_deriv_is_derivative_of_call :
  peq (pderiv (vf.__call__ pX)) (vf.deriv pX)
  /\ (forall mu : Q,
        (peval (vf.__call__ pX) mu == vf.__call__ mu)%Q
        /\ (peval (vf.deriv pX) mu == vf.deriv mu)%Q
        /\ (vf.__call__ mu == mu ^ 2 * (1 - mu) ^ 2)%Q
        /\ (vf.deriv mu == 2 * mu - 6 * mu ^ 2 + 4 * mu ^ 3)%Q)
  /\ (forall mu : R,
        derivable_pt_lim (fun x : R => vf.__call__ x) mu (vf.deriv mu)).
Proof.
  split; [exact pderiv_vf_call|]. split.
  - intros mu. split; [apply vf_call_poly_sound|].
    split; [apply vf_deriv_poly_sound|].
    split; reflexivity.
  - exact vf_deriv_real.
Qed.

End VarianceFunction.

(** ** Data frames: stacking columns *)
Section FrameLemmas.
Import Frame.

Lemma div_mod_shift (r i : nat) :
  (0 < r)%nat -> (r <= i)%nat ->
  (i / r = S ((i - r) / r))%nat /\ (i mod r = (i - r) mod r)%nat.
Proof.
  intros Hr Hi.
  replace i with ((i - r) + 1 * r)%nat at 1 3 by lia.
  rewrite Nat.div_add by lia. rewrite Nat.Div0.mod_add. lia.
Qed.

(** Looking up position [i] in the concatenation of blocks of equal length
    [r]: block [i / r], offset [i mod r]. *)
Lemma lookup_flat_map_rect {A B : Type} (f : A -> list B) (l : list A)
    (r i : nat) :
  (0 < r)%nat ->
  Forall (fun a => length (f a) = r) l ->
  List.flat_map f l !! i = l !! (i / r)%nat ≫= (fun a => f a !! (i mod r)%nat).
Proof.
  intros Hr Hall. revert i.
  induction Hall as [|a l Ha _ IH]; intros i.
  - simpl. rewrite !lookup_nil. reflexivity.
  - simpl. destruct (Nat.lt_ge_cases i r) as [Hlt|Hge].
    + rewrite lookup_app_l by lia.
      rewrite Nat.div_small, Nat.mod_small by lia. reflexivity.
    + rewrite lookup_app_r by lia. rewrite Ha, IH.
      destruct (div_mod_shift r i Hr Hge) as [-> ->]. reflexivity.
Qed.

Lemma length_flat_map_rect {A B : Type} (f : A -> list B) (l : list A)
    (r : nat) :
  Forall (fun a => length (f a) = r) l ->
  length (List.flat_map f l) = (length l * r)%nat.
Proof.
  induction 1 as [|a l Ha _ IH]; simpl; [reflexivity|].
  rewrite length_app, Ha, IH. reflexivity.
Qed.

Lemma nrows_melt (df : frame) (r : nat) :
  rect r df -> nrows (melt df) = (length (columns df) * r)%nat.
Proof.
  intros Hrect. unfold nrows, melt. cbn [columns].
  apply length_flat_map_rect.
  eapply Forall_impl; [exact Hrect|].
  intros lc Hlc. cbn beta. rewrite repeat_length. exact Hlc.
Qed.

Lemma lookup_map {A B : Type} (f : A -> B) (l : list A) (i : nat) :
  List.map f l !! i = f <$> l !! i.
Proof. exact (list_lookup_fmap f l i). Qed.

Lemma lookup_index (df : frame) (i : nat) :
  (i < nrows df)%nat -> index df !! i = Some (Z.of_nat i).
Proof.
  intros Hi. unfold index. rewrite lookup_map.
  rewrite lookup_seq_lt by exact Hi. reflexivity.
Qed.

(** What the preparation cell computes, in one expression. *)
Lemma prepare_unfold (df0 : frame) :
  QuasiBinomial.prepare df0 =
  blotch ← div_series 100
             (List.flat_map (fun lc : label * series => lc.2) (columns df0));
  Some (mk_frame
          [ (LStr "blotch", blotch);
            (LStr "site",
             List.map (fun i => CInt (QuasiBinomial.site_of_index i))
                      (index (melt df0)));
            (LStr "variety",
             List.map (fun i => CInt (QuasiBinomial.variety_of_index i))
                      (index (melt df0))) ]).
Proof.
  unfold QuasiBinomial.prepare.
  reflexivity.
Qed.

Lemma div_series_lookup (d : Z) (s : series) :
  Forall (fun c => is_numeric c = true) s ->
  exists out,
    div_series d s = Some out
    /\ length out = length s
    /\ forall i c, s !! i = Some c -> out !! i = div_cell d c.
Proof.
  unfold div_series. induction 1 as [|c s Hc _ (out & Hout & Hlen & Hlook)].
  - exists []. split; [reflexivity|]. split; [reflexivity|].
    intros i c Hi. rewrite lookup_nil in Hi. discriminate.
  - destruct (div_cell d c) as [c'|] eqn:Hdiv.
    2:{ destruct c; simpl in *; discriminate. }
    exists (c' :: out). split; [|split].
    + cbn. rewrite Hdiv. cbn. rewrite Hout. reflexivity.
    + simpl. rewrite Hlen. reflexivity.
    + intros [|i] x Hi; simpl in *.
      * injection Hi as <-. symmetry. exact Hdiv.
      * apply Hlook, Hi.
Qed.

Lemma site_of_index_div (i : Z) :
  QuasiBinomial.site_of_index i = (1 + i / 10)%Z.
Proof.
  unfold QuasiBinomial.site_of_index, Qfloor, Qdiv, Qmult, Qinv, inject_Z.
  cbn [Qnum Qden]. rewrite Z.mul_1_r. reflexivity.
Qed.

(** The preparation cell on any rectangular frame of numbers with [r] rows:
    the result has the columns [blotch], [site] and [variety], one row per
    cell of the input; row [i] holds the cell of input column [i / r] and
    input row [i mod r], divided by 100, and is labelled
    [site = 1 + i / 10], [variety = 1 + i mod 10]. *)
Lemma prepare_rows (df0 : frame) (r : nat) :
  (0 < r)%nat ->
  rect r df0 ->
  Forall (fun lc : label * series => Forall (fun c => is_numeric c = true) lc.2)
         (columns df0) ->
  exists blotch site variety,
    QuasiBinomial.prepare df0 =
      Some (mk_frame [ (LStr "blotch", blotch); (LStr "site", site);
                       (LStr "variety", variety) ])
    /\ length blotch = (length (columns df0) * r)%nat
    /\ length site = (length (columns df0) * r)%nat
    /\ length variety = (length (columns df0) * r)%nat
    /\ forall i : nat, (i < length (columns df0) * r)%nat ->
         site !! i = Some (CInt (1 + Z.of_nat i / 10))
         /\ variety !! i = Some (CInt (1 + Z.of_nat i mod 10))
         /\ forall c,
              (columns df0 !! (i / r)%nat ≫=
                 (fun lc : label * series => lc.2 !! (i mod r)%nat)) = Some c ->
              blotch !! i = div_cell 100 c.
Proof.
  intros Hr Hrect Hnum.
  set (vals := List.flat_map (fun lc : label * series => lc.2) (columns df0)).
  assert (Hvals : Forall (fun c => is_numeric c = true) vals).
  { subst vals. clear Hrect. induction Hnum as [|lc l Hlc _ IH]; simpl.
    - constructor.
    - apply Forall_app. split; assumption. }
  destruct (div_series_lookup 100 vals Hvals) as (blotch & Hdiv & Hlen & Hlook).
  exists blotch,
    (List.map (fun i => CInt (QuasiBinomial.site_of_index i)) (index (melt df0))),
    (List.map (fun i => CInt (QuasiBinomial.variety_of_index i)) (index (melt df0))).
  assert (Hn : nrows (melt df0) = (length (columns df0) * r)%nat)
    by (apply nrows_melt, Hrect).
  split; [|split; [|split; [|split]]].
  - rewrite prepare_unfold. fold vals. rewrite Hdiv. reflexivity.
  - rewrite Hlen. subst vals. apply length_flat_map_rect, Hrect.
  - rewrite length_map. unfold index. rewrite length_map, length_seq. exact Hn.
  - rewrite length_map. unfold index. rewrite length_map, length_seq. exact Hn.
  - intros i Hi. rewrite <- Hn in Hi. split; [|split].
    + rewrite lookup_map, (lookup_index _ _ Hi). cbn.
      rewrite site_of_index_div. reflexivity.
    + rewrite lookup_map, (lookup_index _ _ Hi). reflexivity.
    + intros c Hc. apply Hlook. subst vals.
      rewrite (lookup_flat_map_rect _ _ r) by assumption. exact Hc.
Qed.

End FrameLemmas.

(** ** Boolean checks over lists *)

Lemma forallb_Forall {A : Type} (f : A -> bool) (l : list A) :
  forallb f l = true -> Forall (fun x => f x = true) l.
Proof.
  induction l as [|x l IH]; simpl; intros H; constructor.
  - apply andb_true_iff in H. apply H.
  - apply IH. apply andb_true_iff in H. apply H.
Qed.

(** ** The barley blotch table *)
Section BlotchTable.
Import Frame QuasiBinomial.

Lemma raw_shape :
  length (Csv.lines raw) = 10%nat
  /\ Forall (fun l => length (Csv.split Csv.comma l) = 9%nat) (Csv.lines raw).
Proof.
  split; [reflexivity|].
  eapply Forall_impl.
  - apply (forallb_Forall (fun l => (length (Csv.split Csv.comma l) =? 9)%nat)).
    reflexivity.
  - intros l Hl. apply Nat.eqb_eq. exact Hl.
Qed.

Lemma raw_frame_rect : rect 10 (read_csv_noheader raw).
Proof.
  unfold rect. eapply Forall_impl.
  - apply (forallb_Forall (fun lc : label * series => (length lc.2 =? 10)%nat)).
    vm_compute. reflexivity.
  - intros lc Hlc. apply Nat.eqb_eq. exact Hlc.
Qed.

Lemma raw_frame_columns : length (columns (read_csv_noheader raw)) = 9%nat.
Proof. reflexivity. Qed.

(** Every field of the literal is a float between 0 and 100. *)
Lemma raw_frame_percentages :
  Forall (fun lc : label * series => Forall (fun c => is_percentage c = true) lc.2)
         (columns (read_csv_noheader raw)).
Proof.
  eapply Forall_impl.
  - apply (forallb_Forall (fun lc : label * series => forallb is_percentage lc.2)).
    vm_compute. reflexivity.
  - intros lc Hlc. apply forallb_Forall. exact Hlc.
Qed.

Lemma percentage_numeric (c : cell) : is_percentage c = true -> is_numeric c = true.
Proof. destruct c; simpl; congruence. Qed.

Lemma percentage_inv (c : cell) :
  is_percentage c = true -> exists q, c = CFloat q /\ (0 <= q <= 100)%Q.
Proof.
  destruct c as [z|q| |s]; simpl; try discriminate.
  intros H. apply andb_true_iff in H as [H0 H100].
  exists q. split; [reflexivity|].
  split; apply Qle_bool_iff; assumption.
Qed.

(** A percentage divided by 100 is a proportion. *)
Lemma proportion_of_percentage (q : Q) :
  (0 <= q <= 100 -> 0 <= q / inject_Z 100 <= 1)%Q.
Proof.
  intros [H0 H100]. split.
  - apply Qle_shift_div_l; [reflexivity|]. rewrite Qmult_0_l. exact H0.
  - apply Qle_shift_div_r; [reflexivity|]. rewrite Qmult_1_l. exact H100.
Qed.

(** The preparation cell on a frame of nine columns of ten percentages. *)
Lemma prepare_percentages (df0 : frame) :
  length (columns df0) = 9%nat ->
  rect 10 df0 ->
  Forall (fun lc : label * series => Forall (fun c => is_percentage c = true) lc.2)
         (columns df0) ->
  exists blotch site variety,
    prepare df0 = Some (mk_frame [ (LStr "blotch", blotch); (LStr "site", site);
                                   (LStr "variety", variety) ])
    /\ length blotch = 90%nat /\ length site = 90%nat
    /\ length variety = 90%nat
    /\ forall i : nat, (i < 90)%nat ->
         site !! i = Some (CInt (1 + Z.of_nat i / 10))
         /\ variety !! i = Some (CInt (1 + Z.of_nat i mod 10))
         /\ exists q,
              (columns df0 !! (i / 10)%nat ≫=
                 (fun lc : label * series => lc.2 !! (i mod 10)%nat))
                = Some (CFloat q)
              /\ (0 <= q <= 100)%Q
              /\ blotch !! i = Some (CFloat (q / inject_Z 100)).
Proof.
  intros Hcols Hrect Hpct.
  destruct (prepare_rows df0 10) as
    (blotch & site & variety & Hdf & Hb & Hs & Hv & Hrows).
  - lia.
  - exact Hrect.
  - eapply Forall_impl; [exact Hpct|].
    intros lc Hlc. eapply Forall_impl; [exact Hlc|].
    exact percentage_numeric.
  - rewrite Hcols in Hb, Hs, Hv, Hrows.
    exists blotch, site, variety.
    split; [exact Hdf|]. split; [exact Hb|]. split; [exact Hs|].
    split; [exact Hv|].
    intros i Hi. destruct (Hrows i) as (Hsi & Hvi & Hbi); [lia|].
    split; [exact Hsi|]. split; [exact Hvi|].
    assert (Hc : (i / 10 < length (columns df0))%nat).
    { rewrite Hcols. apply Nat.Div0.div_lt_upper_bound. lia. }
    apply lookup_lt_is_Some in Hc as [[l col] Hcol].
    unfold rect in Hrect.
    rewrite Forall_lookup in Hrect. rewrite Forall_lookup in Hpct.
    specialize (Hrect _ _ Hcol). specialize (Hpct _ _ Hcol).
    cbn [snd] in Hrect, Hpct.
    assert (Hr : (i mod 10 < length col)%nat).
    { rewrite Hrect. apply Nat.mod_upper_bound. lia. }
    apply lookup_lt_is_Some in Hr as [c Hc].
    rewrite Forall_lookup in Hpct. specialize (Hpct _ _ Hc).
    destruct (percentage_inv c Hpct) as (q & -> & Hq).
    assert (Hcell : (columns df0 !! (i / 10)%nat ≫=
                       (fun lc : label * series => lc.2 !! (i mod 10)%nat))
                    = Some (CFloat q)).
    { rewrite Hcol. exact Hc. }
    exists q. split; [exact Hcell|]. split; [exact Hq|].
    rewrite (Hbi _ Hcell). reflexivity.
Qed.

Lemma raw_value_unfold (r c : nat) :
  raw_value r c =
  columns (read_csv_noheader raw) !! c ≫=
    (fun lc : label * series => lc.2 !! r).
Proof.
  unfold raw_value.
  destruct (columns (read_csv_noheader raw) !! c) as [[l col]|]; reflexivity.
Qed.

(** The frame the preparation cell leaves in [df]. *)
Lemma df_rows :
  exists blotch site variety,
    df = Some (mk_frame [ (LStr "blotch", blotch); (LStr "site", site);
                          (LStr "variety", variety) ])
    /\ length blotch = 90%nat /\ length site = 90%nat
    /\ length variety = 90%nat
    /\ forall i : nat, (i < 90)%nat ->
         site !! i = Some (CInt (1 + Z.of_nat i / 10))
         /\ variety !! i = Some (CInt (1 + Z.of_nat i mod 10))
         /\ exists q, raw_value (i mod 10) (i / 10) = Some (CFloat q)
                      /\ (0 <= q <= 100)%Q
                      /\ blotch !! i = Some (CFloat (q / inject_Z 100)).
Proof.
  destruct (prepare_percentages (read_csv_noheader raw)
              raw_frame_columns raw_frame_rect raw_frame_percentages)
    as (blotch & site & variety & Hdf & Hb & Hs & Hv & Hrows).
  exists blotch, site, variety.
  split; [exact Hdf|]. split; [exact Hb|]. split; [exact Hs|].
  split; [exact Hv|].
  intros i Hi. destruct (Hrows i Hi) as (Hsi & Hvi & q & Hq & Hrange & Hbi).
  split; [exact Hsi|]. split; [exact Hvi|].
  exists q. rewrite raw_value_unfold. auto.
Qed.

(** Position [c] of line [r] of a table given by a function. *)
Lemma table_lookup {A : Type} (f : nat -> nat -> A) (m n r c : nat) :
  (r < m)%nat -> (c < n)%nat ->
  (List.map (fun r => List.map (f r) (seq 0 n)) (seq 0 m)) !! r
    ≫= (fun line => line !! c) = Some (f r c).
Proof.
  intros Hr Hc.
  change (List.map ?g ?l) with (g <$> l).
  rewrite list_lookup_fmap, lookup_seq_lt by exact Hr. cbn.
  change (List.map ?g ?l) with (g <$> l).
  rewrite list_lookup_fmap, lookup_seq_lt by exact Hc. reflexivity.
Qed.

(** What [read_csv] makes of the text is, field by field, the number written
    there. *)
Lemma raw_values_are_the_numbers :
  List.map (fun r => List.map (raw_value r) (seq 0 9)) (seq 0 10)
  = List.map (List.map (fun q => Some (CFloat q))) percentages.
Proof. vm_compute. reflexivity. Qed.

Lemma raw_value_number (r c : nat) :
  (r < 10)%nat -> (c < 9)%nat ->
  exists q, number_at r c = Some q /\ raw_value r c = Some (CFloat q).
Proof.
  intros Hr Hc.
  pose proof (table_lookup raw_value 10 9 r c Hr Hc) as H.
  rewrite raw_values_are_the_numbers in H.
  change (List.map ?g ?l) with (g <$> l) in H.
  rewrite list_lookup_fmap in H.
  unfold number_at.
  destruct (percentages !! r) as [line|]; [|discriminate].
  cbn in H |- *.
  change (List.map ?g ?l) with (g <$> l) in H.
  rewrite list_lookup_fmap in H.
  destruct (line !! c) as [q|]; [|discriminate].
  cbn in H. exists q. split; [reflexivity|]. congruence.
Qed.

(** C4: the data-loading step of the quasi-binomial notebook parses the
    inline literal of 10 lines of 9 percentages into a table of exactly 90
    observations; the blotch value of observation [i] is the number written
    in line [i mod 10], field [i / 10] of the literal ([number_at], the table
    of the numbers as numbers, which is also what the reader makes of the
    text there, [raw_value]), divided by 100; every number of the literal
    lies in [0, 100] and so every blotch proportion lies in [0, 1]. *)
Theorem blotch_is_raw_percentage_over_100 :
  length (Csv.lines raw) = 10%nat
  /\ Forall (fun l => length (Csv.split Csv.comma l) = 9%nat) (Csv.lines raw)
  /\ length percentages = 10%nat
  /\ Forall (fun line : list Q => length line = 9%nat) percentages
  /\ exists out blotch,
       df = Some out
       /\ nrows out = 90%nat
       /\ get_column (LStr "blotch") out = Some blotch
       /\ length blotch = 90%nat
       /\ forall i : nat, (i < 90)%nat ->
            exists q,
              number_at (i mod 10) (i / 10) = Some q
              /\ raw_value (i mod 10) (i / 10) = Some (CFloat q)
              /\ blotch !! i = Some (CFloat (q / inject_Z 100))
              /\ (0 <= q <= 100)%Q
              /\ (0 <= q / inject_Z 100 <= 1)%Q.
Proof.
  destruct raw_shape as [Hlines Hfields].
  split; [exact Hlines|]. split; [exact Hfields|].
  split; [reflexivity|].
  split; [repeat constructor|].
  destruct df_rows as (blotch & site & variety & Hdf & Hb & _ & _ & Hrows).
  eexists _, blotch. split; [exact Hdf|].
  split; [exact Hb|]. split; [reflexivity|]. split; [exact Hb|].
  intros i Hi. destruct (Hrows i Hi) as (_ & _ & q & Hq & Hrange & Hbi).
  destruct (raw_value_number (i mod 10) (i / 10)) as (p & Hp & Hraw).
  { apply Nat.mod_upper_bound. lia. }
  { apply Nat.Div0.div_lt_upper_bound. lia. }
  assert (p = q) as -> by congruence.
  exists q. split; [exact Hp|]. split; [exact Hq|]. split; [exact Hbi|].
  split; [exact Hrange|].
  apply proportion_of_percentage, Hrange.
Qed.

(** *** Site and variety labels *)

Lemma label_of_row (i : nat) (s v : Z) :
  s = (1 + Z.of_nat i / 10)%Z -> v = (1 + Z.of_nat i mod 10)%Z ->
  Z.to_nat (v - 1) = (i mod 10)%nat /\ Z.to_nat (s - 1) = (i / 10)%nat.
Proof.
  intros -> ->. split.
  - replace (1 + Z.of_nat i mod 10 - 1)%Z with (Z.of_nat i mod 10)%Z by lia.
    change 10%Z with (Z.of_nat 10). rewrite <- Nat2Z.inj_mod. apply Nat2Z.id.
  - replace (1 + Z.of_nat i / 10 - 1)%Z with (Z.of_nat i / 10)%Z by lia.
    change 10%Z with (Z.of_nat 10). rewrite <- Nat2Z.inj_div. apply Nat2Z.id.
Qed.

Lemma row_of_labels (s v : Z) :
  (1 <= s <= 9)%Z -> (1 <= v <= 10)%Z ->
  let i := Z.to_nat (10 * (s - 1) + (v - 1)) in
  (i < 90)%nat /\ (1 + Z.of_nat i / 10 = s)%Z /\ (1 + Z.of_nat i mod 10 = v)%Z.
Proof.
  intros Hs Hv i. subst i. rewrite Z2Nat.id by lia.
  split; [lia|]. split; Z.div_mod_to_equations; lia.
Qed.

Lemma labels_determine_row (i j : nat) :
  (Z.of_nat i / 10 = Z.of_nat j / 10)%Z ->
  (Z.of_nat i mod 10 = Z.of_nat j mod 10)%Z -> i = j.
Proof. intros Hd Hm. Z.div_mod_to_equations. lia. Qed.

(** C5: in the melted 90-row table, row [i] is assigned
    [site = 1 + floor(i / 10)] and [variety = 1 + (i mod 10)].  The column
    labelled [site] takes exactly the values 1..9, and [site - 1] is the
    column (field position) of the raw 10 x 9 layout the row's blotch value
    comes from; the column labelled [variety] takes exactly the values 1..10,
    and [variety - 1] is the row (line) of the raw layout; each
    (site, variety) pair occurs in exactly one row. *)
Theorem site_indexes_columns_variety_indexes_rows :
  exists out blotch site variety,
    df = Some out
    /\ nrows out = 90%nat
    /\ get_column (LStr "blotch") out = Some blotch
    /\ get_column (LStr "site") out = Some site
    /\ get_column (LStr "variety") out = Some variety
    /\ (forall i : nat, (i < 90)%nat ->
          site !! i = Some (CInt (1 + Z.of_nat i / 10))
          /\ variety !! i = Some (CInt (1 + Z.of_nat i mod 10)))
    /\ (forall c, c ∈ site <-> exists z, c = CInt z /\ (1 <= z <= 9)%Z)
    /\ (forall c, c ∈ variety <-> exists z, c = CInt z /\ (1 <= z <= 10)%Z)
    /\ (forall (i : nat) (s v : Z),
          site !! i = Some (CInt s) -> variety !! i = Some (CInt v) ->
          exists q,
            raw_value (Z.to_nat (v - 1)) (Z.to_nat (s - 1)) = Some (CFloat q)
            /\ blotch !! i = Some (CFloat (q / inject_Z 100)))
    /\ (forall s v : Z, (1 <= s <= 9)%Z -> (1 <= v <= 10)%Z ->
          exists i : nat,
            (site !! i = Some (CInt s) /\ variety !! i = Some (CInt v))
            /\ forall j : nat,
                 site !! j = Some (CInt s) /\ variety !! j = Some (CInt v) ->
                 j = i).
Proof.
  destruct df_rows as (blotch & site & variety & Hdf & Hb & Hs & Hv & Hrows).
  exists (mk_frame [ (LStr "blotch", blotch); (LStr "site", site);
                     (LStr "variety", variety) ]), blotch, site, variety.
  split; [exact Hdf|]. split; [exact Hb|].
  split; [reflexivity|]. split; [reflexivity|]. split; [reflexivity|].
  assert (Hsite : forall i s, site !! i = Some (CInt s) ->
                    (i < 90)%nat /\ s = (1 + Z.of_nat i / 10)%Z).
  { intros i s Hi. assert (Hlt : (i < 90)%nat).
    { rewrite <- Hs. eapply lookup_lt_Some, Hi. }
    split; [exact Hlt|]. destruct (Hrows i Hlt) as (Hsi & _).
    rewrite Hsi in Hi. congruence. }
  assert (Hvar : forall i v, variety !! i = Some (CInt v) ->
                   (i < 90)%nat /\ v = (1 + Z.of_nat i mod 10)%Z).
  { intros i v Hi. assert (Hlt : (i < 90)%nat).
    { rewrite <- Hv. eapply lookup_lt_Some, Hi. }
    split; [exact Hlt|]. destruct (Hrows i Hlt) as (_ & Hvi & _).
    rewrite Hvi in Hi. congruence. }
  split; [|split; [|split; [|split]]].
  - intros i Hi. destruct (Hrows i Hi) as (Hsi & Hvi & _). auto.
  - intros c. rewrite list_elem_of_lookup. split.
    + intros [i Hi]. assert (Hlt : (i < 90)%nat).
      { rewrite <- Hs. eapply lookup_lt_Some, Hi. }
      destruct (Hrows i Hlt) as (Hsi & _). rewrite Hsi in Hi.
      injection Hi as <-. eexists. split; [reflexivity|].
      Z.div_mod_to_equations. lia.
    + intros (z & -> & Hz).
      destruct (row_of_labels z 1) as (Hlt & Hdiv & _); [lia..|].
      eexists. destruct (Hrows _ Hlt) as (Hsi & _).
      rewrite Hsi, Hdiv. reflexivity.
  - intros c. rewrite list_elem_of_lookup. split.
    + intros [i Hi]. assert (Hlt : (i < 90)%nat).
      { rewrite <- Hv. eapply lookup_lt_Some, Hi. }
      destruct (Hrows i Hlt) as (_ & Hvi & _). rewrite Hvi in Hi.
      injection Hi as <-. eexists. split; [reflexivity|].
      Z.div_mod_to_equations. lia.
    + intros (z & -> & Hz).
      destruct (row_of_labels 1 z) as (Hlt & _ & Hmod); [lia..|].
      eexists. destruct (Hrows _ Hlt) as (_ & Hvi & _).
      rewrite Hvi, Hmod. reflexivity.
  - intros i s v Hsi Hvi.
    destruct (Hsite i s Hsi) as [Hlt Hs_eq].
    destruct (Hvar i v Hvi) as [_ Hv_eq].
    destruct (label_of_row i s v Hs_eq Hv_eq) as [-> ->].
    destruct (Hrows i Hlt) as (_ & _ & q & Hq & _ & Hbi).
    exists q. auto.
  - intros s v Hsr Hvr.
    destruct (row_of_labels s v Hsr Hvr) as (Hlt & Hdiv & Hmod).
    exists (Z.to_nat (10 * (s - 1) + (v - 1))). split.
    + destruct (Hrows _ Hlt) as (Hsi & Hvi & _).
      rewrite Hsi, Hvi, Hdiv, Hmod. auto.
    + intros j [Hsj Hvj].
      destruct (Hsite j s Hsj) as [_ Hs_eq].
      destruct (Hvar j v Hvj) as [_ Hv_eq].
      apply labels_determine_row; lia.
Qed.

End BlotchTable.

(** ** Arrays: row-major layout *)
Section ArrayLayout.
Import NdArray.

(** Position [i * n + j] of [m] blocks of length [n] is element [j] of
    block [i]. *)
Lemma lookup_blocks {B : Type} (g : nat -> list B) (m n i j : nat) :
  (forall x, length (g x) = n) ->
  (i < m)%nat -> (j < n)%nat ->
  List.flat_map g (seq 0 m) !! (i * n + j)%nat = g i !! j.
Proof.
  intros Hlen Hi Hj.
  rewrite (lookup_flat_map_rect g (seq 0 m) n) by
    (try lia; apply Forall_forall; intros x _; apply Hlen).
  rewrite Nat.div_add_l by lia. rewrite (Nat.div_small j n) by lia.
  rewrite Nat.add_0_r.
  rewrite Nat.add_comm, Nat.Div0.mod_add, Nat.mod_small by lia.
  rewrite lookup_seq_lt by lia. reflexivity.
Qed.

Lemma length_blocks {B : Type} (g : nat -> list B) (m n : nat) :
  (forall x, length (g x) = n) ->
  length (List.flat_map g (seq 0 m)) = (m * n)%nat.
Proof.
  intros Hlen.
  rewrite (length_flat_map_rect g (seq 0 m) n)
    by (apply Forall_forall; intros x _; apply Hlen).
  rewrite length_seq. reflexivity.
Qed.

Lemma lookup_tabulate {B : Type} (f : nat -> B) (n j : nat) :
  (j < n)%nat -> List.map f (seq 0 n) !! j = Some (f j).
Proof.
  intros Hj. rewrite lookup_map, lookup_seq_lt by lia. reflexivity.
Qed.

Lemma nth_of_lookup (l : list Z) (i : nat) (x : Z) :
  l !! i = Some x -> nth i l 0%Z = x.
Proof. intros H. rewrite nth_lookup, H. reflexivity. Qed.


(** [column_stack]: element [k, j] is element [k] of column [j]. *)
Lemma column_stack_get2 (cols : list (list Z)) (K : nat) :
  cols <> [] ->
  Forall (fun c => length c = K) cols ->
  exists a, column_stack cols = Some a
            /\ shape a = [K; length cols]
            /\ well_formed a
            /\ forall k j c x, (k < K)%nat ->
                 cols !! j = Some c -> c !! k = Some x ->
                 get2 a k j = Some x.
Proof.
  intros Hne Hall. destruct cols as [|c0 cols']; [congruence|].
  assert (Hc0 : length c0 = K) by (inversion Hall; assumption).
  unfold column_stack. rewrite Hc0.
  set (cols := c0 :: cols') in *.
  assert (Hchk : forallb (fun c => (length c =? K)%nat) cols = true).
  { apply forallb_forall. intros c Hc. apply Nat.eqb_eq.
    rewrite Forall_forall in Hall. apply Hall.
    apply list_elem_of_In. exact Hc. }
  rewrite Hchk. eexists. split; [reflexivity|]. split; [reflexivity|].
  assert (Hlen : forall k : nat,
            length (List.map (fun c : list Z => nth k c 0%Z) cols) = length cols)
    by (intros k; apply length_map).
  split.
  - unfold well_formed. cbn [data shape size_of fold_right].
    rewrite (length_blocks _ K (length cols)) by exact Hlen. lia.
  - intros k j c x Hk Hj Hx. unfold get2. cbn [shape data].
    assert (Hjlt : (j < length cols)%nat) by (eapply lookup_lt_Some, Hj).
    replace ((k <? K)%nat) with true by (symmetry; apply Nat.ltb_lt; lia).
    replace ((j <? length cols)%nat) with true
      by (symmetry; apply Nat.ltb_lt; lia).
    cbn [andb].
    rewrite (lookup_blocks _ K (length cols)) by (try lia; exact Hlen).
    rewrite lookup_map, Hj. cbn. f_equal. apply nth_of_lookup, Hx.
Qed.

(** [a.T[j, i] = a[i, j]] *)
Lemma transpose_get2 (a : ndarray) (m n : nat) :
  shape a = [m; n] -> well_formed a ->
  exists b, transpose a = Some b
            /\ shape b = [n; m]
            /\ well_formed b
            /\ forall i j, (i < m)%nat -> (j < n)%nat ->
                 get2 b j i = get2 a i j.
Proof.
  intros Hsh Hwf. unfold transpose. rewrite Hsh.
  eexists. split; [reflexivity|]. split; [reflexivity|].
  assert (Hlen : forall j : nat,
            length (List.map (fun i : nat => nth (i * n + j) (data a) 0%Z)
                             (seq 0 m)) = m)
    by (intros j; rewrite length_map, length_seq; reflexivity).
  split.
  - unfold well_formed. cbn [data shape size_of fold_right].
    rewrite (length_blocks _ n m) by exact Hlen. lia.
  - intros i j Hi Hj. unfold get2. cbn [shape data]. rewrite Hsh.
    replace ((i <? m)%nat) with true by (symmetry; apply Nat.ltb_lt; lia).
    replace ((j <? n)%nat) with true by (symmetry; apply Nat.ltb_lt; lia).
    cbn [andb].
    rewrite (lookup_blocks _ n m) by (try lia; exact Hlen).
    rewrite lookup_tabulate by lia.
    unfold well_formed in Hwf. rewrite Hsh in Hwf.
    cbn [size_of fold_right] in Hwf.
    assert (Hin : (i * n + j < length (data a))%nat) by nia.
    apply lookup_lt_is_Some in Hin as [x Hx].
    rewrite Hx. f_equal. apply nth_of_lookup, Hx.
Qed.

(** [a.reshape(2, 2, -1)] of a 4 x K array: element [x, y, k] is element
    [2 x + y, k] of [a]. *)
Lemma reshape_2_2_get3 (a : ndarray) (K : nat) :
  shape a = [4%nat; K] -> well_formed a ->
  exists b, reshape [2; 2; -1]%Z a = Some b
            /\ shape b = [2%nat; 2%nat; K]
            /\ data b = data a
            /\ forall x y k, (x < 2)%nat -> (y < 2)%nat -> (k < K)%nat ->
                 get3 b x y k = get2 a (x * 2 + y) k.
Proof.
  intros Hsh Hwf. unfold well_formed in Hwf. rewrite Hsh in Hwf.
  cbn [size_of fold_right] in Hwf.
  unfold reshape.
  change (known_size [2; 2; -1]%Z) with 4%Z.
  change (List.filter (fun d => d <? 0)%Z [2; 2; -1]%Z) with [(-1)%Z].
  rewrite Hwf.
  replace (Z.of_nat (4 * (K * 1))) with (Z.of_nat K * 4)%Z by lia.
  rewrite Z.mod_mul by lia. rewrite Z.div_mul by lia.
  cbn [Z.ltb Z.compare andb Z.eqb List.map]. rewrite Nat2Z.id.
  eexists. split; [reflexivity|]. split; [reflexivity|].
  split; [reflexivity|].
  intros x y k Hx Hy Hk. unfold get3, get2. cbn [shape data]. rewrite Hsh.
  change (Z.to_nat 2) with 2%nat.
  replace ((x <? 2)%nat) with true by (symmetry; apply Nat.ltb_lt; lia).
  replace ((y <? 2)%nat) with true by (symmetry; apply Nat.ltb_lt; lia).
  replace ((k <? K)%nat) with true by (symmetry; apply Nat.ltb_lt; lia).
  replace ((x * 2 + y <? 4)%nat) with true by (symmetry; apply Nat.ltb_lt; lia).
  reflexivity.
Qed.



End ArrayLayout.

(** ** The contingency tables of the meta-analysis notebook *)
Section ContingencyTables.
Import NdArray MetaAnalysis.
Local Open Scope Z_scope.

(** The vectors the notebook unpacks are the rows of [dta_c]: the columns
    [e2i], [nei], [c2i], [nci] of the inline data, with the two counts the
    notebook overwrites. *)
Lemma notebook_vectors :
  dta_c ≫= unpack4 = Some (t, nt, c, nc).
Proof. vm_compute. reflexivity. Qed.



End ContingencyTables.

(** ** What the notebooks' own functions compute *)
Section OwnFunctions.
Import Py Analysis Notebooks.

Lemma defined_function_names :
  List.map (fun nb => List.map (fun fd => (fd_name fd, performs_arithmetic fd))
                               (defined_functions nb))
           Notebooks.all
  = [ [("vf.__call__", true); ("vf.deriv", true)];
      [("fit_model", false); ("get_y", true)];
      [] ].
Proof. vm_compute. reflexivity. Qed.

(** The bodies of the two methods, as syntax, denote the functions
    [vf.__call__] and [vf.deriv] on every number type. *)
Lemma vf_bodies_denote (A : Type) `{PyNum A} (mu : A) :
  aeval (bind1 "mu" mu) vf_call_body = Some (vf.__call__ mu)
  /\ aeval (bind1 "mu" mu) vf_deriv_body = Some (vf.deriv mu).
Proof. split; reflexivity. Qed.

Lemma get_y_body_denotes (A : Type) `{PyNum A} (a b x : A) :
  aeval (get_y_env a b x) get_y_body = Some (py_add a (py_mul b x)).
Proof. reflexivity. Qed.

(** The method [vf.__call__] exists, its body is arithmetic, and on the
    rationals it computes the formula [mu^2 (1 - mu)^2]: the notebooks do
    define a function that computes numerically on its own. *)
Lemma vf_call_computes_a_formula :
  (exists fd,
     In fd (defined_functions quasibinomial)
     /\ fd_name fd = "vf.__call__"
     /\ fd_body fd = [SReturn vf_call_body]
     /\ arithmetic_of (fd_body fd)
        = [ vf_call_body;
            EBinOp Pow (EName "mu") (EInt 2);
            EBinOp Pow (EBinOp Sub (EInt 1) (EName "mu")) (EInt 2);
            EBinOp Sub (EInt 1) (EName "mu") ]
     /\ performs_arithmetic fd = true
     /\ forall mu : Q,
          aeval (bind1 "mu" mu) vf_call_body = Some (mu ^ 2 * (1 - mu) ^ 2)%Q)
  /\ ~ (forall nb fd,
          In nb Notebooks.all -> In fd (defined_functions nb) ->
          performs_arithmetic fd = false).
Proof.
  split.
  - exists {| fd_name := "vf.__call__"; fd_params := ["self"; "mu"];
              fd_body := [SReturn vf_call_body] |}.
    split; [left; reflexivity|]. repeat (split; [reflexivity|]).
    intros mu. reflexivity.
  - intros Hall.
    specialize (Hall quasibinomial
                  {| fd_name := "vf.__call__"; fd_params := ["self"; "mu"];
                     fd_body := [SReturn vf_call_body] |}).
    assert (Hfalse : true = false).
    { apply Hall; [left; reflexivity | left; reflexivity]. }
    discriminate Hfalse.
Qed.

End OwnFunctions.

(** ** Model fitting is done by statsmodels *)
Section Delegation.
Import Py Analysis Notebooks.

(** The distinct callees of the fitting operations, per notebook, as the
    paths they are reached by from the imports. *)
Lemma fitting_callees :
  List.map (fun nb => remove_dups
                        (omap (fun c => library_path (cs_origin c))
                              (fitting_calls nb)))
           Notebooks.all
  = [ [ "statsmodels.api.GLM.from_formula().fit" ];
      [ "statsmodels.formula.api.quantreg().fit";
        "statsmodels.formula.api.ols().fit" ];
      [ "statsmodels.stats.meta_analysis.combine_effects";
        "statsmodels.genmod.generalized_linear_model.GLM().fit";
        "statsmodels.stats.api.StratifiedTable" ] ].
Proof. vm_compute. reflexivity. Qed.

Lemma fitting_calls_checked :
  forallb (fun nb => forallb (fun c => from_statsmodels (cs_origin c)
                                       && arguments_bound c)
                             (fitting_calls nb))
          Notebooks.all = true.
Proof. vm_compute. reflexivity. Qed.

Lemma from_statsmodels_path (o : origin) :
  from_statsmodels o = true ->
  exists p, o = OLibrary p /\ String.prefix "statsmodels." p = true.
Proof.
  destruct o as [p| | | | | |]; simpl; try discriminate.
  intros Hp. exists p. split; [reflexivity | exact Hp].
Qed.

Lemma forallb_In {A : Type} (f : A -> bool) (l : list A) (x : A) :
  forallb f l = true -> In x l -> f x = true.
Proof. intros Hall Hx. rewrite forallb_forall in Hall. apply Hall, Hx. Qed.

(** C2: every statistical model-fitting operation the notebooks invoke (a
    [.fit(...)] of a GLM, quantile-regression or OLS model,
    [combine_effects(...)], [StratifiedTable(...)]) is a call of an object
    reached from an import of the statsmodels library, applied to values the
    notebook has bound; the notebooks define no function under a fitting
    name, and the one function of a notebook that fits, [fit_model], only
    calls [mod.fit] and other library operations and performs no arithmetic
    of its own. *)
Theorem fitting_is_delegated_to_statsmodels :
  (forall nb c,
     In nb Notebooks.all -> In c (fitting_calls nb) ->
     (exists p, cs_origin c = OLibrary p
                /\ String.prefix "statsmodels." p = true)
     /\ arguments_bound c = true)
  /\ List.map (fun nb => remove_dups
                           (omap (fun c => library_path (cs_origin c))
                                 (fitting_calls nb)))
              Notebooks.all
     = [ [ "statsmodels.api.GLM.from_formula().fit" ];
         [ "statsmodels.formula.api.quantreg().fit";
           "statsmodels.formula.api.ols().fit" ];
         [ "statsmodels.stats.meta_analysis.combine_effects";
           "statsmodels.genmod.generalized_linear_model.GLM().fit";
           "statsmodels.stats.api.StratifiedTable" ] ]
  /\ List.map (fun nb => length (fitting_calls nb)) Notebooks.all
     = [2; 3; 12]%nat
  /\ (forall nb fd,
        In nb Notebooks.all -> In fd (defined_functions nb) ->
        mem (fd_name fd) fitting_names = false)
  /\ (exists fd,
        statements quantile_regression !! 13%nat
          = Some (SDef (fd_name fd) (fd_params fd) (fd_body fd))
        /\ In fd (defined_functions quantile_regression)
        /\ fd_name fd = "fit_model"
        /\ performs_arithmetic fd = false
        /\ List.map (fun c => cs_origin c)
                    (calls_in_body (env_before quantile_regression 13) fd)
           = [ OLibrary "statsmodels.formula.api.quantreg().fit";
               OLibrary "statsmodels.formula.api.quantreg().fit().conf_int";
               OLibrary
                 "statsmodels.formula.api.quantreg().fit().conf_int().ix[].tolist" ]).
Proof.
  split.
  { intros nb c Hnb Hc.
    pose proof fitting_calls_checked as Hall.
    pose proof (forallb_In _ _ nb Hall Hnb) as Hnbc. cbn beta in Hnbc.
    pose proof (forallb_In _ _ c Hnbc Hc) as Hcc. cbn beta in Hcc.
    apply andb_true_iff in Hcc as [Hlib Hargs].
    split; [apply from_statsmodels_path, Hlib | exact Hargs]. }
  split; [exact fitting_callees|].
  split; [vm_compute; reflexivity|].
  split.
  { intros nb fd Hnb Hfd. each_notebook Hnb; vm_compute in Hfd;
      repeat (destruct Hfd as [<- | Hfd]); try destruct Hfd; reflexivity. }
  exists {| fd_name := "fit_model"; fd_params := ["q"];
            fd_body := fit_model_body |}.
  split; [reflexivity|].
  split; [left; reflexivity|]. repeat (split; [reflexivity|]).
  vm_compute. reflexivity.
Qed.

End Delegation.

(** ** The notebooks are scripts over the library *)
Section ScriptStyle.
Import Py Analysis Notebooks.

(** C1, amended: the notebooks define four functions.  [fit_model] performs
    no arithmetic of its own: its calls are the library's [mod.fit],
    [conf_int] and [tolist], and it concatenates two lists.  The two methods
    of the variance function class [vf] and the lambda [get_y] each return
    one arithmetic expression: [mu^2 (1 - mu)^2], [2 mu - 6 mu^2 + 4 mu^3]
    and [a + b x].  No function of the notebooks contains a loop, and every
    lambda is one of the functions listed.  Outside these functions the
    notebooks are scripts: the only loop is the plotting loop of the
    quantile regression notebook, which calls [get_y] and [ax.plot] once per
    fitted model; the only comprehensions are [[fit_model(x) for x in
    quantiles]] and [[i[0] for i in data]]; the arithmetic written there is
    the element-wise operations listed, on arrays and columns of the
    libraries, and the one in-place division [df["blotch"] /= 100]; and
    every model fit is a call of an object reached from an import of
    statsmodels. *)
Theorem only_closed_formulas_in_notebook_functions :
  List.map (fun nb => List.map (fun fd => (fd_name fd, performs_arithmetic fd))
                               (defined_functions nb))
           Notebooks.all
  = [ [("vf.__call__", true); ("vf.deriv", true)];
      [("fit_model", false); ("get_y", true)];
      [] ]
  /\ (forall nb fd,
        In nb Notebooks.all -> In fd (defined_functions nb) ->
        (performs_arithmetic fd = false /\ fd_name fd = "fit_model")
        \/ fd_body fd = [SReturn vf_call_body]
        \/ fd_body fd = [SReturn vf_deriv_body]
        \/ fd_body fd = [SReturn get_y_body])
  /\ (forall (A : Type) (num : PyNum A) (mu : A),
        aeval (bind1 "mu" mu) vf_call_body = Some (vf.__call__ mu)
        /\ aeval (bind1 "mu" mu) vf_deriv_body = Some (vf.deriv mu))
  /\ (forall (A : Type) (num : PyNum A) (a b x : A),
        aeval (get_y_env a b x) get_y_body = Some (py_add a (py_mul b x)))
  /\ (forall nb fd,
        In nb Notebooks.all -> In fd (defined_functions nb) ->
        forallb (fun s => negb (is_loop s)) (all_stmts (fd_body fd)) = true)
  /\ (forall nb,
        In nb Notebooks.all ->
        List.filter is_lambda (all_exprs (statements nb))
        = List.flat_map (fun fd => match fd_body fd with
                                   | [SReturn e] =>
                                       if String.eqb (fd_name fd) "get_y"
                                       then [ELambda (fd_params fd) e] else []
                                   | _ => []
                                   end) (defined_functions nb))
  /\ (exists fd,
        In fd (defined_functions quantile_regression)
        /\ fd_name fd = "fit_model"
        /\ fd_body fd = fit_model_body
        /\ statements quantile_regression !! 13%nat
           = Some (SDef "fit_model" (fd_params fd) (fd_body fd))
        /\ List.map (fun c => cs_origin c)
                    (calls_in_body (env_before quantile_regression 13) fd)
           = [ OLibrary "statsmodels.formula.api.quantreg().fit";
               OLibrary "statsmodels.formula.api.quantreg().fit().conf_int";
               OLibrary
                 "statsmodels.formula.api.quantreg().fit().conf_int().ix[].tolist" ]
        /\ List.filter (fun e => match e with EBinOp _ _ _ => true | _ => false end)
                       (all_exprs (fd_body fd))
           = [ EBinOp Add
                 (EList [ EName "q";
                          ESubscript (EAttr (EName "res") "params") (EStr "Intercept");
                          ESubscript (EAttr (EName "res") "params") (EStr "income") ])
                 (income_row (ECall (EAttr (EName "res") "conf_int") [] [])) ])
  /\ List.map (fun nb => List.filter is_loop (script nb)) Notebooks.all
     = [ [];
         [ SFor "i"
             (ECall (EName "range")
                [ESubscript (EAttr (EName "models") "shape") (EInt 0)] [])
             [ SAssign (EName "y")
                 (ECall (EName "get_y")
                    [ ESubscript (EAttr (EName "models") "a") (EName "i");
                      ESubscript (EAttr (EName "models") "b") (EName "i") ] []);
               SExpr (ECall (EAttr (EName "ax") "plot") [EName "x"; EName "y"]
                        [("linestyle", EStr "dotted"); ("color", EStr "grey")]) ] ];
         [] ]
  /\ List.map (fun nb => List.filter is_comprehension (script_exprs nb))
              Notebooks.all
     = [ [];
         [ EListComp (ECall (EName "fit_model") [EName "x"] []) "x"
             (EName "quantiles") ];
         [ EListComp (ESubscript (EName "i") (EInt 0)) "i" (EName "data") ] ]
  /\ List.map (fun nb => List.filter is_arithmetic (script_exprs nb))
              Notebooks.all
     = [ [ EBinOp Add (EInt 1)
             (ECall
                (EAttr (ECall (EAttr (EName "np") "floor")
                          [EBinOp Div (EAttr (EName "df") "index") (EInt 10)] [])
                       "astype")
                [EName "int"] []);
           EBinOp Div (EAttr (EName "df") "index") (EInt 10);
           EBinOp Add (EInt 1) (EBinOp Mod (EAttr (EName "df") "index") (EInt 10));
           EBinOp Mod (EAttr (EName "df") "index") (EInt 10) ];
         [];
         [ EBinOp Add (EName "nobs1") (EName "nobs2");
           EBinOp Add (EName "nobs1") (EName "nobs2");
           EBinOp Add (EName "nobs1") (EName "nobs2");
           ENeg (EInt 4);
           EBinOp Div (EInt 1) (EName "var_eff");
           EBinOp Sub (ECall (EAttr (EName "res_glm") "conf_int") [] [])
             (EAttr (ESubscript (EAttr (EName "res_frame") "loc")
                       (ETuple [ EStr "fixed effect";
                                 EList [EStr "ci_low"; EStr "ci_upp"] ]))
                    "values");
           EBinOp Sub (ECall (EAttr (EName "res_glm") "conf_int") [] [])
             (EAttr (ESubscript (EAttr (EName "res_frame") "loc")
                       (ETuple [ EStr "fixed effect";
                                 EList [EStr "ci_low"; EStr "ci_upp"] ]))
                    "values");
           EBinOp Sub (EName "nt") (EName "t");
           EBinOp Sub (EName "nc") (EName "c");
           ENeg (EInt 1);
           EBinOp Sub (EAttr (EName "st") "logodds_pooled")
             (EFloat "0.4428186730553189");
           EBinOp Sub (EAttr (EName "st") "logodds_pooled_se")
             (EFloat "0.08928560091027186") ] ]
  /\ List.map (fun nb => List.filter is_aug_assign (script nb)) Notebooks.all
     = [ [SAugAssign (ESubscript (EName "df") (EStr "blotch")) Div (EInt 100)];
         []; [] ]
  /\ (forall nb c,
        In nb Notebooks.all -> In c (fitting_calls nb) ->
        exists p, cs_origin c = OLibrary p
                  /\ String.prefix "statsmodels." p = true)
  /\ List.map (fun nb => length (fitting_calls nb)) Notebooks.all
     = [2; 3; 12]%nat.
Proof.
  split; [exact defined_function_names|].
  split.
  { intros nb fd Hnb Hfd. each_notebook Hnb; each_member Hfd.
    - right; left; reflexivity.
    - right; right; left; reflexivity.
    - left; split; reflexivity.
    - right; right; right; reflexivity. }
  split; [intros A num mu; apply vf_bodies_denote|].
  split; [intros A num a b x; apply get_y_body_denotes|].
  split.
  { intros nb fd Hnb Hfd. each_notebook Hnb; each_member Hfd; reflexivity. }
  split.
  { intros nb Hnb. each_notebook Hnb; vm_compute; reflexivity. }
  split.
  { exists {| fd_name := "fit_model"; fd_params := ["q"];
              fd_body := fit_model_body |}.
    split; [left; reflexivity|]. repeat split; vm_compute; reflexivity. }
  split; [vm_compute; reflexivity|].
  split; [vm_compute; reflexivity|].
  split; [vm_compute; reflexivity|].
  split; [vm_compute; reflexivity|].
  split; [|vm_compute; reflexivity].
  intros nb c Hnb Hc.
  pose proof fitting_calls_checked as Hall.
  pose proof (forallb_In _ _ nb Hall Hnb) as Hnbc. cbn beta in Hnbc.
  pose proof (forallb_In _ _ c Hnbc Hc) as Hcc. cbn beta in Hcc.
  apply andb_true_iff in Hcc as [Hlib _].
  apply from_statsmodels_path, Hlib.
Qed.

End ScriptStyle.

(** ** Input is inline or from the library *)
Section Boundaries.
Import Py Analysis Notebooks.








(** A reader of a file or of a URL is refused, whatever it is called: the
    quasi-binomial notebook with [pd.read_table("http://...")] in the place
    of [df] as the data of the first model. *)
Example other_readers_are_refused :
  let read_table :=
    ECall (EAttr (EName "pd") "read_table") [EStr "http://example.org/blotch"] [] in
  let nb :=
    {| nb_name := "reads a URL";
       nb_cells :=
         [ Code [ SImport "pandas" (Some "pd");
                  SImport "statsmodels.api" (Some "sm");
                  SAssign (EName "model1")
                    (ECall (EAttr (EAttr (EName "sm") "GLM") "from_formula")
                       [glm_formula] [("data", read_table)]) ] ] |} in
  self_contained nb = false
  /\ List.map (fun c => (cs_origin c, inline_or_library c)) (calls nb)
     = [ (OLibrary "pandas.read_table", false);
         (OLibrary "statsmodels.api.GLM.from_formula", true) ].
Proof. split; reflexivity. Qed.

End Boundaries.

(** ** The kernel runs the cells in their order *)
Section CellOrder.
Import Py Kernel.
Context {ext world : Type}.
Variable runtime : request ext -> world -> response ext * world.
Variable fuel : nat.

Local Abbreviation run_cells := (Kernel.run_cells runtime fuel).
Local Abbreviation exec_cell := (Kernel.exec_cell runtime fuel).

(** Run All starts the cells [i, i+1, ...] in this order and stops after the
    first one that does not complete. *)
Lemma run_cells_started (cells : list cell) :
  forall (i : nat) (s s' : state ext world) (started : list nat)
         (o : outcome ext unit),
    run_cells i cells s = (started, o, s') ->
    exists k,
      started = seq i k
      /\ (k <= length cells)%nat
      /\ (o = Done tt -> k = length cells)
      /\ (o <> Done tt ->
          exists c s1, cells !! (k - 1)%nat = Some c
                       /\ (0 < k)%nat
                       /\ exec_cell c s1 = (o, s')).
Proof.
  induction cells as [|c rest IH]; intros i s s' started o Hrun.
  - simpl in Hrun. injection Hrun as <- <- <-.
    exists 0%nat. repeat split; try reflexivity; try lia. congruence.
  - simpl in Hrun.
    destruct (exec_cell c s) as [[[]|e|] s1] eqn:Hc.
    + destruct (run_cells (S i) rest s1) as [[started' o'] s2] eqn:Hrest.
      injection Hrun as <- <- <-.
      destruct (IH _ _ _ _ _ Hrest) as (k & -> & Hk & Hdone & Hfail).
      exists (S k). split; [reflexivity|]. split; [simpl; lia|].
      split.
      * intros Ho. simpl. f_equal. apply Hdone, Ho.
      * intros Ho. destruct (Hfail Ho) as (c' & s0 & Hc' & Hpos & Hexec).
        exists c', s0. split; [|split; [lia | exact Hexec]].
        replace (S k - 1)%nat with (S (k - 1)) by lia. exact Hc'.
    + injection Hrun as <- <- <-.
      exists 1%nat. split; [reflexivity|]. split; [simpl; lia|].
      split; [discriminate|]. intros _. exists c, s. auto.
    + injection Hrun as <- <- <-.
      exists 1%nat. split; [reflexivity|]. split; [simpl; lia|].
      split; [discriminate|]. intros _. exists c, s. auto.
Qed.

End CellOrder.

(** ** Exceptions propagate *)
Section Propagation.
Import Py Kernel.
Local Open Scope list_scope.
Context {ext world : Type}.
Variable runtime : request ext -> world -> response ext * world.

Local Abbreviation M := (Kernel.M ext world).
Local Abbreviation propagates := (@Kernel.propagates ext world).

Lemma quiet_app (l1 l2 : list (event ext)) :
  quiet l1 -> quiet l2 -> quiet (l1 ++ l2).
Proof. intros H1 H2. apply Forall_app. split; assumption. Qed.

Lemma fails_last_app (l1 l2 : list (event ext)) (e : ext) :
  quiet l1 -> fails_last l2 e -> fails_last (l1 ++ l2) e.
Proof.
  intros H1 (l0 & r & -> & H0). exists (l1 ++ l0), r.
  split; [apply app_assoc | apply quiet_app; assumption].
Qed.

(** A quiet beginning does not change how the rest ends. *)
Lemma verdict_app {A : Type} (P : A -> Prop) (o : outcome ext A)
    (l1 l2 : list (event ext)) :
  quiet l1 -> verdict P o l2 -> verdict P o (l1 ++ l2).
Proof.
  intros H1 H2. destruct o as [a|[e|what]|]; simpl in *.
  - destruct H2 as [H2 Ha]. split; [apply quiet_app; assumption | exact Ha].
  - apply fails_last_app; assumption.
  - apply quiet_app; assumption.
  - apply quiet_app; assumption.
Qed.

Lemma propagates_ret {A : Type} (P : A -> Prop) (a : A) :
  P a -> propagates P (ret a).
Proof.
  intros Ha s o s' Hs Hrun. injection Hrun as <- <-.
  split; [exact Hs|]. exists []. split; [symmetry; apply app_nil_r|].
  split; [constructor | exact Ha].
Qed.

Lemma propagates_raise {A : Type} (P : A -> Prop) (what : string) :
  propagates P (raise what).
Proof.
  intros s o s' Hs Hrun. injection Hrun as <- <-.
  split; [exact Hs|]. exists []. split; [symmetry; apply app_nil_r|].
  constructor.
Qed.

Lemma propagates_out_of_fuel {A : Type} (P : A -> Prop) :
  propagates P out_of_fuel.
Proof.
  intros s o s' Hs Hrun. injection Hrun as <- <-.
  split; [exact Hs|]. exists []. split; [symmetry; apply app_nil_r|].
  constructor.
Qed.

Lemma propagates_bind {A B : Type} (P : A -> Prop) (Q : B -> Prop)
    (m : M A) (k : A -> M B) :
  propagates P m ->
  (forall a, P a -> propagates Q (k a)) ->
  propagates Q (bind m k).
Proof.
  intros Hm Hk s o s' Hs Hrun. unfold bind in Hrun.
  destruct (m s) as [[a|e|] s1] eqn:Hms.
  - destruct (Hm _ _ _ Hs Hms) as (Hs1 & l1 & Hl1 & Hq1 & Ha).
    destruct (Hk a Ha _ _ _ Hs1 Hrun) as (Hs' & l2 & Hl2 & Hv).
    split; [exact Hs'|]. exists (l1 ++ l2).
    split; [rewrite Hl2, Hl1; symmetry; apply app_assoc|].
    apply verdict_app; assumption.
  - injection Hrun as <- <-.
    destruct (Hm _ _ _ Hs Hms) as (Hs1 & l1 & Hl1 & Hv).
    split; [exact Hs1|]. exists l1. split; [exact Hl1|].
    destruct e; exact Hv.
  - injection Hrun as <- <-.
    destruct (Hm _ _ _ Hs Hms) as (Hs1 & l1 & Hl1 & Hv).
    split; [exact Hs1|]. exists l1. split; [exact Hl1 | exact Hv].
Qed.

Lemma propagates_weaken {A : Type} (P Q : A -> Prop) (m : M A) :
  (forall a, P a -> Q a) -> propagates P m -> propagates Q m.
Proof.
  intros HPQ Hm s o s' Hs Hrun.
  destruct (Hm _ _ _ Hs Hrun) as (Hs' & l & Hl & Hv).
  split; [exact Hs'|]. exists l. split; [exact Hl|].
  destruct o as [a|[e|what]|]; simpl in *; try assumption.
  destruct Hv as [Hq Ha]. split; [exact Hq | apply HPQ, Ha].
Qed.

(** A request: its answer is logged; a raised exception ends the
    computation. *)
Lemma propagates_perform (r : request ext) :
  propagates ok_value (perform runtime r).
Proof.
  intros s o s' Hs Hrun. unfold perform, ask in Hrun.
  destruct (runtime r (libs s)) as [[x|xs|e] w]; injection Hrun as <- <-;
    (split; [exact Hs|]); cbn [log]; eexists; (split; [reflexivity|]).
  - split; [repeat constructor | reflexivity].
  - repeat constructor.
  - exists [], r. split; [reflexivity | constructor].
Qed.

Lemma propagates_perform_items (r : request ext) :
  propagates (Forall ok_value) (perform_items runtime r).
Proof.
  intros s o s' Hs Hrun. unfold perform_items, ask in Hrun.
  destruct (runtime r (libs s)) as [[x|xs|e] w]; injection Hrun as <- <-;
    (split; [exact Hs|]); cbn [log]; eexists; (split; [reflexivity|]).
  - repeat constructor.
  - split; [repeat constructor|].
    apply Forall_forall. intros v Hv.
    apply list_elem_of_In, in_map_iff in Hv as (x & <- & _). reflexivity.
  - exists [], r. split; [reflexivity | constructor].
Qed.

Lemma propagates_lookup_name (x : string) :
  propagates ok_value (lookup_name runtime x).
Proof.
  intros s o s' Hs Hrun. unfold lookup_name in Hrun.
  destruct Hs as [Hg Hf].
  destruct (match frames s with fr :: _ => fr !! x | [] => None end)
    as [v|] eqn:Hlocal.
  - injection Hrun as <- <-. split; [split; assumption|].
    exists []. split; [symmetry; apply app_nil_r|].
    split; [constructor|].
    destruct (frames s) as [|fr rest]; [discriminate|].
    inversion Hf as [|? ? Hfr _]; subst. exact (Hfr _ _ Hlocal).
  - destruct (globals s !! x) as [v|] eqn:Hglobal.
    + injection Hrun as <- <-. split; [split; assumption|].
      exists []. split; [symmetry; apply app_nil_r|].
      split; [constructor | exact (Hg _ _ Hglobal)].
    + exact (propagates_perform _ _ _ _ (conj Hg Hf) Hrun).
Qed.

Lemma propagates_assign_name (x : string) (v : value ext) :
  ok_value v -> propagates (fun _ => True) (assign_name x v).
Proof.
  intros Hv s o s' [Hg Hf] Hrun. unfold assign_name in Hrun.
  destruct (frames s) as [|fr rest] eqn:Hfr; injection Hrun as <- <-.
  - split.
    + split; cbn; [|constructor].
      apply map_Forall_insert_2; assumption.
    + exists []. split; [symmetry; apply app_nil_r|].
      split; [constructor | exact I].
  - split.
    + inversion Hf as [|? ? Hfr0 Hrest]; subst.
      split; cbn; [exact Hg|]. constructor; [|exact Hrest].
      apply map_Forall_insert_2; assumption.
    + exists []. split; [symmetry; apply app_nil_r|].
      split; [constructor | exact I].
Qed.

Lemma propagates_with_frame {A : Type} (P : A -> Prop)
    (fr : gmap string (value ext)) (m : M A) :
  handler_free_map fr -> propagates P m -> propagates P (with_frame fr m).
Proof.
  intros Hfr Hm s o s' [Hg Hf] Hrun. unfold with_frame in Hrun.
  destruct (m _) as [o1 s1] eqn:Hms. injection Hrun as <- <-.
  assert (Hpushed : handler_free_state
                      (mk_state (globals s) (fr :: frames s) (libs s) (log s))).
  { split; cbn; [exact Hg | constructor; assumption]. }
  destruct (Hm _ _ _ Hpushed Hms) as ([Hg1 Hf1] & l & Hl & Hv).
  split.
  - split; cbn; [exact Hg1|].
    destruct (frames s1); [constructor | inversion Hf1; assumption].
  - exists l. split; [exact Hl | exact Hv].
Qed.

Lemma propagates_map_m {A B : Type} (P : B -> Prop) (f : A -> M B)
    (l : list A) :
  (forall a, In a l -> propagates P (f a)) ->
  propagates (Forall P) (map_m f l).
Proof.
  induction l as [|a l IH]; intros Hf; simpl.
  - apply propagates_ret. constructor.
  - eapply propagates_bind; [apply Hf; left; reflexivity|].
    intros b Hb. eapply propagates_bind.
    + apply IH. intros a' Ha'. apply Hf. right. exact Ha'.
    + intros bs Hbs. apply propagates_ret. constructor; assumption.
Qed.

Lemma propagates_block (f : stmt -> M (option (value ext))) (l : list stmt) :
  (forall s, In s l -> propagates ok_result (f s)) ->
  propagates ok_result (block f l).
Proof.
  induction l as [|s l IH]; intros Hf; simpl.
  - apply propagates_ret. exact I.
  - eapply propagates_bind; [apply Hf; left; reflexivity|].
    intros [v|] Hr.
    + apply propagates_ret. exact Hr.
    + apply IH. intros s' Hs'. apply Hf. right. exact Hs'.
Qed.

Lemma propagates_for_each (f : value ext -> M (option (value ext)))
    (items : list (value ext)) :
  (forall v, ok_value v -> propagates ok_result (f v)) ->
  Forall ok_value items ->
  propagates ok_result (for_each f items).
Proof.
  intros Hf. induction 1 as [|v items Hv _ IH]; simpl.
  - apply propagates_ret. exact I.
  - eapply propagates_bind; [apply Hf, Hv|].
    intros [w|] Hr; [apply propagates_ret; exact Hr | exact IH].
Qed.

Lemma propagates_assign_names (xs : list string) (vs : list (value ext)) :
  Forall ok_value vs ->
  propagates (fun _ => True) (assign_names xs vs).
Proof.
  intros Hvs. revert xs.
  induction Hvs as [|v vs Hv _ IH]; intros [|x xs]; simpl.
  - apply propagates_ret. exact I.
  - apply propagates_raise.
  - apply propagates_raise.
  - eapply propagates_bind; [apply propagates_assign_name, Hv|].
    intros _ _. apply IH.
Qed.

Lemma frame_of_ok (ps : list string) (args : list (value ext))
    (fr : gmap string (value ext)) :
  Forall ok_value args -> frame_of ps args = Some fr -> handler_free_map fr.
Proof.
  intros Hargs Hfr. unfold frame_of in Hfr.
  destruct (length ps =? length args)%nat; [|discriminate].
  injection Hfr as <-. intros x v Hx.
  apply elem_of_list_to_map_2 in Hx.
  apply list_elem_of_In in Hx. apply in_combine_r in Hx.
  rewrite Forall_forall in Hargs. apply Hargs, list_elem_of_In, Hx.
Qed.

Lemma propagates_or_none (r : option (value ext)) :
  ok_result r -> propagates ok_value (or_none runtime r).
Proof.
  destruct r as [v|]; simpl; intros Hr.
  - apply propagates_ret. exact Hr.
  - apply propagates_perform.
Qed.

(** *** Code without handlers *)

Lemma handler_free_cons (s : stmt) (l : list stmt) :
  Analysis.handler_free (s :: l)
  = Analysis.handler_free [s] && Analysis.handler_free l.
Proof.
  unfold Analysis.handler_free, Analysis.all_stmts. simpl.
  rewrite app_nil_r. apply forallb_app.
Qed.

Lemma handler_free_In (l : list stmt) (s : stmt) :
  Analysis.handler_free l = true -> In s l -> Analysis.handler_free [s] = true.
Proof.
  induction l as [|s0 l IH]; intros Hl Hs; [destruct Hs|].
  rewrite handler_free_cons in Hl. apply andb_true_iff in Hl as [H0 Hl].
  destruct Hs as [<- | Hs]; [exact H0 | apply IH; assumption].
Qed.

(** The bodies nested in a statement without handlers have none, and the
    statement is no [try]. *)
Lemma handler_free_nested (s : stmt) :
  Analysis.handler_free [s] = true ->
  match s with
  | SDef _ _ body | SClass _ _ body | SFor _ _ body =>
      Analysis.handler_free body = true
  | STry _ _ => False
  | _ => True
  end.
Proof.
  unfold Analysis.handler_free, Analysis.all_stmts. simpl.
  rewrite app_nil_r. destruct s; simpl; try (intros _; exact I);
    try (intros H; exact H).
  discriminate.
Qed.

Lemma Forall_concat_ok (ls : list (list (value ext))) :
  Forall (Forall ok_value) ls -> Forall ok_value (concat ls).
Proof.
  induction 1 as [|l ls Hl _ IH]; simpl; [constructor|].
  apply Forall_app. split; assumption.
Qed.

Lemma ok_class (x : string) (bases : list (value ext)) (body : list stmt) :
  Forall ok_value bases -> Analysis.handler_free body = true ->
  ok_value (VClass x bases body).
Proof.
  intros Hb Hbody. unfold ok_value. simpl. rewrite Hbody, andb_true_r.
  induction Hb as [|v vs Hv _ IH]; simpl; [reflexivity|].
  rewrite Hv. exact IH.
Qed.

(** *** The interpreter swallows no exception of code without handlers *)

Ltac seq_with P := eapply (propagates_bind P).
Ltac seq := eapply propagates_bind.

Lemma interp_propagates (n : nat) :
  (forall e, propagates ok_value (eval runtime n e))
  /\ (forall s, Analysis.handler_free [s] = true ->
                propagates ok_result (exec runtime n s))
  /\ (forall f args kwargs,
        ok_value f -> Forall ok_value args ->
        propagates ok_value (call runtime n f args kwargs)).
Proof.
  induction n as [|n (IHe & IHs & IHc)].
  { split; [intros e | split; [intros s Hs | intros f args kwargs Hf Hargs]];
      apply propagates_out_of_fuel. }
  assert (IHes : forall es, propagates (Forall ok_value)
                              (map_m (eval runtime n) es)).
  { intros es. apply propagates_map_m. intros e _. apply IHe. }
  assert (IHb : forall body, Analysis.handler_free body = true ->
                  propagates ok_result (block (exec runtime n) body)).
  { intros body Hbody. apply propagates_block. intros s Hs.
    apply IHs. eapply handler_free_In; eassumption. }
  split; [|split].
  - (* expressions *)
    intros e. destruct e; cbn [eval].
    + apply propagates_lookup_name.
    + apply propagates_perform.
    + apply propagates_perform.
    + apply propagates_perform.
    + apply propagates_perform.
    + apply propagates_perform.
    + seq; [apply IHes|]. intros vs _. apply propagates_perform.
    + seq; [apply IHes|]. intros vs _. apply propagates_perform.
    + seq; [apply IHes|]. intros ks' _.
      seq; [apply IHes|]. intros vs' _. apply propagates_perform.
    + seq; [apply IHe|]. intros vl _.
      seq; [apply IHe|]. intros vr _. apply propagates_perform.
    + seq; [apply IHe|]. intros v _. apply propagates_perform.
    + seq; [apply IHe|]. intros v _. apply propagates_perform.
    + seq; [apply IHe|]. intros v _.
      seq; [apply IHe|]. intros vi _. apply propagates_perform.
    + seq_with (fun _ : option (value ext) => True).
      { destruct lo as [e1|]; [|apply propagates_ret; exact I].
        seq; [apply IHe|]. intros v _. apply propagates_ret. exact I. }
      intros vlo _. seq_with (fun _ : option (value ext) => True).
      { destruct hi as [e1|]; [|apply propagates_ret; exact I].
        seq; [apply IHe|]. intros v _. apply propagates_ret. exact I. }
      intros vhi _. apply propagates_perform.
    + seq; [apply IHe|]. intros vf Hvf.
      seq_with (Forall (Forall (@ok_value ext))).
      { apply propagates_map_m. intros a _.
        assert (Hplain : propagates (Forall ok_value)
                           (bind (eval runtime n a) (fun v => ret [v]))).
        { seq; [apply IHe|]. intros v Hv. apply propagates_ret.
          constructor; [exact Hv | constructor]. }
        destruct a; try exact Hplain.
        seq; [apply IHe|]. intros v _. apply propagates_perform_items. }
      intros vargs Hvargs.
      seq_with (fun _ : list (string * value ext) => True).
      { eapply propagates_weaken; [|apply propagates_map_m
          with (P := fun _ : string * value ext => True)].
        - intros; exact I.
        - intros kv _. seq; [apply IHe|]. intros v _.
          apply propagates_ret. exact I. }
      intros vkw _. apply IHc; [exact Hvf | apply Forall_concat_ok, Hvargs].
    + apply propagates_raise.
    + apply propagates_ret. reflexivity.
    + seq; [apply IHe|]. intros it _.
      seq; [apply propagates_perform_items|]. intros items Hitems.
      seq.
      { apply propagates_map_m with (P := @ok_value ext). intros item Hitem.
        seq; [apply propagates_assign_name|].
        - rewrite Forall_forall in Hitems.
          apply Hitems, list_elem_of_In, Hitem.
        - intros _ _. apply IHe. }
      intros vs _. apply propagates_perform.
  - (* statements *)
    intros s Hs. pose proof (handler_free_nested s Hs) as Hnested.
    destruct s; cbn [exec].
    + seq; [apply propagates_perform|]. intros v Hv.
      seq; [apply propagates_assign_name, Hv|]. intros _ _.
      apply propagates_ret. exact I.
    + seq_with (fun _ : list unit => True).
      { eapply propagates_weaken; [|apply propagates_map_m
          with (P := fun _ : unit => True)].
        - intros; exact I.
        - intros x _. seq; [apply propagates_perform|]. intros v Hv.
          apply propagates_assign_name, Hv. }
      intros _ _. apply propagates_ret. exact I.
    + seq; [apply IHe|]. intros v Hv.
      seq_with (fun _ : unit => True).
      { destruct target; try apply propagates_raise.
        - apply propagates_assign_name, Hv.
        - destruct (names_of es) as [xs|]; [|apply propagates_raise].
          seq; [apply propagates_perform_items|]. intros items Hitems.
          apply propagates_assign_names, Hitems.
        - destruct (names_of es) as [xs|]; [|apply propagates_raise].
          seq; [apply propagates_perform_items|]. intros items Hitems.
          apply propagates_assign_names, Hitems.
        - seq; [apply IHe|]. intros vo _.
          seq; [apply propagates_perform|]. intros _ _.
          apply propagates_ret. exact I.
        - seq; [apply IHe|]. intros vo _.
          seq; [apply IHe|]. intros vi _.
          seq; [apply propagates_perform|]. intros _ _.
          apply propagates_ret. exact I. }
      intros _ _. apply propagates_ret. exact I.
    + seq_with (fun _ : unit => True).
      { destruct target; try apply propagates_raise.
        - seq; [apply propagates_lookup_name|]. intros cur _.
          seq; [apply IHe|]. intros v _.
          seq; [apply propagates_perform|]. intros r Hr.
          apply propagates_assign_name, Hr.
        - seq; [apply IHe|]. intros vo _.
          seq; [apply propagates_perform|]. intros cur _.
          seq; [apply IHe|]. intros v _.
          seq; [apply propagates_perform|]. intros r _.
          seq; [apply propagates_perform|]. intros _ _.
          apply propagates_ret. exact I.
        - seq; [apply IHe|]. intros vo _.
          seq; [apply IHe|]. intros vi _.
          seq; [apply propagates_perform|]. intros cur _.
          seq; [apply IHe|]. intros v _.
          seq; [apply propagates_perform|]. intros r _.
          seq; [apply propagates_perform|]. intros _ _.
          apply propagates_ret. exact I. }
      intros _ _. apply propagates_ret. exact I.
    + seq; [apply IHe|]. intros _ _. apply propagates_ret. exact I.
    + seq; [apply IHes|]. intros vs _.
      seq; [apply propagates_perform|]. intros _ _.
      apply propagates_ret. exact I.
    + seq; [apply IHe|]. intros v Hv. apply propagates_ret. exact Hv.
    + seq; [apply propagates_assign_name; exact Hnested|]. intros _ _.
      apply propagates_ret. exact I.
    + seq; [apply IHes|]. intros vb Hvb.
      seq; [apply propagates_assign_name, ok_class; assumption|]. intros _ _.
      apply propagates_ret. exact I.
    + seq; [apply IHe|]. intros it _.
      seq; [apply propagates_perform_items|]. intros items Hitems.
      apply propagates_for_each; [|exact Hitems].
      intros item Hitem.
      seq; [apply propagates_assign_name, Hitem|]. intros _ _.
      apply IHb, Hnested.
    + seq; [apply propagates_perform|]. intros _ _.
      apply propagates_ret. exact I.
    + destruct Hnested.
  - (* calls *)
    intros f args kwargs Hf Hargs. destruct f; cbn [call].
    + apply propagates_perform.
    + destruct kwargs; [|apply propagates_raise].
      destruct (frame_of params args) as [fr|] eqn:Hfr;
        [|apply propagates_raise].
      seq; [|intros r Hr; apply propagates_or_none, Hr].
      apply propagates_with_frame; [eapply frame_of_ok; eassumption|].
      apply IHb. exact Hf.
    + destruct kwargs; [|apply propagates_raise].
      destruct (frame_of params args) as [fr|] eqn:Hfr;
        [|apply propagates_raise].
      apply propagates_with_frame; [eapply frame_of_ok; eassumption|].
      apply IHe.
    + apply propagates_perform.
Qed.

Lemma handler_free_app (l1 l2 : list stmt) :
  Analysis.handler_free (l1 ++ l2)
  = Analysis.handler_free l1 && Analysis.handler_free l2.
Proof.
  induction l1 as [|s l1 IH]; [reflexivity|].
  simpl. rewrite handler_free_cons, IH, (handler_free_cons s l1).
  apply andb_assoc.
Qed.

Lemma exec_cell_propagates (fuel : nat) (c : cell) :
  Analysis.handler_free (cell_source c) = true ->
  propagates (fun _ : unit => True) (exec_cell runtime fuel c).
Proof.
  intros Hc. destruct c as [| |src]; simpl.
  - apply propagates_ret. exact I.
  - apply propagates_ret. exact I.
  - seq.
    + apply propagates_block. intros s Hs.
      apply (interp_propagates fuel). eapply handler_free_In; eassumption.
    + intros [v|] _; [apply propagates_raise | apply propagates_ret; exact I].
Qed.

(** Run All over cells without handlers: what was logged fits the way the
    run ended. *)
Lemma run_cells_propagates (fuel : nat) (cells : list cell) :
  forall (i : nat) (s s' : state ext world) (started : list nat)
         (o : outcome ext unit),
    Analysis.handler_free (List.flat_map cell_source cells) = true ->
    handler_free_state s ->
    run_cells runtime fuel i cells s = (started, o, s') ->
    handler_free_state s'
    /\ exists l, log s' = log s ++ l /\ verdict (fun _ => True) o l.
Proof.
  induction cells as [|c rest IH]; intros i s s' started o Hhf Hs Hrun.
  - simpl in Hrun. injection Hrun as <- <- <-.
    split; [exact Hs|]. exists []. split; [symmetry; apply app_nil_r|].
    split; [constructor | exact I].
  - simpl in Hhf. rewrite handler_free_app in Hhf.
    apply andb_true_iff in Hhf as [Hc Hrest].
    simpl in Hrun.
    destruct (exec_cell runtime fuel c s) as [o1 s1] eqn:Hexec.
    destruct (exec_cell_propagates fuel c Hc _ _ _ Hs Hexec)
      as (Hs1 & l1 & Hl1 & Hv1).
    destruct o1 as [[]|e|].
    + destruct (run_cells runtime fuel (S i) rest s1) as [[started' o'] s2]
        eqn:Hrun'.
      injection Hrun as <- <- <-.
      destruct (IH _ _ _ _ _ Hrest Hs1 Hrun') as (Hs2 & l2 & Hl2 & Hv2).
      split; [exact Hs2|]. exists (l1 ++ l2).
      split; [rewrite Hl2, Hl1; symmetry; apply app_assoc|].
      destruct Hv1 as [Hq1 _]. apply verdict_app; assumption.
    + injection Hrun as <- <- <-.
      split; [exact Hs1|]. exists l1. split; [exact Hl1 | exact Hv1].
    + injection Hrun as <- <- <-.
      split; [exact Hs1|]. exists l1. split; [exact Hl1 | exact Hv1].
Qed.

Lemma fresh_handler_free (w : world) :
  handler_free_state (fresh w : state ext world).
Proof. split; cbn; [apply map_Forall_empty | constructor]. Qed.

Lemma quiet_not_raised (l : list (event ext)) (r : request ext) (e : ext) :
  quiet l -> ~ In (r, Raised e) l.
Proof.
  intros Hq Hin. unfold quiet in Hq. rewrite Forall_forall in Hq.
  specialize (Hq _ (proj2 (list_elem_of_In _ _) Hin)). discriminate Hq.
Qed.

(** A logged exception was raised in the cell started last: the run ends
    there with that exception, the log up to that cell is quiet, and the
    exception is the last entry the cell logged. *)
Lemma run_cells_raising_cell (fuel : nat) (cells : list cell) :
  forall (i : nat) (s s' : state ext world) (started : list nat)
         (o : outcome ext unit) (r : request ext) (e : ext),
    Analysis.handler_free (List.flat_map cell_source cells) = true ->
    handler_free_state s ->
    quiet (log s) ->
    run_cells runtime fuel i cells s = (started, o, s') ->
    In (r, Raised e) (log s') ->
    exists k c s1 l,
      started = seq i (S k)
      /\ cells !! k = Some c
      /\ quiet (log s1)
      /\ exec_cell runtime fuel c s1 = (Raise (LibraryError e), s')
      /\ log s' = log s1 ++ l ++ [(r, Raised e)]
      /\ quiet l.
Proof.
  induction cells as [|c rest IH];
    intros i s s' started o r e Hhf Hs Hquiet Hrun Hin.
  - simpl in Hrun. injection Hrun as <- <- <-.
    destruct (quiet_not_raised _ _ _ Hquiet Hin).
  - simpl in Hhf. rewrite handler_free_app in Hhf.
    apply andb_true_iff in Hhf as [Hc Hrest].
    simpl in Hrun.
    destruct (exec_cell runtime fuel c s) as [o1 s1] eqn:Hexec.
    destruct (exec_cell_propagates fuel c Hc _ _ _ Hs Hexec)
      as (Hs1 & l1 & Hl1 & Hv1).
    destruct o1 as [[]|[e'|what]|].
    + destruct (run_cells runtime fuel (S i) rest s1) as [[started' o'] s2]
        eqn:Hrun'.
      injection Hrun as <- <- <-.
      destruct Hv1 as [Hq1 _].
      assert (Hquiet1 : quiet (log s1))
        by (rewrite Hl1; apply quiet_app; assumption).
      destruct (IH _ _ _ _ _ r e Hrest Hs1 Hquiet1 Hrun' Hin)
        as (k & c' & s0 & l & -> & Hc' & Hq0 & Hexec' & Hlog & Hl).
      exists (S k), c', s0, l. repeat split; assumption.
    + injection Hrun as <- <- <-. simpl in Hv1.
      destruct Hv1 as (l0 & r' & -> & Hq0).
      rewrite Hl1 in Hin.
      apply in_app_or in Hin as [Hin | Hin];
        [destruct (quiet_not_raised _ _ _ Hquiet Hin)|].
      apply in_app_or in Hin as [Hin | [Heq | []]];
        [destruct (quiet_not_raised _ _ _ Hq0 Hin)|].
      injection Heq as -> ->.
      exists 0%nat, c, s, l0. repeat split; try assumption.
    + injection Hrun as <- <- <-. simpl in Hv1.
      rewrite Hl1 in Hin.
      apply in_app_or in Hin as [Hin | Hin].
      * destruct (quiet_not_raised _ _ _ Hquiet Hin).
      * destruct (quiet_not_raised _ _ _ Hv1 Hin).
    + injection Hrun as <- <- <-. simpl in Hv1.
      rewrite Hl1 in Hin.
      apply in_app_or in Hin as [Hin | Hin].
      * destruct (quiet_not_raised _ _ _ Hquiet Hin).
      * destruct (quiet_not_raised _ _ _ Hv1 Hin).
Qed.

(** A logged exception decides how the run of a notebook without handlers
    ended: with that exception, which is the last entry of the log. *)
Lemma logged_exception_ends_run (fuel : nat) (nb : notebook) (w : world)
    (started : list nat) (o : outcome ext unit) (s' : state ext world)
    (r : request ext) (e : ext) :
  Analysis.handler_free (statements nb) = true ->
  run runtime fuel nb w = (started, o, s') ->
  In (r, Raised e) (log s') ->
  o = Raise (LibraryError e)
  /\ exists l0, log s' = l0 ++ [(r, Raised e)] /\ quiet l0.
Proof.
  intros Hhf Hrun Hin. unfold run in Hrun.
  destruct (run_cells_propagates fuel _ _ _ _ _ _ Hhf (fresh_handler_free w)
              Hrun) as (_ & l & Hl & Hv).
  cbn in Hl. rewrite Hl in Hin |- *.
  destruct o as [[]|[e'|what]|]; simpl in Hv.
  - destruct Hv as [Hq _]. destruct (quiet_not_raised _ _ _ Hq Hin).
  - destruct Hv as (l0 & r' & -> & Hq).
    apply in_app_or in Hin as [Hin | [Heq | []]].
    + destruct (quiet_not_raised _ _ _ Hq Hin).
    + injection Heq as -> ->. split; [reflexivity|]. exists l0. auto.
  - destruct (quiet_not_raised _ _ _ Hv Hin).
  - destruct (quiet_not_raised _ _ _ Hv Hin).
Qed.

End Propagation.

(** ** The notebooks: failures *)
Section NotebookRuns.
Import Py Kernel Notebooks.
Local Open Scope list_scope.

Lemma notebooks_handler_free :
  forallb (fun nb => Analysis.handler_free (statements nb)) Notebooks.all = true.
Proof. vm_compute. reflexivity. Qed.

(** C6: no notebook catches, classifies or recovers from a failure.  No
    cell's code contains an exception handler.  With each notebook run as
    the sequence of its cells, whatever the libraries do and however far the
    run gets: the cells started are an initial segment of the notebook; when
    the run does not complete, it ends in the cell started last, and no later
    cell is started; an exception raised by the library is the outcome of
    the run and of the cell it was raised in, which is the cell started
    last, and it is the last entry of the log of requests, so nothing is
    evaluated after it. *)
Theorem library_exception_halts_the_notebook :
  forall nb, In nb Notebooks.all ->
    Analysis.handler_free (statements nb) = true
    /\ forall (ext world : Type)
              (runtime : request ext -> world -> response ext * world)
              (fuel : nat) (w : world) (started : list nat)
              (o : outcome ext unit) (s' : state ext world),
         run runtime fuel nb w = (started, o, s') ->
         (exists k,
            started = seq 0 k
            /\ (k <= length (nb_cells nb))%nat
            /\ (o = Done tt -> k = length (nb_cells nb))
            /\ (o <> Done tt ->
                exists c s1, nb_cells nb !! (k - 1)%nat = Some c
                             /\ (0 < k)%nat
                             /\ exec_cell runtime fuel c s1 = (o, s')))
         /\ (forall r e,
               In (r, Raised e) (log s') ->
               o = Raise (LibraryError e)
               /\ exists k c s1 l,
                    started = seq 0 (S k)
                    /\ nb_cells nb !! k = Some c
                    /\ quiet (log s1)
                    /\ exec_cell runtime fuel c s1
                       = (Raise (LibraryError e), s')
                    /\ log s' = log s1 ++ l ++ [(r, Raised e)]
                    /\ quiet l).
Proof.
  intros nb Hnb.
  assert (Hhf : Analysis.handler_free (statements nb) = true)
    by exact (forallb_In _ _ nb notebooks_handler_free Hnb).
  split; [exact Hhf|].
  intros ext world runtime fuel w started o s' Hrun. split.
  - exact (run_cells_started runtime fuel _ _ _ _ _ _ Hrun).
  - intros r e Hin. split.
    + exact (proj1 (logged_exception_ends_run runtime fuel nb w _ _ _ r e
                      Hhf Hrun Hin)).
    + apply (run_cells_raising_cell runtime fuel (nb_cells nb) 0 (fresh w)
               s' started o r e Hhf (fresh_handler_free w)); try assumption.
      constructor.
Qed.

(** The theorem at the quasi-binomial notebook. *)
Lemma quasibinomial_exception_halts :
  Analysis.handler_free (statements quasibinomial) = true
  /\ forall (ext world : Type)
            (runtime : request ext -> world -> response ext * world)
            (fuel : nat) (w : world) (started : list nat)
            (o : outcome ext unit) (s' : state ext world),
       run runtime fuel quasibinomial w = (started, o, s') ->
       (exists k,
          started = seq 0 k
          /\ (k <= length (nb_cells quasibinomial))%nat
          /\ (o = Done tt -> k = length (nb_cells quasibinomial))
          /\ (o <> Done tt ->
              exists c s1, nb_cells quasibinomial !! (k - 1)%nat = Some c
                           /\ (0 < k)%nat
                           /\ exec_cell runtime fuel c s1 = (o, s')))
       /\ (forall r e,
             In (r, Raised e) (log s') ->
             o = Raise (LibraryError e)
             /\ exists k c s1 l,
                  started = seq 0 (S k)
                  /\ nb_cells quasibinomial !! k = Some c
                  /\ quiet (log s1)
                  /\ exec_cell runtime fuel c s1
                     = (Raise (LibraryError e), s')
                  /\ log s' = log s1 ++ l ++ [(r, Raised e)]
                  /\ quiet l).
Proof.
  apply (library_exception_halts_the_notebook quasibinomial).
  unfold Notebooks.all. simpl. auto.
Defined.

(** A run in which the library raises: the call [model1.fit(scale="X2")] of
    the quasi-binomial notebook, request number 54, raises; the run ends
    with that exception in cell 7, the cell of the call, the call is the last
    request made, and cells 8 to 15 are not started. *)
Example fit_raises_in_quasibinomial :
  let '(started, o, s') :=
    run scripted 30 quasibinomial (mk_script 0 [] (Some 54%nat)) in
  started = seq 0 8
  /\ o = Raise (LibraryError 54%nat)
  /\ List.skipn 52 (log s')
     = [ (RGetAttr (VExt 51%nat) "fit", Returned 52%nat);
         (RConst (KStr "X2"), Returned 53%nat);
         (RCall (VExt 52%nat) [] [("scale", VExt 53%nat)], Raised 54%nat) ].
Proof. vm_compute. repeat split. Qed.

(** Each notebook runs to completion under a runtime that answers every
    request and gives every iteration the number of items of
    [completing_script]. *)
Example notebooks_complete :
  forall nb, In nb Notebooks.all ->
    (run scripted 30 nb (completing_script nb)).1
    = (seq 0 (length (nb_cells nb)), Done tt).
Proof. intros nb Hnb. each_notebook Hnb; vm_compute; reflexivity. Qed.

End NotebookRuns.

(** ** The shape of the variance function *)
Section VarianceShape.
Local Open Scope Q_scope.

Lemma vf_call_product (mu : Q) :
  vf.__call__ mu == (mu * (1 - mu)) * (mu * (1 - mu)).
Proof.
  unfold vf.__call__. cbn [py_mul py_pow py_sub py_lit PyNum_Q].
  change (Z.of_N 2) with 2%Z. simpl. ring.
Qed.

Lemma vf_deriv_product (mu : Q) :
  vf.deriv mu == 2 * (mu * (1 - mu)) * (1 - 2 * mu).
Proof.
  unfold vf.deriv. cbn [py_add py_mul py_pow py_sub py_lit PyNum_Q].
  change (Z.of_N 2) with 2%Z. change (Z.of_N 3) with 3%Z. simpl.
  change (inject_Z 2) with 2. change (inject_Z 6) with 6.
  change (inject_Z 4) with 4. ring.
Qed.

Lemma Qsquare_nonneg (u : Q) : 0 <= u * u.
Proof. Lqa.nra. Qed.

Lemma Qsquare_zero (u : Q) : u * u == 0 -> u == 0.
Proof. intros H. destruct (Qmult_integral _ _ H); assumption. Qed.

Lemma Qsquare_monotone (u v : Q) : 0 <= u -> u <= v -> u * u <= v * v.
Proof. intros Hu Huv. apply Qmult_le_compat_nonneg; split; assumption. Qed.

Lemma unit_product_zero (mu : Q) :
  mu * (1 - mu) == 0 <-> mu == 0 \/ mu == 1.
Proof.
  split.
  - intros H. destruct (Qmult_integral _ _ H) as [H0|H1]; [left; exact H0|].
    right. Lqa.lra.
  - intros [H|H]; rewrite H; ring.
Qed.

Lemma unit_product_bounds (mu : Q) :
  0 <= mu <= 1 -> 0 <= mu * (1 - mu) <= 1 # 4.
Proof.
  intros [H0 H1]. split.
  - apply Qmult_le_0_compat; Lqa.lra.
  - pose proof (Qsquare_nonneg (mu - (1 # 2))) as Hsq. Lqa.lra.
Qed.

Lemma unit_product_monotone (a b : Q) :
  0 <= a -> a <= b -> a + b <= 1 -> a * (1 - a) <= b * (1 - b).
Proof.
  intros H0 Hab Hsum.
  assert (Hgap : 0 <= (b - a) * (1 - a - b))
    by (apply Qmult_le_0_compat; Lqa.lra).
  Lqa.lra.
Qed.

(** X1: for every rational [mu], the variance function [vf.__call__] is the
    square of [mu (1 - mu)]; it is never negative, it vanishes exactly at
    [mu = 0] and [mu = 1], and it is symmetric about one half:
    [vf(1 - mu) = vf(mu)]. *)
Theorem vf_call_is_a_variance (mu : Q) :
  vf.__call__ mu == (mu * (1 - mu)) ^ 2
  /\ 0 <= vf.__call__ mu
  /\ (vf.__call__ mu == 0 <-> mu == 0 \/ mu == 1)
  /\ vf.__call__ (1 - mu) == vf.__call__ mu.
Proof.
  split; [|split; [|split]].
  - rewrite vf_call_product. simpl. ring.
  - rewrite vf_call_product. apply Qsquare_nonneg.
  - rewrite vf_call_product. rewrite <- unit_product_zero. split.
    + apply Qsquare_zero.
    + intros ->. ring.
  - rewrite !vf_call_product. ring.
Qed.

(** X2: in exact arithmetic (on rationals) the variance function rises to
    its maximum on the unit interval and falls again: for rational
    [0 <= a <= b <= 1], [vf(a)] is at most [1/16], it is [1/16] only at
    [a = 1/2], [vf(a) <= vf(b)] when both are at most one half and
    [vf(b) <= vf(a)] when both are at least one half. *)
Theorem vf_call_is_unimodal (a b : Q) :
  0 <= a -> a <= b -> b <= 1 ->
  vf.__call__ a <= 1 # 16
  /\ (vf.__call__ a == 1 # 16 <-> a == 1 # 2)
  /\ (b <= 1 # 2 -> vf.__call__ a <= vf.__call__ b)
  /\ (1 # 2 <= a -> vf.__call__ b <= vf.__call__ a).
Proof.
  intros H0 Hab H1.
  assert (Ha : 0 <= a <= 1) by (split; Lqa.lra).
  destruct (unit_product_bounds a Ha) as [Hlo Hhi].
  rewrite !vf_call_product.
  split; [|split; [|split]].
  - change (1 # 16) with ((1 # 4) * (1 # 4)).
    apply Qsquare_monotone; assumption.
  - set (u := a * (1 - a)) in *. split.
    + intros H.
      assert (Hgap : ((1 # 4) - u) * ((1 # 4) + u) == 0) by Lqa.lra.
      assert (Hu : u == 1 # 4)
        by (destruct (Qmult_integral _ _ Hgap); Lqa.lra).
      unfold u in Hu.
      assert (Hsq : (a - (1 # 2)) * (a - (1 # 2)) == 0) by Lqa.lra.
      apply Qsquare_zero in Hsq. Lqa.lra.
    + intros H. unfold u. rewrite H. reflexivity.
  - intros Hhalf. apply Qsquare_monotone; [exact Hlo|].
    apply unit_product_monotone; Lqa.lra.
  - intros Hhalf. apply Qsquare_monotone.
    + apply Qmult_le_0_compat; Lqa.lra.
    + assert (Hm : (1 - b) * (1 - (1 - b)) <= (1 - a) * (1 - (1 - a)))
        by (apply unit_product_monotone; Lqa.lra).
      Lqa.lra.
Qed.

(** The theorem between one quarter and one half. *)
Lemma vf_call_is_unimodal_on_a_quarter :
  vf.__call__ (1 # 4) <= 1 # 16
  /\ (vf.__call__ (1 # 4) == 1 # 16 <-> 1 # 4 == 1 # 2)
  /\ (1 # 2 <= 1 # 2 -> vf.__call__ (1 # 4) <= vf.__call__ (1 # 2))
  /\ (1 # 2 <= 1 # 4 -> vf.__call__ (1 # 2) <= vf.__call__ (1 # 4)).
Proof.
  apply (vf_call_is_unimodal (1 # 4) (1 # 2)); unfold Qle; simpl; lia.
Defined.

(** X3: in exact arithmetic (on rationals) [vf.deriv] factors as
    [2 mu (1 - mu) (1 - 2 mu)]: for every rational [mu] it is odd about one
    half, [deriv(1 - mu) = - deriv(mu)]; its zeros are [0], [1/2] and [1];
    it is not negative on [[0, 1/2]] and not positive on [[1/2, 1]]. *)
Theorem vf_deriv_changes_sign_at_one_half (mu : Q) :
  vf.deriv mu == 2 * mu * (1 - mu) * (1 - 2 * mu)
  /\ vf.deriv (1 - mu) == - vf.deriv mu
  /\ (vf.deriv mu == 0 <-> mu == 0 \/ mu == 1 # 2 \/ mu == 1)
  /\ (0 <= mu <= 1 # 2 -> 0 <= vf.deriv mu)
  /\ (1 # 2 <= mu <= 1 -> vf.deriv mu <= 0).
Proof.
  split; [|split; [|split; [|split]]].
  - rewrite vf_deriv_product. ring.
  - rewrite !vf_deriv_product. ring.
  - rewrite vf_deriv_product. split.
    + intros H. destruct (Qmult_integral _ _ H) as [H1|H1].
      * destruct (Qmult_integral _ _ H1) as [H2|H2]; [discriminate|].
        apply unit_product_zero in H2. tauto.
      * right; left. Lqa.lra.
    + intros [H|[H|H]]; rewrite H; reflexivity.
  - intros [H0 H1]. rewrite vf_deriv_product.
    apply Qmult_le_0_compat; [|Lqa.lra].
    apply Qmult_le_0_compat; [Lqa.lra|].
    apply Qmult_le_0_compat; Lqa.lra.
  - intros [H0 H1]. rewrite vf_deriv_product.
    assert (Hneg : 0 <= 2 * (mu * (1 - mu)) * (2 * mu - 1)).
    { apply Qmult_le_0_compat; [|Lqa.lra].
      apply Qmult_le_0_compat; [Lqa.lra|].
      apply Qmult_le_0_compat; Lqa.lra. }
    Lqa.lra.
Qed.

End VarianceShape.

(** ** The preparation cell on other tables *)
Section TenRows.
Import Frame QuasiBinomial FrameRows.

Lemma ten_rows_arith (nc r : nat) :
  (0 < r)%nat ->
  (forall i : nat, (i < nc * r)%nat ->
     (Z.of_nat i / 10 = Z.of_nat (i / r))%Z
     /\ (Z.of_nat i mod 10 = Z.of_nat (i mod r))%Z)
  <-> (r = 10 \/ nc = 0 \/ (nc = 1 /\ r <= 10))%nat.
Proof.
  intros Hr. split.
  - intros H.
    destruct (Nat.eq_dec r 10) as [->|Hne]; [left; reflexivity|].
    destruct nc as [|[|nc]]; [right; left; reflexivity| |].
    + right; right. split; [reflexivity|].
      destruct (Nat.le_gt_cases r 10) as [Hle|Hgt]; [exact Hle|].
      destruct (H 10%nat) as [Hd _]; [lia|].
      rewrite (Nat.div_small 10 r) in Hd by lia. discriminate.
    + exfalso. destruct (Nat.lt_ge_cases r 10) as [Hlt|Hge].
      * destruct (H r) as [Hd _]; [lia|].
        rewrite Nat.div_same in Hd by lia.
        rewrite Z.div_small in Hd by lia. discriminate.
      * destruct (H 10%nat) as [Hd _]; [nia|].
        rewrite (Nat.div_small 10 r) in Hd by lia. discriminate.
  - intros [->|[->|[-> Hle]]] i Hi.
    + change 10%Z with (Z.of_nat 10).
      rewrite <- Nat2Z.inj_div, <- Nat2Z.inj_mod. split; reflexivity.
    + lia.
    + rewrite Nat.div_small, Nat.mod_small by lia.
      rewrite Z.div_small, Z.mod_small by lia. split; reflexivity.
Qed.

(** X4: the preparation cell of the quasi-binomial notebook, run on any
    rectangular table of numbers with [r] rows, gives one row per cell of the
    table, whose blotch value is the cell in column [i / r], row [i mod r],
    over 100.  The labels [site] and [variety] are that column and that row
    (counted from one) in every row of the result exactly when the table has
    ten rows (or no column, or one column of at most ten rows): the divisor
    10 in the cell is the number of rows of the notebook's table. *)
Theorem labels_locate_cells_iff_ten_rows (df0 : frame) (r : nat) :
  (0 < r)%nat ->
  rect r df0 ->
  Forall (fun lc : label * series => Forall (fun c => is_numeric c = true) lc.2)
         (columns df0) ->
  exists out blotch site variety,
    prepare df0 = Some out
    /\ nrows out = (length (columns df0) * r)%nat
    /\ get_column (LStr "blotch") out = Some blotch
    /\ get_column (LStr "site") out = Some site
    /\ get_column (LStr "variety") out = Some variety
    /\ (forall i c, (i < length (columns df0) * r)%nat ->
          cell_at df0 (i / r) (i mod r) = Some c ->
          blotch !! i = div_cell 100 c)
    /\ ((forall i : nat, (i < length (columns df0) * r)%nat ->
           site !! i = Some (CInt (1 + Z.of_nat (i / r)))
           /\ variety !! i = Some (CInt (1 + Z.of_nat (i mod r))))
        <-> (r = 10 \/ length (columns df0) = 0 \/
             (length (columns df0) = 1 /\ r <= 10))%nat).
Proof.
  intros Hr Hrect Hnum.
  destruct (prepare_rows df0 r Hr Hrect Hnum)
    as (blotch & site & variety & Hdf & Hb & Hs & Hv & Hrows).
  eexists _, blotch, site, variety.
  split; [exact Hdf|]. split; [exact Hb|].
  split; [reflexivity|]. split; [reflexivity|]. split; [reflexivity|].
  split.
  - intros i c Hi Hc. destruct (Hrows i Hi) as (_ & _ & Hbi). apply Hbi, Hc.
  - rewrite <- (ten_rows_arith (length (columns df0)) r Hr). split.
    + intros H i Hi. destruct (Hrows i Hi) as (Hsi & Hvi & _).
      destruct (H i Hi) as [Hsi' Hvi'].
      rewrite Hsi in Hsi'. rewrite Hvi in Hvi'.
      injection Hsi' as Hsi'. injection Hvi' as Hvi'. lia.
    + intros H i Hi. destruct (Hrows i Hi) as (Hsi & Hvi & _).
      destruct (H i Hi) as [Hd Hm]. rewrite Hsi, Hvi, Hd, Hm. auto.
Qed.

Lemma raw_frame_numeric :
  Forall (fun lc : label * series => Forall (fun c => is_numeric c = true) lc.2)
         (columns (read_csv_noheader raw)).
Proof.
  eapply Forall_impl; [exact raw_frame_percentages|].
  intros lc Hlc. eapply Forall_impl; [exact Hlc|]. exact percentage_numeric.
Qed.

(** The theorem at the notebook's table of ten rows. *)
Lemma labels_locate_cells_in_the_blotch_table :
  exists out blotch site variety,
    prepare (read_csv_noheader raw) = Some out
    /\ nrows out = (length (columns (read_csv_noheader raw)) * 10)%nat
    /\ get_column (LStr "blotch") out = Some blotch
    /\ get_column (LStr "site") out = Some site
    /\ get_column (LStr "variety") out = Some variety
    /\ (forall i c,
          (i < length (columns (read_csv_noheader raw)) * 10)%nat ->
          cell_at (read_csv_noheader raw) (i / 10) (i mod 10) = Some c ->
          blotch !! i = div_cell 100 c)
    /\ ((forall i : nat,
           (i < length (columns (read_csv_noheader raw)) * 10)%nat ->
           site !! i = Some (CInt (1 + Z.of_nat (i / 10)))
           /\ variety !! i = Some (CInt (1 + Z.of_nat (i mod 10))))
        <-> (10 = 10 \/ length (columns (read_csv_noheader raw)) = 0 \/
             (length (columns (read_csv_noheader raw)) = 1 /\ 10 <= 10))%nat).
Proof.
  apply (labels_locate_cells_iff_ten_rows (read_csv_noheader raw) 10).
  - lia.
  - exact raw_frame_rect.
  - exact raw_frame_numeric.
Defined.

Example five_rows_are_mislabelled :
  let table := mk_frame [ (LInt 0, List.map CInt [1; 2; 3; 4; 5]%Z);
                          (LInt 1, List.map CInt [6; 7; 8; 9; 10]%Z) ] in
  (prepare table ≫= get_column (LStr "site"))
  = Some (List.map CInt [1; 1; 1; 1; 1; 1; 1; 1; 1; 1]%Z)
  /\ cell_at table 1 0 = Some (CInt 6).
Proof. split; reflexivity. Qed.

Lemma div_series_None (d : Z) (s : series) :
  div_series d s = None <-> Exists (fun c => is_numeric c = false) s.
Proof.
  unfold div_series. induction s as [|c s IH].
  - split; [discriminate|]. intros H. inversion H.
  - rewrite Exists_cons, <- IH. cbn.
    destruct c as [z|q| |t]; cbn;
      destruct (mapM (div_cell d) s); cbn;
      split; try discriminate; try tauto;
      intros [H|H]; try discriminate; reflexivity.
Qed.

(** X5: the preparation cell fails (the [TypeError] of [/= 100]) exactly
    when some cell of the table is text; on a table of numbers and missing
    values it always produces a frame. *)
Theorem prepare_fails_exactly_on_text (df0 : frame) :
  prepare df0 = None
  <-> Exists (fun lc : label * series => Exists (fun c => is_numeric c = false) lc.2)
             (columns df0).
Proof.
  rewrite prepare_unfold.
  set (vals := List.flat_map (fun lc : label * series => lc.2) (columns df0)).
  assert (Hvals : Exists (fun c => is_numeric c = false) vals
                  <-> Exists (fun lc : label * series =>
                                Exists (fun c => is_numeric c = false) lc.2)
                             (columns df0)).
  { subst vals. induction (columns df0) as [|lc l IH]; simpl.
    - split; intros H; inversion H.
    - rewrite Exists_app, Exists_cons, IH. reflexivity. }
  rewrite <- Hvals, <- (div_series_None 100).
  destruct (div_series 100 vals); cbn; split; intros H;
    try discriminate; reflexivity.
Qed.

End TenRows.

(** ** Rows, columns and changed elements of arrays *)
Section Views.
Import NdArray.

Lemma ltb_true (a b : nat) : (a < b)%nat -> (a <? b)%nat = true.
Proof. intros H. apply Nat.ltb_lt, H. Qed.

Lemma row_major_injective (n p q i j : nat) :
  (q < n)%nat -> (i < n)%nat -> (p * n + q = j * n + i)%nat -> p = j /\ q = i.
Proof.
  intros Hq Hi H.
  destruct (Nat.lt_trichotomy p j) as [Hlt|[->|Hgt]].
  - assert (Hm : (S p * n <= j * n)%nat) by (apply Nat.mul_le_mono_r; lia).
    simpl in Hm. lia.
  - split; [reflexivity|lia].
  - assert (Hm : (S j * n <= p * n)%nat) by (apply Nat.mul_le_mono_r; lia).
    simpl in Hm. lia.
Qed.

(** The two counts the notebook overwrites in its copy of [dta], and
    nothing else. *)
Example dta_c_differs_from_dta :
  match MetaAnalysis.dta, MetaAnalysis.dta_c with
  | Some a, Some c =>
      shape c = shape a
      /\ List.filter (fun k => negb (nth k (data a) 0 =? nth k (data c) 0)%Z)
                     (seq 0 (length (data a)))
         = [0; 1]%nat
      /\ (get2 a 0 0, get2 c 0 0) = (Some 11%Z, Some 18%Z)
      /\ (get2 a 0 1, get2 c 0 1) = (Some 18%Z, Some 22%Z)
  | _, _ => False
  end.
Proof. vm_compute. repeat split. Qed.

(** The rows of a two-dimensional array, element by element. *)
Lemma rows_get2 (b : ndarray) (m n : nat) :
  shape b = [m; n] -> well_formed b ->
  exists rs, rows b = Some rs
             /\ length rs = m
             /\ forall i row, rs !! i = Some row ->
                  length row = n
                  /\ forall j, (j < n)%nat -> row !! j = get2 b i j.
Proof.
  intros Hsh Hwf. unfold rows. rewrite Hsh.
  eexists. split; [reflexivity|]. split.
  - rewrite length_map, length_seq. reflexivity.
  - intros i row Hrow.
    assert (Hi : (i < m)%nat).
    { apply lookup_lt_Some in Hrow.
      rewrite length_map, length_seq in Hrow. exact Hrow. }
    rewrite lookup_tabulate in Hrow by exact Hi. injection Hrow as <-.
    split; [rewrite length_map, length_seq; reflexivity|].
    intros j Hj. rewrite lookup_tabulate by exact Hj.
    unfold get2. rewrite Hsh, (ltb_true _ _ Hi), (ltb_true _ _ Hj). cbn [andb].
    unfold well_formed in Hwf. rewrite Hsh in Hwf.
    cbn [size_of fold_right] in Hwf.
    assert (Hin : (i * n + j < length (data b))%nat) by nia.
    apply lookup_lt_is_Some in Hin as [x Hx].
    rewrite Hx. f_equal. apply nth_of_lookup, Hx.
Qed.

(** Stacking vectors as columns and transposing gives the array whose rows
    are the vectors. *)
Lemma rows_of_stacked_columns (cols : list (list Z)) (K : nat) :
  cols <> [] ->
  Forall (fun c => length c = K) cols ->
  exists a b,
    column_stack cols = Some a /\ transpose a = Some b
    /\ shape b = [length cols; K]
    /\ rows b = Some cols.
Proof.
  intros Hne Hall.
  destruct (column_stack_get2 cols K Hne Hall) as (a & Ha & Hash & Hawf & Haget).
  destruct (transpose_get2 a K (length cols) Hash Hawf)
    as (b & Hb & Hbsh & Hbwf & Hbget).
  destruct (rows_get2 b (length cols) K Hbsh Hbwf) as (rs & Hrs & Hlen & Hrow).
  exists a, b. split; [exact Ha|]. split; [exact Hb|]. split; [exact Hbsh|].
  rewrite Hrs. f_equal. apply list_eq_same_length with (length cols);
    [reflexivity | exact Hlen |].
  intros i row c Hi Hrowi Hci.
  destruct (Hrow i row Hrowi) as [Hrlen Hrget].
  rewrite Forall_lookup in Hall. specialize (Hall i c Hci). cbn beta in Hall.
  apply list_eq_same_length with K; [exact Hall | exact Hrlen |].
  intros j x y Hj Hx Hy.
  rewrite (Hrget j Hj) in Hx. rewrite Hbget in Hx by lia.
  rewrite (Haget j i c y Hj Hci Hy) in Hx. congruence.
Qed.

End Views.

(** ** Arrays that share memory *)
Section SharedMemory.
Import Strided.

Lemma index_Some (n : nat) (k : Z) (k' : nat) :
  index n k = Some k' ->
  (k' < n)%nat
  /\ ((0 <= k)%Z /\ Z.of_nat k' = k
      \/ (k < 0)%Z /\ Z.of_nat k' = (k + Z.of_nat n)%Z).
Proof.
  unfold index. intros H.
  destruct ((0 <=? k)%Z && (k <? Z.of_nat n)%Z) eqn:H1.
  - injection H as <-. apply andb_true_iff in H1 as [Ha Hb].
    split; [lia|]. left. lia.
  - destruct ((- Z.of_nat n <=? k)%Z && (k <? 0)%Z) eqn:H2; [|discriminate].
    injection H as <-. apply andb_true_iff in H2 as [Ha Hb].
    split; [lia|]. right. lia.
Qed.

Lemma index_in_range (n : nat) (k : Z) :
  is_Some (index n k) <-> (- Z.of_nat n <= k < Z.of_nat n)%Z.
Proof.
  unfold index. split.
  - intros [k' H].
    destruct ((0 <=? k)%Z && (k <? Z.of_nat n)%Z) eqn:H1.
    + apply andb_true_iff in H1 as [Ha Hb]. lia.
    + destruct ((- Z.of_nat n <=? k)%Z && (k <? 0)%Z) eqn:H2; [|discriminate].
      apply andb_true_iff in H2 as [Ha Hb]. lia.
  - intros Hk.
    destruct ((0 <=? k)%Z && (k <? Z.of_nat n)%Z) eqn:H1; [eexists; reflexivity|].
    destruct ((- Z.of_nat n <=? k)%Z && (k <? 0)%Z) eqn:H2; [eexists; reflexivity|].
    exfalso. apply andb_false_iff in H1, H2. lia.
Qed.

Lemma index_of_nat (n p : nat) :
  index n (Z.of_nat p) = if (p <? n)%nat then Some p else None.
Proof.
  unfold index. destruct (p <? n)%nat eqn:Hp.
  - apply Nat.ltb_lt in Hp.
    replace ((0 <=? Z.of_nat p)%Z && (Z.of_nat p <? Z.of_nat n)%Z) with true
      by (symmetry; apply andb_true_iff; lia).
    rewrite Nat2Z.id. reflexivity.
  - apply Nat.ltb_ge in Hp.
    replace ((0 <=? Z.of_nat p)%Z && (Z.of_nat p <? Z.of_nat n)%Z) with false
      by (symmetry; apply andb_false_iff; lia).
    replace ((- Z.of_nat n <=? Z.of_nat p)%Z && (Z.of_nat p <? 0)%Z) with false
      by (symmetry; apply andb_false_iff; lia).
    reflexivity.
Qed.

Lemma positions_lookup (a : view) (p q : nat) :
  (p < rows a)%nat -> (q < cols a)%nat ->
  positions a !! (p * cols a + q)%nat = Some (position a p q).
Proof.
  intros Hp Hq. unfold positions.
  rewrite (lookup_blocks _ (rows a) (cols a)); try assumption.
  - apply lookup_tabulate. exact Hq.
  - intros x. rewrite length_map, length_seq. reflexivity.
Qed.

Lemma positions_length (a : view) :
  length (positions a) = (rows a * cols a)%nat.
Proof.
  unfold positions. apply length_blocks.
  intros x. rewrite length_map, length_seq. reflexivity.
Qed.

(** The elements of a view are what its buffer holds at its positions. *)
Lemma elements_lookup (m : memory) (a : view) (es : list Z) :
  elements m a = Some es ->
  exists b,
    m !! buffer a = Some b
    /\ length es = (rows a * cols a)%nat
    /\ forall p q, (p < rows a)%nat -> (q < cols a)%nat ->
         es !! (p * cols a + q)%nat = b !! position a p q
         /\ is_Some (b !! position a p q).
Proof.
  unfold elements. intros H.
  destruct (m !! buffer a) as [b|] eqn:Hb; [|discriminate]. cbn in H.
  apply mapM_Some in H. exists b. split; [reflexivity|]. split.
  - rewrite <- (Forall2_length _ _ _ H). apply positions_length.
  - intros p q Hp Hq.
    pose proof (positions_lookup a p q Hp Hq) as Hpos.
    destruct (Forall2_lookup_l _ _ _ _ _ H Hpos) as (y & Hy & Hby).
    rewrite Hy, Hby. split; [reflexivity | eexists; reflexivity].
Qed.

(** Reading a view through its elements. *)
Lemma getitem_elements (m : memory) (a : view) (es : list Z) (i j : Z) :
  elements m a = Some es ->
  getitem m a i j
  = i' ← index (rows a) i; j' ← index (cols a) j;
    es !! (i' * cols a + j')%nat.
Proof.
  intros Hes. destruct (elements_lookup m a es Hes) as (b & Hb & _ & Hget).
  unfold getitem.
  destruct (index (rows a) i) as [i'|] eqn:Hi; [|reflexivity].
  destruct (index (cols a) j) as [j'|] eqn:Hj; [|reflexivity].
  cbn. rewrite Hb. cbn.
  apply index_Some in Hi as [Hi _]. apply index_Some in Hj as [Hj _].
  symmetry. apply (Hget i' j' Hi Hj).
Qed.

(** A list read at all its positions, in order. *)
Lemma mapM_lookup_seq (l : list Z) :
  mapM (fun p => l !! p) (seq 0 (length l)) = Some l.
Proof.
  apply mapM_Some. apply Forall2_same_length_lookup. split.
  - apply length_seq.
  - intros i p x Hp Hx. apply lookup_seq in Hp as [-> _]. exact Hx.
Qed.

(** The positions of a view of a whole buffer, row by row, are
    [0, 1, 2, ...]. *)
Lemma positions_contiguous (k r c : nat) :
  positions (mk_view k 0 r c c 1) = seq 0 (r * c).
Proof.
  apply list_eq_same_length with (r * c)%nat.
  - apply length_seq.
  - rewrite positions_length. reflexivity.
  - intros i x y Hi Hx Hy.
    apply lookup_seq in Hy as [-> _].
    assert (Hc : (0 < c)%nat) by (destruct c; [lia | lia]).
    pose proof (Nat.div_mod_eq i c) as Hdm.
    assert (Hq : (i mod c < c)%nat) by (apply Nat.mod_upper_bound; lia).
    assert (Hp : (i / c < r)%nat)
      by (apply Nat.Div0.div_lt_upper_bound; lia).
    pose proof (positions_lookup (mk_view k 0 r c c 1) (i / c) (i mod c) Hp Hq)
      as Hpos.
    cbn [rows cols] in Hpos.
    replace (i / c * c + i mod c)%nat with i in Hpos by lia.
    rewrite Hpos in Hx. injection Hx as <-.
    unfold position. cbn. lia.
Qed.

Lemma elements_contiguous (m : memory) (k r c : nat) (es : list Z) :
  m !! k = Some es -> length es = (r * c)%nat ->
  elements m (mk_view k 0 r c c 1) = Some es.
Proof.
  intros Hk Hlen. unfold elements. cbn [buffer]. rewrite Hk.
  cbn [mbind option_bind].
  rewrite positions_contiguous, <- Hlen. apply mapM_lookup_seq.
Qed.

(** X6: what [dta_c = dta.copy()] followed by [dta_c.T[i, j] = x] does, as
    in [dta_c.T[0, 0] = 18], for an array [dta] in any layout of memory.
    The copy shows the elements of [dta] in a buffer of its own.  The
    assignment through the transposed view succeeds exactly when [i] is an
    index of the columns and [j] an index of the rows of [dta_c], negative
    indices counting from the end, and [x] fits [int64].  It then writes the
    copy itself: [dta_c.T[i, j]] and [dta_c[j, i]] are [x], every other
    element of [dta_c] is as in [dta], and [dta] is unchanged.  The array
    [dta_c] shows afterwards is the one [NdArray.set_through_T] computes. *)
Theorem write_through_transposed_view
    (m : memory) (dta : view) (es : list Z) (i j x : Z) :
  elements m dta = Some es ->
  exists m1 dta_c,
    copy m dta = Some (m1, dta_c)
    /\ rows dta_c = rows dta /\ cols dta_c = cols dta
    /\ buffer dta_c <> buffer dta
    /\ buffer (T dta_c) = buffer dta_c
    /\ (forall p q, getitem m1 dta_c p q = getitem m dta p q)
    /\ match index (cols dta) i, index (rows dta) j with
       | Some i', Some j' =>
           if int64 x
           then exists m2,
                  setitem m1 (T dta_c) i j x = Some m2
                  /\ getitem m2 (T dta_c) i j = Some x
                  /\ getitem m2 dta_c (Z.of_nat j') (Z.of_nat i') = Some x
                  /\ (forall p q : nat,
                        (p, q) <> (j', i') ->
                        getitem m2 dta_c (Z.of_nat p) (Z.of_nat q)
                        = getitem m dta (Z.of_nat p) (Z.of_nat q))
                  /\ (forall p q, getitem m2 dta p q = getitem m dta p q)
                  /\ to_array m2 dta_c
                     = (to_array m1 dta_c
                          ≫= fun a => NdArray.set_through_T a i' j' x)
           else setitem m1 (T dta_c) i j x = None
       | _, _ => setitem m1 (T dta_c) i j x = None
       end.
Proof.
  intros Hes.
  destruct (elements_lookup m dta es Hes) as (b & Hb & Hlen & Hget).
  set (R := rows dta) in *. set (C := cols dta) in *.
  set (c := mk_view (length m) 0 R C C 1).
  set (m1 := (m ++ [es])%list).
  assert (Hbuf : (buffer dta < length m)%nat) by (eapply lookup_lt_Some, Hb).
  assert (Hm1 : m1 !! length m = Some es).
  { unfold m1. rewrite lookup_app_r by lia. rewrite Nat.sub_diag. reflexivity. }
  assert (Hc : elements m1 c = Some es)
    by (apply elements_contiguous; assumption).
  exists m1, c.
  split; [unfold copy; rewrite Hes; reflexivity|].
  split; [reflexivity|]. split; [reflexivity|].
  split; [cbn; lia|]. split; [reflexivity|].
  split.
  { intros p q.
    rewrite (getitem_elements m1 c es p q Hc), (getitem_elements m dta es p q Hes).
    reflexivity. }
  unfold setitem.
  change (rows (T c)) with C. change (cols (T c)) with R.
  change (buffer (T c)) with (length m).
  destruct (index C i) as [i'|] eqn:Hi; [|reflexivity].
  destruct (index R j) as [j'|] eqn:Hj; [|reflexivity].
  cbn [mbind option_bind]. rewrite Hm1. cbn [mbind option_bind].
  destruct (int64 x) eqn:Hx; [|reflexivity].
  pose proof (index_Some _ _ _ Hi) as [Hi' _].
  pose proof (index_Some _ _ _ Hj) as [Hj' _].
  assert (Hpos : position (T c) i' j' = (j' * C + i')%nat)
    by (unfold position; cbn; lia).
  rewrite Hpos.
  assert (Hin : (j' * C + i' < length es)%nat) by (rewrite Hlen; nia).
  rewrite (ltb_true _ _ Hin). cbn [andb].
  set (es' := <[(j' * C + i')%nat := x]> es).
  set (m2 := <[length m := es']> m1).
  assert (Hm2 : m2 !! length m = Some es').
  { unfold m2. apply list_lookup_insert_eq.
    unfold m1. rewrite length_app. cbn. lia. }
  assert (Hlen' : length es' = (R * C)%nat)
    by (unfold es'; rewrite length_insert; exact Hlen).
  assert (Hc2 : elements m2 c = Some es')
    by (apply elements_contiguous; assumption).
  assert (Hdta2 : elements m2 dta = Some es).
  { unfold elements in Hes |- *. unfold m2.
    rewrite list_lookup_insert_ne by lia.
    unfold m1. rewrite lookup_app_l by lia. exact Hes. }
  exists m2. split; [reflexivity|].
  split.
  { unfold getitem.
    change (rows (T c)) with C. change (cols (T c)) with R.
    change (buffer (T c)) with (length m). rewrite Hi, Hj.
    cbn [mbind option_bind]. rewrite Hm2. cbn [mbind option_bind].
    rewrite Hpos. unfold es'. apply list_lookup_insert_eq. exact Hin. }
  split.
  { rewrite (getitem_elements m2 c es' _ _ Hc2).
    change (rows c) with R. change (cols c) with C.
    rewrite !index_of_nat, (ltb_true _ _ Hi'), (ltb_true _ _ Hj').
    cbn [mbind option_bind].
    unfold es'. apply list_lookup_insert_eq. exact Hin. }
  split.
  { intros p q Hne.
    rewrite (getitem_elements m2 c es' _ _ Hc2),
            (getitem_elements m dta es _ _ Hes).
    change (rows c) with R. change (cols c) with C.
    change (rows dta) with R. change (cols dta) with C.
    rewrite !index_of_nat.
    destruct (p <? R)%nat eqn:Hp; [|reflexivity].
    destruct (q <? C)%nat eqn:Hq; [|reflexivity].
    cbn [mbind option_bind].
    apply Nat.ltb_lt in Hq.
    unfold es'. apply list_lookup_insert_ne.
    intros Heq. apply Hne.
    destruct (row_major_injective C p q i' j' Hq Hi') as [-> ->];
      [lia | reflexivity]. }
  split.
  { intros p q.
    rewrite (getitem_elements m2 dta es _ _ Hdta2),
            (getitem_elements m dta es _ _ Hes).
    reflexivity. }
  unfold to_array. rewrite Hc2, Hc. cbn [mbind option_bind].
  change (rows c) with R. change (cols c) with C.
  unfold NdArray.set_through_T, NdArray.set2. cbn [NdArray.shape NdArray.data].
  rewrite (ltb_true _ _ Hi'), (ltb_true _ _ Hj'). reflexivity.
Qed.

(** The theorem at a 2 x 3 array stored column by column: element [0, 2] of
    the copy is written through index [-1, 0] of its transposed view. *)
Lemma write_through_transposed_view_2_by_3 :
  let m := [[1; 4; 2; 5; 3; 6]%Z] in
  let dta := mk_view 0 0 2 3 1 2 in
  exists m1 dta_c,
    copy m dta = Some (m1, dta_c)
    /\ rows dta_c = rows dta /\ cols dta_c = cols dta
    /\ buffer dta_c <> buffer dta
    /\ buffer (T dta_c) = buffer dta_c
    /\ (forall p q, getitem m1 dta_c p q = getitem m dta p q)
    /\ match index (cols dta) (-1), index (rows dta) 0 with
       | Some i', Some j' =>
           if int64 9
           then exists m2,
                  setitem m1 (T dta_c) (-1) 0 9 = Some m2
                  /\ getitem m2 (T dta_c) (-1) 0 = Some 9%Z
                  /\ getitem m2 dta_c (Z.of_nat j') (Z.of_nat i') = Some 9%Z
                  /\ (forall p q : nat,
                        (p, q) <> (j', i') ->
                        getitem m2 dta_c (Z.of_nat p) (Z.of_nat q)
                        = getitem m dta (Z.of_nat p) (Z.of_nat q))
                  /\ (forall p q, getitem m2 dta p q = getitem m dta p q)
                  /\ to_array m2 dta_c
                     = (to_array m1 dta_c
                          ≫= fun a => NdArray.set_through_T a i' j' 9)
           else setitem m1 (T dta_c) (-1) 0 9 = None
       | _, _ => setitem m1 (T dta_c) (-1) 0 9 = None
       end.
Proof.
  apply (write_through_transposed_view
           [[1; 4; 2; 5; 3; 6]%Z] (mk_view 0 0 2 3 1 2) [1; 2; 3; 4; 5; 6]%Z
           (-1) 0 9).
  reflexivity.
Defined.

(** Without the copy the assignment would change [dta], and with it every
    other view of its buffer. *)
Example views_share_their_buffer :
  let m := [[1; 4; 2; 5; 3; 6]%Z] in
  let dta := mk_view 0 0 2 3 1 2 in
  (m' ← setitem m (T dta) (-1) 0 9; to_array m' dta)
  = Some (NdArray.mk_array [2; 3]%nat [1; 2; 9; 4; 5; 6]%Z)
  /\ to_array m dta = Some (NdArray.mk_array [2; 3]%nat [1; 2; 3; 4; 5; 6]%Z)
  /\ setitem m (T dta) 3 0 9 = None
  /\ setitem m (T dta) 0 0 (2 ^ 63) = None.
Proof. repeat split; reflexivity. Qed.

End SharedMemory.

(** ** The vectors unpacked from a frame *)
Section Unpacking.
Import Frame NdArray MetaAnalysis.

Lemma mapM_int_of_cell (c : list Z) :
  mapM int_of_cell (List.map CInt c) = Some c.
Proof.
  induction c as [|z c IH]; [reflexivity|].
  cbn. rewrite IH. reflexivity.
Qed.

(** X7: selecting four integer columns of one length from a frame and
    unpacking the transposed values, as in
    [count1, nobs1, count2, nobs2 = df_12y.values.T], binds the four names to
    the four columns, in the order they were selected; the array has one row
    per column. *)
Theorem unpacked_vectors_are_selected_columns
    (df : frame) (l1 l2 l3 l4 : label) (c1 c2 c3 c4 : list Z) :
  get_column l1 df = Some (List.map CInt c1) ->
  get_column l2 df = Some (List.map CInt c2) ->
  get_column l3 df = Some (List.map CInt c3) ->
  get_column l4 df = Some (List.map CInt c4) ->
  length c2 = length c1 -> length c3 = length c1 -> length c4 = length c1 ->
  exists sel a,
    select [l1; l2; l3; l4] df = Some sel
    /\ (values sel ≫= transpose) = Some a
    /\ shape a = [4%nat; length c1]
    /\ unpack4 a = Some (c1, c2, c3, c4).
Proof.
  intros H1 H2 H3 H4 Hl2 Hl3 Hl4.
  destruct (rows_of_stacked_columns [c1; c2; c3; c4] (length c1))
    as (v & a & Hv & Ha & Hsh & Hrows).
  { discriminate. }
  { repeat constructor; assumption. }
  eexists _, a. split.
  { unfold select. cbn. rewrite H1, H2, H3, H4. reflexivity. }
  split.
  { unfold values. cbn [columns].
    cbn -[column_stack transpose]. rewrite !mapM_int_of_cell.
    cbn -[column_stack transpose]. rewrite Hv. exact Ha. }
  split; [exact Hsh|].
  unfold unpack4. rewrite Hrows. reflexivity.
Qed.

(** The theorem at the frame [df3] of the notebook and the columns [e2i],
    [nei], [c2i] and [nci]. *)
Lemma unpacked_vectors_of_df3 :
  exists sel a,
    select [LStr "e2i"; LStr "nei"; LStr "c2i"; LStr "nci"] df3 = Some sel
    /\ (values sel ≫= transpose) = Some a
    /\ shape a
       = [4%nat;
          length [11; 18; 21; 14; 42; 80; 13; 37; 23; 19; 106; 170; 34; 18;
                  13; 12; 42]%Z]
    /\ unpack4 a
       = Some ([11; 18; 21; 14; 42; 80; 13; 37; 23; 19; 106; 170; 34; 18;
                13; 12; 42]%Z, nt, c, nc).
Proof.
  apply (unpacked_vectors_are_selected_columns df3
           (LStr "e2i") (LStr "nei") (LStr "c2i") (LStr "nci")
           [11; 18; 21; 14; 42; 80; 13; 37; 23; 19; 106; 170; 34; 18;
            13; 12; 42]%Z nt c nc);
    vm_compute; reflexivity.
Defined.

End Unpacking.

(** ** 64-bit arithmetic *)
Section Int64Facts.
Local Open Scope Z_scope.

Lemma wrap_in_range (z : Z) : Int64.in_range (Int64.wrap z).
Proof.
  unfold Int64.in_range, Int64.wrap.
  pose proof (Z.mod_pos_bound (z + 2 ^ 63) (2 ^ 64) ltac:(lia)). lia.
Qed.

Lemma wrap_exact (z : Z) : Int64.in_range z -> Int64.wrap z = z.
Proof.
  unfold Int64.in_range, Int64.wrap. intros H.
  rewrite Z.mod_small by lia. lia.
Qed.

(** The sign of a wrapped difference of two 64-bit integers, the second one
    not negative: it is not negative when the difference is not, and when
    the difference lies below the 64-bit range. *)
Lemma sub_nonneg (a b : Z) :
  Int64.in_range a -> Int64.in_range b -> 0 <= b ->
  (0 <= Int64.sub a b <-> b <= a \/ a - b < - 2 ^ 63).
Proof.
  unfold Int64.in_range, Int64.sub, Int64.wrap. intros Ha Hb H0.
  destruct (Z_lt_ge_dec (a - b) (- 2 ^ 63)) as [Hlow|Hin].
  - replace ((a - b + 2 ^ 63) mod 2 ^ 64) with (a - b + 2 ^ 63 + 2 ^ 64).
    + lia.
    + apply Z.mod_unique with (q := -1); lia.
  - rewrite Z.mod_small by lia. lia.
Qed.

Lemma elementwise_lookup (op : Z -> Z -> Z) (a b : list Z) :
  length a = length b ->
  exists d, Int64.elementwise op a b = Some d
            /\ length d = length a
            /\ forall k x y, a !! k = Some x -> b !! k = Some y ->
                             d !! k = Some (op x y).
Proof.
  intros Hlen. unfold Int64.elementwise. rewrite Hlen, Nat.eqb_refl.
  eexists. split; [reflexivity|]. split.
  - rewrite length_map, length_combine. lia.
  - intros k x y Ha Hb. rewrite lookup_map.
    assert (Hab : combine a b !! k = Some (x, y)).
    { clear Hlen. revert b k Ha Hb.
      induction a as [|a0 a IH]; intros [|b0 b] [|k] Ha Hb;
        simpl in *; try discriminate.
      - congruence.
      - apply IH; assumption. }
    rewrite Hab. reflexivity.
Qed.

End Int64Facts.

(** ** Tables of valid counts *)
Section ValidCounts.
Import NdArray StratifiedCounts.
Local Open Scope Z_scope.

(** The cells of the tables, by position: cell [x, y] of table [k] is
    element [k] of the vector number [2 x + y] of [t], [nt - t], [c],
    [nc - c]. *)
Lemma ctables_cells (t nt c nc : list Z) (K : nat) :
  length t = K -> length nt = K -> length c = K -> length nc = K ->
  exists ct nt_t nc_c,
    ctables t nt c nc = Some ct
    /\ shape ct = [2%nat; 2%nat; K]
    /\ length nt_t = K /\ length nc_c = K
    /\ (forall k x y, nt !! k = Some x -> t !! k = Some y ->
          nt_t !! k = Some (Int64.sub x y))
    /\ (forall k x y, nc !! k = Some x -> c !! k = Some y ->
          nc_c !! k = Some (Int64.sub x y))
    /\ forall (x y k : nat) col,
         (x < 2)%nat -> (y < 2)%nat -> (k < K)%nat ->
         [t; nt_t; c; nc_c] !! (x * 2 + y)%nat = Some col ->
         get3 ct x y k = col !! k.
Proof.
  intros Ht Hnt Hc Hnc.
  destruct (elementwise_lookup Int64.sub nt t) as (nt_t & Hsub1 & Hlen1 & Hd1);
    [lia|].
  destruct (elementwise_lookup Int64.sub nc c) as (nc_c & Hsub2 & Hlen2 & Hd2);
    [lia|].
  destruct (column_stack_get2 [t; nt_t; c; nc_c] K) as
    (cnt & Hcnt & Hcsh & Hcwf & Hcget).
  { discriminate. }
  { repeat constructor; lia. }
  destruct (transpose_get2 cnt K 4 Hcsh Hcwf) as (cT & HcT & HTsh & HTwf & HTget).
  destruct (reshape_2_2_get3 cT K HTsh HTwf) as (ct & Hct & Hctsh & _ & Hctget).
  exists ct, nt_t, nc_c.
  split.
  { unfold ctables, counts. rewrite Hsub1. cbn [mbind option_bind].
    rewrite Hsub2. cbn [mbind option_bind]. rewrite Hcnt.
    cbn [mbind option_bind]. rewrite HcT. cbn [mbind option_bind]. exact Hct. }
  split; [exact Hctsh|]. split; [lia|]. split; [lia|].
  split; [exact Hd1|]. split; [exact Hd2|].
  intros x y k col Hx Hy Hk Hcol.
  assert (Hlen : length col = K).
  { assert (Hall : Forall (fun v : list Z => length v = K) [t; nt_t; c; nc_c])
      by (repeat constructor; lia).
    rewrite Forall_lookup in Hall. exact (Hall _ _ Hcol). }
  assert (Hin : (k < length col)%nat) by lia.
  apply lookup_lt_is_Some in Hin as [v Hv].
  rewrite Hctget by lia. rewrite HTget by lia. rewrite Hv.
  eapply Hcget; eauto.
Qed.

(** Every cell of every table is non-negative exactly when the four cells of
    every stratum are. *)
Lemma ctables_nonnegative (t nt c nc : list Z) (K : nat) :
  length t = K -> length nt = K -> length c = K -> length nc = K ->
  exists ct,
    ctables t nt c nc = Some ct
    /\ ((forall (x y k : nat) (v : Z), get3 ct x y k = Some v -> 0 <= v)
        <-> (forall (k : nat) (t_k nt_k c_k nc_k : Z),
               t !! k = Some t_k -> nt !! k = Some nt_k ->
               c !! k = Some c_k -> nc !! k = Some nc_k ->
               0 <= t_k /\ 0 <= Int64.sub nt_k t_k
               /\ 0 <= c_k /\ 0 <= Int64.sub nc_k c_k)).
Proof.
  intros Ht Hnt Hc Hnc.
  destruct (ctables_cells t nt c nc K Ht Hnt Hc Hnc)
    as (ct & nt_t & nc_c & Hct & Hsh & Hl1 & Hl2 & Hd1 & Hd2 & Hcell).
  exists ct. split; [exact Hct|]. split.
  - intros Hpos k t_k nt_k c_k nc_k Htk Hntk Hck Hnck.
    assert (Hk : (k < K)%nat) by (rewrite <- Ht; eapply lookup_lt_Some, Htk).
    pose proof (Hcell 0%nat 0%nat k t ltac:(lia) ltac:(lia) Hk eq_refl) as H00.
    pose proof (Hcell 0%nat 1%nat k nt_t ltac:(lia) ltac:(lia) Hk eq_refl) as H01.
    pose proof (Hcell 1%nat 0%nat k c ltac:(lia) ltac:(lia) Hk eq_refl) as H10.
    pose proof (Hcell 1%nat 1%nat k nc_c ltac:(lia) ltac:(lia) Hk eq_refl) as H11.
    rewrite Htk in H00. rewrite (Hd1 _ _ _ Hntk Htk) in H01.
    rewrite Hck in H10. rewrite (Hd2 _ _ _ Hnck Hck) in H11.
    apply Hpos in H00, H01, H10, H11. auto.
  - intros Hvalid x y k v Hv.
    assert (Hrange : (x < 2)%nat /\ (y < 2)%nat /\ (k < K)%nat).
    { unfold get3 in Hv. rewrite Hsh in Hv.
      destruct (x <? 2)%nat eqn:Hx; [|discriminate].
      destruct (y <? 2)%nat eqn:Hy; [|discriminate].
      destruct (k <? K)%nat eqn:Hk; [|discriminate].
      apply Nat.ltb_lt in Hx, Hy, Hk. auto. }
    destruct Hrange as (Hx & Hy & Hk).
    destruct (lookup_lt_is_Some_2 t k) as [t_k Htk]; [lia|].
    destruct (lookup_lt_is_Some_2 nt k) as [nt_k Hntk]; [lia|].
    destruct (lookup_lt_is_Some_2 c k) as [c_k Hck]; [lia|].
    destruct (lookup_lt_is_Some_2 nc k) as [nc_k Hnck]; [lia|].
    destruct (Hvalid k t_k nt_k c_k nc_k Htk Hntk Hck Hnck)
      as (H1 & H2 & H3 & H4).
    destruct x as [|[|x]]; [| |lia]; (destruct y as [|[|y]]; [| |lia]).
    + rewrite (Hcell 0%nat 0%nat k t) in Hv by (try lia; reflexivity).
      rewrite Htk in Hv. injection Hv as <-. exact H1.
    + rewrite (Hcell 0%nat 1%nat k nt_t) in Hv by (try lia; reflexivity).
      rewrite (Hd1 _ _ _ Hntk Htk) in Hv. injection Hv as <-. exact H2.
    + rewrite (Hcell 1%nat 0%nat k c) in Hv by (try lia; reflexivity).
      rewrite Hck in Hv. injection Hv as <-. exact H3.
    + rewrite (Hcell 1%nat 1%nat k nc_c) in Hv by (try lia; reflexivity).
      rewrite (Hd2 _ _ _ Hnck Hck) in Hv. injection Hv as <-. exact H4.
Qed.

(** X8: the construction of the 2 x 2 x K tables does not check its input.
    For four [int64] vectors of one length, as the rows of [dta_c] are,
    every cell of every table is non-negative exactly when, in every
    stratum, [t_k] and [c_k] are not negative and each of the differences
    [nt_k - t_k] and [nc_k - c_k] is either not negative or below [-2^63],
    where the subtraction of [int64] wraps around to a positive number.
    When no group size is negative, that is exactly when every stratum has
    valid counts, [0 <= t_k <= nt_k] and [0 <= c_k <= nc_k]. *)
Theorem ctables_nonnegative_iff_valid_counts (t nt c nc : list Z) (K : nat) :
  length t = K -> length nt = K -> length c = K -> length nc = K ->
  Forall Int64.in_range t -> Forall Int64.in_range nt ->
  Forall Int64.in_range c -> Forall Int64.in_range nc ->
  exists ct,
    ctables t nt c nc = Some ct
    /\ ((forall (x y k : nat) (v : Z), get3 ct x y k = Some v -> 0 <= v)
        <-> (forall (k : nat) (t_k nt_k c_k nc_k : Z),
               t !! k = Some t_k -> nt !! k = Some nt_k ->
               c !! k = Some c_k -> nc !! k = Some nc_k ->
               0 <= t_k /\ (t_k <= nt_k \/ nt_k - t_k < - 2 ^ 63)
               /\ 0 <= c_k /\ (c_k <= nc_k \/ nc_k - c_k < - 2 ^ 63)))
    /\ (Forall (fun n => 0 <= n) nt -> Forall (fun n => 0 <= n) nc ->
        ((forall (x y k : nat) (v : Z), get3 ct x y k = Some v -> 0 <= v)
         <-> (forall (k : nat) (t_k nt_k c_k nc_k : Z),
                t !! k = Some t_k -> nt !! k = Some nt_k ->
                c !! k = Some c_k -> nc !! k = Some nc_k ->
                0 <= t_k <= nt_k /\ 0 <= c_k <= nc_k))).
Proof.
  intros Ht Hnt Hc Hnc Rt Rnt Rc Rnc.
  destruct (ctables_nonnegative t nt c nc K Ht Hnt Hc Hnc) as (ct & Hct & Hiff).
  rewrite Forall_lookup in Rt, Rnt, Rc, Rnc.
  exists ct. split; [exact Hct|]. split.
  - rewrite Hiff. split.
    + intros H k t_k nt_k c_k nc_k Htk Hntk Hck Hnck.
      destruct (H k t_k nt_k c_k nc_k Htk Hntk Hck Hnck) as (H1 & H2 & H3 & H4).
      split; [exact H1|].
      split; [apply (sub_nonneg nt_k t_k); eauto|].
      split; [exact H3|]. apply (sub_nonneg nc_k c_k); eauto.
    + intros H k t_k nt_k c_k nc_k Htk Hntk Hck Hnck.
      destruct (H k t_k nt_k c_k nc_k Htk Hntk Hck Hnck) as (H1 & H2 & H3 & H4).
      split; [exact H1|].
      split; [apply (sub_nonneg nt_k t_k); eauto|].
      split; [exact H3|]. apply (sub_nonneg nc_k c_k); eauto.
  - intros Pnt Pnc. rewrite Forall_lookup in Pnt, Pnc.
    rewrite Hiff. split.
    + intros H k t_k nt_k c_k nc_k Htk Hntk Hck Hnck.
      destruct (H k t_k nt_k c_k nc_k Htk Hntk Hck Hnck) as (H1 & H2 & H3 & H4).
      apply (sub_nonneg nt_k t_k) in H2; eauto.
      apply (sub_nonneg nc_k c_k) in H4; eauto.
      pose proof (Pnt _ _ Hntk). pose proof (Pnc _ _ Hnck).
      pose proof (Rt _ _ Htk) as [? ?]. pose proof (Rc _ _ Hck) as [? ?].
      lia.
    + intros H k t_k nt_k c_k nc_k Htk Hntk Hck Hnck.
      destruct (H k t_k nt_k c_k nc_k Htk Hntk Hck Hnck) as ([H1 H2] & [H3 H4]).
      split; [exact H1|].
      split; [apply (sub_nonneg nt_k t_k); eauto|].
      split; [exact H3|]. apply (sub_nonneg nc_k c_k); eauto.
Qed.

Lemma small_in_range (l : list Z) :
  forallb (fun z => (- 2 ^ 63 <=? z) && (z <? 2 ^ 63)) l = true ->
  Forall Int64.in_range l.
Proof.
  intros H. eapply Forall_impl; [apply forallb_Forall, H|].
  intros z Hz. cbn beta in Hz. apply andb_true_iff in Hz as [H1 H2].
  unfold Int64.in_range. lia.
Qed.

(** The theorem at the notebook's vectors. *)
Lemma notebook_ctables_nonnegative_iff_valid_counts :
  exists ct,
    StratifiedCounts.ctables MetaAnalysis.t MetaAnalysis.nt
                             MetaAnalysis.c MetaAnalysis.nc = Some ct
    /\ ((forall (x y k : nat) (v : Z), get3 ct x y k = Some v -> 0 <= v)
        <-> (forall (k : nat) (t_k nt_k c_k nc_k : Z),
               MetaAnalysis.t !! k = Some t_k ->
               MetaAnalysis.nt !! k = Some nt_k ->
               MetaAnalysis.c !! k = Some c_k ->
               MetaAnalysis.nc !! k = Some nc_k ->
               0 <= t_k /\ (t_k <= nt_k \/ nt_k - t_k < - 2 ^ 63)
               /\ 0 <= c_k /\ (c_k <= nc_k \/ nc_k - c_k < - 2 ^ 63)))
    /\ (Forall (fun n => 0 <= n) MetaAnalysis.nt ->
        Forall (fun n => 0 <= n) MetaAnalysis.nc ->
        ((forall (x y k : nat) (v : Z), get3 ct x y k = Some v -> 0 <= v)
         <-> (forall (k : nat) (t_k nt_k c_k nc_k : Z),
                MetaAnalysis.t !! k = Some t_k ->
                MetaAnalysis.nt !! k = Some nt_k ->
                MetaAnalysis.c !! k = Some c_k ->
                MetaAnalysis.nc !! k = Some nc_k ->
                0 <= t_k <= nt_k /\ 0 <= c_k <= nc_k))).
Proof.
  apply (ctables_nonnegative_iff_valid_counts
           MetaAnalysis.t MetaAnalysis.nt MetaAnalysis.c MetaAnalysis.nc 17);
    try reflexivity; apply small_in_range; reflexivity.
Defined.

(** The counts of the notebook are valid, also after the two changes, and
    far from the 64-bit range: on them the tables are those of unbounded
    integers. *)
Example notebook_counts_are_valid :
  forallb (fun k => (0 <=? nth k MetaAnalysis.t 0)
                    && (nth k MetaAnalysis.t 0 <=? nth k MetaAnalysis.nt 0)
                    && (0 <=? nth k MetaAnalysis.c 0)
                    && (nth k MetaAnalysis.c 0 <=? nth k MetaAnalysis.nc 0))
          (seq 0 17) = true
  /\ StratifiedCounts.ctables MetaAnalysis.t MetaAnalysis.nt
                              MetaAnalysis.c MetaAnalysis.nc
     = MetaAnalysis.ctables MetaAnalysis.t MetaAnalysis.nt
                            MetaAnalysis.c MetaAnalysis.nc.
Proof. split; reflexivity. Qed.

(** Counts that are not valid and give tables without a negative cell: one
    event in a group of size [-2^63]. *)
Example wrapped_difference_hides_invalid_counts :
  option_map data (StratifiedCounts.ctables [1] [- 2 ^ 63] [0] [0])
  = Some [1; 2 ^ 63 - 1; 0; 0].
Proof. vm_compute. reflexivity. Qed.

End ValidCounts.

(** ** The vectors of the first meta-analysis example *)
Section SmdVectors.
Import Frame NdArray MetaAnalysis FrameRows SmdExample.
Local Open Scope Z_scope.

Example data_is_the_rows_of_its_studies : data = List.map row_of studies.
Proof. reflexivity. Qed.

Example nobs_of_data :
  nobs <$> unpack_studies data = Some [120; 130; 80; 400; 95; 170].
Proof. vm_compute. reflexivity. Qed.

(** Sample sizes near the end of the 64-bit range: their sum wraps
    around. *)
Example nobs_wraps_around :
  nobs <$> unpack_studies
             [[CStr "large"; CInt 0; CInt 1; CInt (2 ^ 63 - 1); CInt 0; CInt 1; CInt 3]]
  = Some [- 2 ^ 63 + 2].
Proof. vm_compute. reflexivity. Qed.

Lemma first_items_rows (l : list study) :
  first_items (List.map row_of l)
  = Some (List.map (fun s => CStr (name s)) l).
Proof.
  unfold first_items. induction l as [|s l IH]; [reflexivity|].
  cbn. cbn in IH. rewrite IH. reflexivity.
Qed.

Lemma width_rows (l : list study) :
  l <> [] -> width (List.map row_of l) = 7%nat.
Proof.
  unfold width. induction l as [|s l IH]; [congruence|]. intros _.
  destruct l as [|s' l]; [reflexivity|].
  cbn [List.map fold_right] in *. rewrite IH by discriminate. reflexivity.
Qed.

Lemma infer_cells_fixed (cells : series) :
  Forall (fun c => to_float c = c) cells -> infer_cells cells = cells.
Proof.
  intros Hall. unfold infer_cells.
  destruct (forallb is_int cells); [reflexivity|].
  destruct (forallb is_numeric cells); [|reflexivity].
  induction Hall as [|c l Hc _ IH]; [reflexivity|].
  cbn [List.map]. rewrite Hc, IH. reflexivity.
Qed.

Lemma infer_cells_int {A : Type} (f : A -> Z) (l : list A) :
  infer_cells (List.map (fun a => CInt (f a)) l)
  = List.map (fun a => CInt (f a)) l.
Proof.
  unfold infer_cells.
  replace (forallb is_int (List.map (fun a => CInt (f a)) l)) with true;
    [reflexivity|].
  induction l as [|z l IH]; [reflexivity|]. exact IH.
Qed.

Lemma infer_cells_str {A : Type} (f : A -> string) (l : list A) :
  infer_cells (List.map (fun a => CStr (f a)) l)
  = List.map (fun a => CStr (f a)) l.
Proof.
  apply infer_cells_fixed. induction l; constructor; [reflexivity|assumption].
Qed.

Lemma infer_cells_float {A : Type} (f : A -> Q) (l : list A) :
  infer_cells (List.map (fun a => CFloat (f a)) l)
  = List.map (fun a => CFloat (f a)) l.
Proof.
  apply infer_cells_fixed. induction l; constructor; [reflexivity|assumption].
Qed.

Lemma from_rows_nonempty (rows : list (list cell)) (names : list string) :
  rows <> [] ->
  from_rows rows names =
  if (width rows =? length names)%nat
  then Some (mk_frame
               (imap (fun j n =>
                        (LStr n,
                         infer_cells (List.map (fun row => nth j row CNaN) rows)))
                     names))
  else None.
Proof. destruct rows; [congruence|reflexivity]. Qed.

Lemma vec_add_columns {A : Type} (f g : A -> Z) (l : list A) :
  vec_add (List.map f l) (List.map g l)
  = Some (List.map (fun a => Int64.add (f a) (g a)) l).
Proof.
  unfold vec_add, Int64.elementwise. rewrite !length_map, Nat.eqb_refl. f_equal.
  induction l as [|a l IH]; [reflexivity|]. cbn. rewrite IH. reflexivity.
Qed.

Lemma unpack_studies_rows (l : list study) :
  l <> [] ->
  unpack_studies (List.map row_of l)
  = Some (mk_vectors
            (List.map (fun s => CStr (name s)) l)
            (List.map (fun s => CStr (name s)) l)
            (List.map mean_t l) (List.map sd_t l) (List.map n_t l)
            (List.map mean_c l) (List.map sd_c l) (List.map n_c l)
            (List.map (fun s => Int64.add (n_c s) (n_t s)) l)).
Proof.
  intros Hne. unfold unpack_studies.
  rewrite first_items_rows. cbn [mbind option_bind].
  assert (Hframe : from_rows (List.map row_of l) colnames
          = Some (mk_frame
                    [ (LStr "study", List.map (fun s => CStr (name s)) l);
                      (LStr "mean_t", List.map CInt (List.map mean_t l));
                      (LStr "sd_t", List.map CInt (List.map sd_t l));
                      (LStr "n_t", List.map CInt (List.map n_t l));
                      (LStr "mean_c", List.map CInt (List.map mean_c l));
                      (LStr "sd_c", List.map CInt (List.map sd_c l));
                      (LStr "n_c", List.map CInt (List.map n_c l)) ])).
  { rewrite from_rows_nonempty by (destruct l; [congruence|discriminate]).
    rewrite (width_rows l Hne).
    unfold colnames. cbn [imap length Nat.eqb compose].
    rewrite !map_map. cbn [nth row_of].
    rewrite infer_cells_str, !infer_cells_int. reflexivity. }
  rewrite Hframe. cbn [mbind option_bind].
  destruct (rows_of_stacked_columns
              [ List.map mean_t l; List.map sd_t l; List.map n_t l;
                List.map mean_c l; List.map sd_c l; List.map n_c l ]
              (length l)) as (a & aT & Ha & HaT & _ & Hrows).
  { discriminate. }
  { repeat constructor; apply length_map. }
  assert (Hsel : select [LStr "mean_t"; LStr "sd_t"; LStr "n_t";
                         LStr "mean_c"; LStr "sd_c"; LStr "n_c"]
                   (mk_frame
                    [ (LStr "study", List.map (fun s => CStr (name s)) l);
                      (LStr "mean_t", List.map CInt (List.map mean_t l));
                      (LStr "sd_t", List.map CInt (List.map sd_t l));
                      (LStr "n_t", List.map CInt (List.map n_t l));
                      (LStr "mean_c", List.map CInt (List.map mean_c l));
                      (LStr "sd_c", List.map CInt (List.map sd_c l));
                      (LStr "n_c", List.map CInt (List.map n_c l)) ])
          = Some (mk_frame
                    [ (LStr "mean_t", List.map CInt (List.map mean_t l));
                      (LStr "sd_t", List.map CInt (List.map sd_t l));
                      (LStr "n_t", List.map CInt (List.map n_t l));
                      (LStr "mean_c", List.map CInt (List.map mean_c l));
                      (LStr "sd_c", List.map CInt (List.map sd_c l));
                      (LStr "n_c", List.map CInt (List.map n_c l)) ]))
    by reflexivity.
  rewrite Hsel. cbn [mbind option_bind].
  unfold values. cbn -[column_stack transpose unpack6 vec_add].
  rewrite !mapM_int_of_cell. cbn -[column_stack transpose unpack6 vec_add].
  rewrite Ha. cbn -[column_stack transpose unpack6 vec_add].
  rewrite HaT. cbn -[column_stack transpose unpack6 vec_add].
  unfold unpack6. rewrite Hrows. cbn -[vec_add].
  rewrite vec_add_columns. reflexivity.
Qed.

(** X9: the cells of the first meta-analysis example, run on any list of
    studies given as rows [name, mean_t, sd_t, n_t, mean_c, sd_c, n_c] of
    integers within the [int64] range, succeed; the names with suffix 2 hold
    the treatment columns and the names with suffix 1 the control columns,
    in the order of the studies; [rownames] from the comprehension and from
    the frame are the same names; and [nobs1 + nobs2] is the [int64] sum
    [n_c + n_t] of each study, which wraps around, and is the total sample
    size of every study whose total is below [2^63]. *)
Theorem first_example_vectors (l : list study) :
  Forall representable l ->
  unpack_studies (List.map row_of l)
  = Some (mk_vectors
            (List.map (fun s => CStr (name s)) l)
            (List.map (fun s => CStr (name s)) l)
            (List.map mean_t l) (List.map sd_t l) (List.map n_t l)
            (List.map mean_c l) (List.map sd_c l) (List.map n_c l)
            (List.map (fun s => Int64.wrap (n_c s + n_t s)) l))
  /\ (forall (i : nat) (s : study),
        l !! i = Some s -> Int64.in_range (n_c s + n_t s) ->
        (nobs <$> unpack_studies (List.map row_of l)) ≫= (fun v => v !! i)
        = Some (n_c s + n_t s)).
Proof.
  intros _.
  assert (Hrun : unpack_studies (List.map row_of l)
                 = Some (mk_vectors
                           (List.map (fun s => CStr (name s)) l)
                           (List.map (fun s => CStr (name s)) l)
                           (List.map mean_t l) (List.map sd_t l) (List.map n_t l)
                           (List.map mean_c l) (List.map sd_c l) (List.map n_c l)
                           (List.map (fun s => Int64.wrap (n_c s + n_t s)) l))).
  { destruct l as [|s l]; [reflexivity|].
    apply unpack_studies_rows. discriminate. }
  split; [exact Hrun|].
  intros i s Hi Hsum. rewrite Hrun. cbn.
  rewrite lookup_map, Hi. cbn. rewrite wrap_exact by exact Hsum. reflexivity.
Qed.

Lemma representable_small (s : study) :
  forallb (fun z => (- 2 ^ 63 <=? z) && (z <? 2 ^ 63))
          [mean_t s; sd_t s; n_t s; mean_c s; sd_c s; n_c s] = true ->
  representable s.
Proof.
  intros H. apply small_in_range in H.
  inversion H as [|? ? H1 H']; subst. inversion H' as [|? ? H2 H'']; subst.
  inversion H'' as [|? ? H3 H3']; subst. inversion H3' as [|? ? H4 H4']; subst.
  inversion H4' as [|? ? H5 H5']; subst. inversion H5' as [|? ? H6 _]; subst.
  repeat split; apply H1 || apply H2 || apply H3 || apply H4 || apply H5
                || apply H6.
Qed.

(** The theorem at the six studies of the notebook. *)
Lemma first_example_vectors_of_data :
  unpack_studies (List.map row_of studies)
  = Some (mk_vectors
            (List.map (fun s => CStr (name s)) studies)
            (List.map (fun s => CStr (name s)) studies)
            (List.map mean_t studies) (List.map sd_t studies)
            (List.map n_t studies)
            (List.map mean_c studies) (List.map sd_c studies)
            (List.map n_c studies)
            (List.map (fun s => Int64.wrap (n_c s + n_t s)) studies))
  /\ (forall (i : nat) (s : study),
        studies !! i = Some s -> Int64.in_range (n_c s + n_t s) ->
        (nobs <$> unpack_studies (List.map row_of studies)) ≫= (fun v => v !! i)
        = Some (n_c s + n_t s)).
Proof.
  apply (first_example_vectors studies).
  repeat constructor; apply representable_small; reflexivity.
Defined.

End SmdVectors.

(** ** The table of quantile fits and the lines drawn from it *)
Section QuantileLines.
Import Frame FrameRows QuantileRegression.
Local Open Scope Q_scope.

Lemma mapM_seq_lookup {A B : Type} (g : nat -> option B) (h : A -> B)
    (l : list A) (k : nat) :
  (forall i a, l !! i = Some a -> g (k + i)%nat = Some (h a)) ->
  mapM g (seq k (length l)) = Some (List.map h l).
Proof.
  revert k. induction l as [|a l IH]; intros k Hg; [reflexivity|].
  cbn [length seq List.map]. cbn.
  rewrite <- (Nat.add_0_r k) at 1. rewrite (Hg 0%nat a eq_refl). cbn.
  rewrite (IH (S k)); [reflexivity|].
  intros i b Hb. replace (S k + i)%nat with (k + S i)%nat by lia.
  apply Hg. exact Hb.
Qed.

Variable mod_fit : Q -> fit.

Lemma width_fits (quantiles : list Q) :
  quantiles <> [] ->
  Forall (fun q => length (conf_int_income (mod_fit q)) = 2%nat) quantiles ->
  width (List.map (fit_model mod_fit) quantiles) = 5%nat.
Proof.
  unfold width. intros Hne Hall.
  induction Hall as [|q l Hq Hl IH]; [congruence|].
  cbn [List.map fold_right]. unfold fit_model at 1.
  rewrite length_app, length_map, Hq.
  destruct l as [|q' l]; [reflexivity|].
  rewrite IH by discriminate. reflexivity.
Qed.

Lemma fit_model_items (q : Q) :
  length (conf_int_income (mod_fit q)) = 2%nat ->
  fit_model mod_fit q =
  [ CFloat q; CFloat (intercept (mod_fit q)); CFloat (income (mod_fit q));
    CFloat (nth 0 (conf_int_income (mod_fit q)) 0);
    CFloat (nth 1 (conf_int_income (mod_fit q)) 0) ].
Proof.
  unfold fit_model. intros Hlen.
  destruct (conf_int_income (mod_fit q)) as [|lo [|hi [|]]]; try discriminate.
  reflexivity.
Qed.

(** X10: when every fit reports a confidence interval of two bounds, the
    frame [models] has one row per quantile, with the quantile in column
    [q], the intercept in [a], the income slope in [b] and the bounds in
    [lb] and [ub]; and the line the first plot draws for a quantile is
    [intercept + slope * x] of that quantile's fit, point by point. *)
Theorem quantile_lines_use_intercept_and_slope (quantiles x : list Q) :
  Forall (fun q => length (conf_int_income (mod_fit q)) = 2%nat) quantiles ->
  exists m,
    models mod_fit quantiles = Some m
    /\ nrows m = length quantiles
    /\ get_column (LStr "q") m = Some (List.map CFloat quantiles)
    /\ get_column (LStr "a") m
       = Some (List.map (fun q => CFloat (intercept (mod_fit q))) quantiles)
    /\ get_column (LStr "b") m
       = Some (List.map (fun q => CFloat (income (mod_fit q))) quantiles)
    /\ get_column (LStr "lb") m
       = Some (List.map (fun q => CFloat (nth 0 (conf_int_income (mod_fit q)) 0))
                        quantiles)
    /\ get_column (LStr "ub") m
       = Some (List.map (fun q => CFloat (nth 1 (conf_int_income (mod_fit q)) 0))
                        quantiles)
    /\ quantile_lines x m
       = Some (List.map
                 (fun q =>
                    List.map (fun xi => Some (intercept (mod_fit q)
                                              + income (mod_fit q) * xi)) x)
                 quantiles).
Proof.
  intros Hall. unfold models.
  destruct (decide (quantiles = [])) as [->|Hne].
  { eexists. split; [reflexivity|]. repeat (split; [reflexivity|]). reflexivity. }
  rewrite from_rows_nonempty by (destruct quantiles; [congruence|discriminate]).
  rewrite (width_fits quantiles Hne Hall).
  cbn [imap length Nat.eqb compose].
  assert (Hrows : List.map (fit_model mod_fit) quantiles
                  = List.map (fun q =>
                      [ CFloat q; CFloat (intercept (mod_fit q));
                        CFloat (income (mod_fit q));
                        CFloat (nth 0 (conf_int_income (mod_fit q)) 0);
                        CFloat (nth 1 (conf_int_income (mod_fit q)) 0) ])
                      quantiles).
  { clear Hne. induction Hall as [|q l Hq _ IH]; [reflexivity|].
    cbn [List.map]. rewrite IH, (fit_model_items q Hq). reflexivity. }
  rewrite Hrows, !map_map. cbn [nth].
  rewrite !infer_cells_float.
  eexists. split; [reflexivity|].
  split.
  { unfold nrows. cbn [columns]. apply length_map. }
  repeat (split; [reflexivity|]).
  unfold quantile_lines, nrows. cbn [columns]. rewrite length_map.
  apply (mapM_seq_lookup _ _ quantiles 0).
  intros i q Hq. cbn [Nat.add]. unfold item.
  change (get_column (LStr "a") _)
    with (Some (List.map (fun a => CFloat (intercept (mod_fit a))) quantiles)).
  change (get_column (LStr "b") _)
    with (Some (List.map (fun a => CFloat (income (mod_fit a))) quantiles)).
  cbn [mbind option_bind]. rewrite !lookup_map, Hq. reflexivity.
Qed.

End QuantileLines.

Section QuantileLinesExample.
Import Frame FrameRows QuantileRegression.
Local Open Scope Q_scope.

(** The theorem at two quantiles, for fits with intercept 81 and slope
    [q]. *)
Lemma quantile_lines_of_two_fits :
  let mod_fit := fun q : Q => mk_fit 81 q [q - 1; q + 1] in
  let quantiles := [1 # 2; 3 # 4] in
  let x := [0; 50] in
  exists m,
    models mod_fit quantiles = Some m
    /\ nrows m = length quantiles
    /\ get_column (LStr "q") m = Some (List.map CFloat quantiles)
    /\ get_column (LStr "a") m
       = Some (List.map (fun q => CFloat (intercept (mod_fit q))) quantiles)
    /\ get_column (LStr "b") m
       = Some (List.map (fun q => CFloat (income (mod_fit q))) quantiles)
    /\ get_column (LStr "lb") m
       = Some (List.map (fun q => CFloat (nth 0 (conf_int_income (mod_fit q)) 0))
                        quantiles)
    /\ get_column (LStr "ub") m
       = Some (List.map (fun q => CFloat (nth 1 (conf_int_income (mod_fit q)) 0))
                        quantiles)
    /\ quantile_lines x m
       = Some (List.map
                 (fun q =>
                    List.map (fun xi => Some (intercept (mod_fit q)
                                              + income (mod_fit q) * xi)) x)
                 quantiles).
Proof.
  intros mod_fit quantiles x.
  apply (quantile_lines_use_intercept_and_slope mod_fit quantiles x).
  repeat constructor.
Defined.

Example a_longer_interval_is_refused :
  models (fun q : Q => mk_fit 81 q [q - 1; q; q + 1]) [1 # 2] = None.
Proof. reflexivity. Qed.

End QuantileLinesExample.

(** ** Names are bound before they are read: the interpreter *)
Section ScopeSoundness.
Import Py Kernel Scoping.
Local Open Scope list_scope.
Context {ext world : Type}.
Variable runtime : request ext -> world -> response ext * world.

Local Abbreviation M := (Kernel.M ext world).
Local Abbreviation state := (Kernel.state ext world).
Local Abbreviation value := (Kernel.value ext).
Local Abbreviation scoped := (@Scoping.scoped ext world).
Local Abbreviation stable := (@Scoping.stable ext world).

(** *** Growing kernels *)

Lemma includes_refl (m : gmap string value) : includes m m.
Proof. intros x Hx. exact Hx. Qed.

Lemma includes_trans (m1 m2 m3 : gmap string value) :
  includes m1 m2 -> includes m2 m3 -> includes m1 m3.
Proof. intros H12 H23 x Hx. apply H23, H12, Hx. Qed.

Lemma includes_insert (m : gmap string value) (x : string) (v : value) :
  includes m (<[x := v]> m).
Proof.
  intros y Hy. destruct (decide (x = y)) as [->|Hne].
  - rewrite lookup_insert_eq. eexists. reflexivity.
  - rewrite lookup_insert_ne by exact Hne. exact Hy.
Qed.

Lemma grows_same (s s' : state) :
  globals s' = globals s -> frames s' = frames s -> grows s s'.
Proof.
  intros Hg Hf. unfold grows. rewrite Hg, Hf. split; [apply includes_refl|].
  destruct (frames s); [exact I|]. split; [reflexivity | apply includes_refl].
Qed.

Lemma grows_refl (s : state) : grows s s.
Proof. apply grows_same; reflexivity. Qed.

Lemma grows_trans (s1 s2 s3 : state) :
  grows s1 s2 -> grows s2 s3 -> grows s1 s3.
Proof.
  intros [Hg12 Hf12] [Hg23 Hf23]. split; [eapply includes_trans; eassumption|].
  destruct (frames s1) as [|f1 r1], (frames s2) as [|f2 r2],
    (frames s3) as [|f3 r3]; try contradiction; try exact I.
  destruct Hf12 as [-> H12], Hf23 as [-> H23].
  split; [reflexivity | eapply includes_trans; eassumption].
Qed.

Lemma binds_includes (m m' : gmap string value) (xs : list string) :
  binds m xs -> includes m m' -> binds m' xs.
Proof. intros Hb Hi x Hx. apply Hi, Hb, Hx. Qed.

Lemma closure_ok_includes (G G' : gmap string value) (v : value) :
  closure_ok G v -> includes G G' -> closure_ok G' v.
Proof.
  intros Hv Hi. destruct v as [x|ps body|ps body|c bases body]; simpl in *;
    try exact I;
    destruct Hv as (g & Hg & Hbody); exists g;
    (split; [eapply binds_includes; eassumption | exact Hbody]).
Qed.

Lemma store_ok_includes (G G' m : gmap string value) :
  store_ok G m -> includes G G' -> store_ok G' m.
Proof.
  intros Hm Hi x v Hx. eapply closure_ok_includes; [exact (Hm x v Hx) | exact Hi].
Qed.

(** *** Stable facts *)

Lemma stable_agrees (sc : scope) : stable (agrees sc).
Proof.
  intros s s' [Hg Hl] [Hgi Hfi]. split; [eapply binds_includes; eassumption|].
  destruct (local_names sc) as [l|], (frames s) as [|fr rest],
    (frames s') as [|fr' rest']; try contradiction; try exact I.
  destruct Hfi as [_ Hfi]. eapply binds_includes; eassumption.
Qed.

Lemma stable_value_ok (v : value) : stable (value_ok v).
Proof.
  intros s s' Hv [Hgi _]. eapply closure_ok_includes; eassumption.
Qed.

Lemma stable_values_ok (vs : list value) :
  stable (fun s => Forall (fun v => value_ok v s) vs).
Proof.
  intros s s' Hvs Hgrow. eapply Forall_impl; [exact Hvs|].
  intros v Hv. eapply stable_value_ok; eassumption.
Qed.

Lemma stable_Forall {B : Type} (Q : B -> state -> Prop) (l : list B) :
  (forall b, stable (Q b)) -> stable (fun s => Forall (fun b => Q b s) l).
Proof.
  intros HQ s s' Hl Hgrow. eapply Forall_impl; [exact Hl|].
  intros b Hb. exact (HQ b s s' Hb Hgrow).
Qed.

Lemma stable_and (P Q : state -> Prop) :
  stable P -> stable Q -> stable (fun s => P s /\ Q s).
Proof.
  intros HP HQ s s' [Hp Hq] Hgrow. split; [eapply HP | eapply HQ]; eassumption.
Qed.

Lemma stable_const (X : Prop) : stable (fun _ => X).
Proof. intros s s' HX _. exact HX. Qed.

Lemma stable_true : stable (fun _ => True).
Proof. apply stable_const. Qed.

(** *** Rules *)

Lemma scoped_ret {A : Type} (P : state -> Prop) (Q : A -> state -> Prop)
    (a : A) :
  (forall s, P s -> Q a s) -> scoped P Q (ret a).
Proof.
  intros HQ s o s' Hs Hp Hrun. injection Hrun as <- <-.
  split; [apply grows_refl|]. split; [exact Hs|].
  split; [exists []; split; [symmetry; apply app_nil_r | constructor]|].
  intros b Hb. injection Hb as <-. apply HQ, Hp.
Qed.

Lemma scoped_raise {A : Type} (P : state -> Prop) (Q : A -> state -> Prop)
    (what : string) :
  scoped P Q (raise what).
Proof.
  intros s o s' Hs Hp Hrun. injection Hrun as <- <-.
  split; [apply grows_refl|]. split; [exact Hs|].
  split; [exists []; split; [symmetry; apply app_nil_r | constructor]|].
  intros b Hb. discriminate.
Qed.

Lemma scoped_out_of_fuel {A : Type} (P : state -> Prop)
    (Q : A -> state -> Prop) :
  scoped P Q out_of_fuel.
Proof.
  intros s o s' Hs Hp Hrun. injection Hrun as <- <-.
  split; [apply grows_refl|]. split; [exact Hs|].
  split; [exists []; split; [symmetry; apply app_nil_r | constructor]|].
  intros b Hb. discriminate.
Qed.

Lemma scoped_bind {A B : Type} (P : state -> Prop) (Q1 : A -> state -> Prop)
    (Q2 : B -> state -> Prop) (m : M A) (k : A -> M B) :
  scoped P Q1 m -> (forall a, scoped (Q1 a) Q2 (k a)) ->
  scoped P Q2 (Kernel.bind m k).
Proof.
  intros Hm Hk s o s' Hs Hp Hrun. unfold Kernel.bind in Hrun.
  destruct (m s) as [[a|e|] s1] eqn:Hms;
    destruct (Hm _ _ _ Hs Hp Hms) as (Hg1 & Hs1 & (l1 & Hl1 & Hk1) & Hq1).
  - destruct (Hk a _ _ _ Hs1 (Hq1 a eq_refl) Hrun)
      as (Hg2 & Hs2 & (l2 & Hl2 & Hk2) & Hq2).
    split; [eapply grows_trans; eassumption|]. split; [exact Hs2|].
    split; [|exact Hq2].
    exists (l1 ++ l2). split; [rewrite Hl2, Hl1; symmetry; apply app_assoc|].
    apply Forall_app. split; assumption.
  - injection Hrun as <- <-. split; [exact Hg1|]. split; [exact Hs1|].
    split; [exists l1; split; assumption|]. intros b Hb. discriminate.
  - injection Hrun as <- <-. split; [exact Hg1|]. split; [exact Hs1|].
    split; [exists l1; split; assumption|]. intros b Hb. discriminate.
Qed.

Lemma scoped_post {A : Type} (P : state -> Prop) (Q Q' : A -> state -> Prop)
    (m : M A) :
  (forall a s, Q a s -> Q' a s) -> scoped P Q m -> scoped P Q' m.
Proof.
  intros HQ Hm s o s' Hs Hp Hrun.
  destruct (Hm _ _ _ Hs Hp Hrun) as (Hg & Hs' & Hl & Hq).
  repeat (split; [assumption|]). intros a Ha. apply HQ, Hq, Ha.
Qed.

Lemma scoped_pre {A : Type} (P P' : state -> Prop) (Q : A -> state -> Prop)
    (m : M A) :
  (forall s, P' s -> P s) -> scoped P Q m -> scoped P' Q m.
Proof.
  intros HP Hm s o s' Hs Hp Hrun. exact (Hm _ _ _ Hs (HP _ Hp) Hrun).
Qed.

(** What holds before and is stable holds after. *)
Lemma scoped_keep {A : Type} (P : state -> Prop) (Q : A -> state -> Prop)
    (m : M A) :
  stable P -> scoped P Q m -> scoped P (fun a s => Q a s /\ P s) m.
Proof.
  intros HP Hm s o s' Hs Hp Hrun.
  destruct (Hm _ _ _ Hs Hp Hrun) as (Hg & Hs' & Hl & Hq).
  repeat (split; [assumption|]). intros a Ha.
  split; [apply Hq, Ha | eapply HP; eassumption].
Qed.

Lemma scoped_perform (P : state -> Prop) (r : request ext) :
  stable P -> known_request r ->
  scoped P (fun v s => value_ok v s /\ P s) (perform runtime r).
Proof.
  intros HP Hr. apply scoped_keep; [exact HP|].
  intros s o s' Hs _ Hrun. unfold perform, ask in Hrun.
  destruct (runtime r (libs s)) as [[x|xs|e] w]; injection Hrun as <- <-;
    (split; [apply grows_same; reflexivity|]); (split; [exact Hs|]);
    (split; [cbn [log]; eexists; split; [reflexivity|];
             constructor; [exact Hr | constructor]|]);
    intros a Ha; try discriminate.
  injection Ha as <-. exact I.
Qed.

Lemma scoped_perform_items (P : state -> Prop) (r : request ext) :
  stable P -> known_request r ->
  scoped P (fun vs s => Forall (fun v => forall s0 : state, value_ok v s0) vs
                        /\ P s)
         (perform_items runtime r).
Proof.
  intros HP Hr. apply scoped_keep; [exact HP|].
  intros s o s' Hs _ Hrun. unfold perform_items, ask in Hrun.
  destruct (runtime r (libs s)) as [[x|xs|e] w]; injection Hrun as <- <-;
    (split; [apply grows_same; reflexivity|]); (split; [exact Hs|]);
    (split; [cbn [log]; eexists; split; [reflexivity|];
             constructor; [exact Hr | constructor]|]);
    intros a Ha; try discriminate.
  injection Ha as <-. apply Forall_forall. intros v Hv.
  apply list_elem_of_In, in_map_iff in Hv as (x & <- & _). intros s0. exact I.
Qed.


Lemma visible_cases (sc : scope) (x : string) :
  visible sc x = true ->
  (exists l, local_names sc = Some l /\ In x l)
  \/ In x (module_names sc) \/ In x Analysis.builtin_names.
Proof.
  unfold visible, Analysis.mem. intros H.
  apply orb_true_iff in H as [H|H]; [apply orb_true_iff in H as [H|H]|].
  - left. destruct (local_names sc) as [l|]; [|discriminate].
    exists l. split; [reflexivity|].
    apply existsb_exists in H as (y & Hy & Heq).
    apply String.eqb_eq in Heq. subst y. exact Hy.
  - right; left. apply existsb_exists in H as (y & Hy & Heq).
    apply String.eqb_eq in Heq. subst y. exact Hy.
  - right; right. apply existsb_exists in H as (y & Hy & Heq).
    apply String.eqb_eq in Heq. subst y. exact Hy.
Qed.

(** Reading a visible name gives a value of the kernel, or asks for a
    builtin. *)
Lemma scoped_lookup_name (P : state -> Prop) (sc : scope) (x : string) :
  stable P -> (forall s, P s -> agrees sc s) -> visible sc x = true ->
  scoped P (fun v s => value_ok v s /\ P s) (lookup_name runtime x).
Proof.
  intros HP Hsc Hx. apply scoped_keep; [exact HP|].
  intros s o s' Hs Hp Hrun. unfold lookup_name in Hrun.
  destruct Hs as [Hg Hf].
  destruct (match frames s with fr :: _ => fr !! x | [] => None end)
    as [v|] eqn:Hlocal.
  { injection Hrun as <- <-.
    split; [apply grows_refl|]. split; [split; assumption|].
    split; [exists []; split; [symmetry; apply app_nil_r | constructor]|].
    intros a Ha. injection Ha as <-.
    destruct (frames s) as [|fr rest]; [discriminate|].
    inversion Hf as [|? ? Hfr _]; subst. exact (Hfr _ _ Hlocal). }
  destruct (globals s !! x) as [v|] eqn:Hglobal.
  { injection Hrun as <- <-.
    split; [apply grows_refl|]. split; [split; assumption|].
    split; [exists []; split; [symmetry; apply app_nil_r | constructor]|].
    intros a Ha. injection Ha as <-. exact (Hg _ _ Hglobal). }
  assert (Hbuiltin : In x Analysis.builtin_names).
  { destruct (Hsc s Hp) as [Hmod Hloc].
    destruct (visible_cases sc x Hx) as [(l & Hl & Hin)|[Hin|Hin]].
    - exfalso. rewrite Hl in Hloc.
      destruct (frames s) as [|fr rest]; [contradiction|].
      destruct (Hloc x Hin) as [v Hv]. congruence.
    - exfalso. destruct (Hmod x Hin) as [v Hv]. congruence.
    - exact Hin. }
  destruct (scoped_perform (fun _ => True) (RBuiltin x) stable_true Hbuiltin
              s o s' (conj Hg Hf) I Hrun) as (Hgr & Hs' & Hl & Hq).
  repeat (split; [assumption|]). intros a Ha. apply (Hq a Ha).
Qed.

(** An assignment binds the name in the innermost frame. *)
Lemma scoped_assign_name (P : state -> Prop) (sc : scope) (x : string)
    (v : value) :
  stable P -> (forall s, P s -> agrees sc s /\ value_ok v s) ->
  scoped P (fun _ s => agrees (Scoping.bind x sc) s /\ P s) (assign_name x v).
Proof.
  intros HP Hsc s o s' [Hg Hf] Hp Hrun.
  destruct (Hsc s Hp) as [[Hmod Hloc] Hv].
  unfold assign_name in Hrun. unfold Scoping.bind.
  destruct (frames s) as [|fr rest] eqn:Hfr; injection Hrun as <- <-.
  - destruct (local_names sc) as [l|] eqn:Hl; [contradiction|].
    assert (Hgrow : grows s (mk_state (<[x := v]> (globals s)) [] (libs s) (log s))).
    { split; cbn [globals frames]; [apply includes_insert|].
      rewrite Hfr. exact I. }
    split; [exact Hgrow|]. split.
    { split; cbn [globals frames]; [|constructor].
      apply map_Forall_insert_2.
      - eapply closure_ok_includes; [exact Hv | apply includes_insert].
      - eapply store_ok_includes; [exact Hg | apply includes_insert]. }
    split; [exists []; split; [symmetry; apply app_nil_r | constructor]|].
    intros _ _. split; [|eapply HP; eassumption].
    split; cbn [globals frames module_names local_names]; [|exact I].
    intros y [<-|Hy].
    + rewrite lookup_insert_eq. eexists. reflexivity.
    + apply includes_insert, Hmod, Hy.
  - destruct (local_names sc) as [l|] eqn:Hl; [|contradiction].
    inversion Hf as [|? ? Hfr0 Hrest]; subst.
    assert (Hgrow : grows s (mk_state (globals s) (<[x := v]> fr :: rest)
                                      (libs s) (log s))).
    { split; cbn [globals frames]; [apply includes_refl|].
      rewrite Hfr. split; [reflexivity | apply includes_insert]. }
    split; [exact Hgrow|]. split.
    { split; cbn [globals frames]; [exact Hg|].
      constructor; [|exact Hrest].
      apply map_Forall_insert_2; assumption. }
    split; [exists []; split; [symmetry; apply app_nil_r | constructor]|].
    intros _ _. split; [|eapply HP; eassumption].
    split; cbn [globals frames module_names local_names]; [exact Hmod|].
    intros y [<-|Hy].
    + rewrite lookup_insert_eq. eexists. reflexivity.
    + apply includes_insert, Hloc, Hy.
Qed.


Ltac entail :=
  intros; cbv beta in *;
  repeat match goal with
         | H : _ /\ _ |- _ => destruct H
         | Hent : (forall s : Kernel.state _ _, _ -> _), Hp : _ |- _ =>
             specialize (Hent _ Hp); cbv beta in Hent
         end;
  repeat match goal with
         | |- _ /\ _ => split
         end;
  eauto.

Ltac stab :=
  repeat first
    [ assumption
    | apply stable_agrees
    | apply stable_value_ok
    | apply stable_values_ok
    | apply stable_const
    | apply stable_Forall; intro
    | apply stable_true
    | apply stable_and ].

Lemma scoped_map_m {A B : Type} (Q : B -> state -> Prop) (f : A -> M B)
    (l : list A) :
  (forall b, stable (Q b)) ->
  forall P : state -> Prop,
    stable P ->
    (forall a (P' : state -> Prop),
       In a l -> stable P' -> (forall s, P' s -> P s) ->
       scoped P' (fun b s => Q b s /\ P' s) (f a)) ->
    scoped P (fun bs s => Forall (fun b => Q b s) bs /\ P s) (map_m f l).
Proof.
  intros HQ. induction l as [|a l IH]; intros P HP Hf; simpl.
  - apply scoped_ret. intros s Hp. split; [constructor | exact Hp].
  - eapply scoped_bind.
    { apply (Hf a P); [left; reflexivity | exact HP | auto]. }
    intros b. eapply scoped_bind.
    { apply (IH (fun s => Q b s /\ P s)).
      - apply stable_and; [apply HQ | exact HP].
      - intros a' P' Ha' HP' Hent. apply Hf; [right; exact Ha' | exact HP'|].
        intros s Hs. apply Hent, Hs. }
    intros bs. apply scoped_ret. intros s (Hbs & Hb & Hp).
    split; [constructor; assumption | exact Hp].
Qed.

Lemma scoped_block (f : stmt -> M (option value)) (body : list stmt) :
  forall (sc sc' : scope) (P : state -> Prop),
    stable P -> (forall s, P s -> agrees sc s) ->
    block_ok sc body = Some sc' ->
    (forall st sc1 sc2 (P' : state -> Prop),
       In st body -> stable P' -> (forall s, P' s -> agrees sc1 s) ->
       binds_before_reads sc1 st = Some sc2 ->
       scoped P' (fun r s => after sc2 r s /\ P' s) (f st)) ->
    scoped P (fun r s => after sc' r s /\ P s) (block f body).
Proof.
  induction body as [|st body IH]; intros sc sc' P HP Hsc Hok Hf; simpl.
  - injection Hok as <-. apply scoped_ret. intros s Hp. split; [apply Hsc|]; exact Hp.
  - unfold block_ok in Hok. simpl in Hok.
    destruct (binds_before_reads sc st) as [sc1|] eqn:Hst; [|discriminate].
    eapply scoped_bind.
    { apply (Hf st sc sc1 P); [left; reflexivity | exact HP | exact Hsc | exact Hst]. }
    intros [v|].
    + apply scoped_ret. intros s [Hv Hp]. split; assumption.
    + eapply scoped_post;
        [|apply (IH sc1 sc' (fun s => after sc1 None s /\ P s))].
      * intros r s (Hr & _ & Hp). split; assumption.
      * apply stable_and; [apply stable_agrees | exact HP].
      * intros s [Ha _]. exact Ha.
      * exact Hok.
      * intros st' sc2 sc3 P' Hin. apply Hf. right. exact Hin.
Qed.

Lemma scoped_for_each (f : value -> M (option value)) (items : list value)
    (P : state -> Prop) :
  (forall item, In item items ->
     scoped P (fun r s => (forall v, r = Some v -> value_ok v s) /\ P s) (f item)) ->
  scoped P (fun r s => (forall v, r = Some v -> value_ok v s) /\ P s)
         (for_each f items).
Proof.
  induction items as [|item items IH]; intros Hf; simpl.
  - apply scoped_ret. intros s Hp. split; [discriminate | exact Hp].
  - eapply scoped_bind; [apply Hf; left; reflexivity|].
    intros [w|].
    + apply scoped_ret. intros s Hs. exact Hs.
    + eapply scoped_pre; [|apply IH].
      * intros s [_ Hp]. exact Hp.
      * intros item' Hin. apply Hf. right. exact Hin.
Qed.

Lemma bind_all_cons (x : string) (xs : list string) (sc : scope) :
  bind_all (x :: xs) sc = bind_all xs (Scoping.bind x sc).
Proof. reflexivity. Qed.

Lemma scoped_assign_names (xs : list string) :
  forall (vs : list value) (sc : scope) (P : state -> Prop),
    stable P ->
    (forall s, P s -> agrees sc s /\ Forall (fun v => value_ok v s) vs) ->
    scoped P (fun _ s => agrees (bind_all xs sc) s /\ P s) (assign_names xs vs).
Proof.
  induction xs as [|x xs IH]; intros [|v vs] sc P HP Hsc; cbn [assign_names];
    try apply scoped_raise.
  - apply scoped_ret. intros s Hp. split; [apply Hsc|]; exact Hp.
  - eapply scoped_bind.
    { apply (scoped_assign_name P sc x v HP). intros s Hp.
      destruct (Hsc s Hp) as [Ha Hvs]. split; [exact Ha|].
      inversion Hvs; assumption. }
    intros ?. rewrite bind_all_cons.
    eapply scoped_post;
      [|apply (IH vs (Scoping.bind x sc)
                  (fun s => agrees (Scoping.bind x sc) s /\ P s))].
    + intros ? s (Ha & _ & Hp). split; assumption.
    + stab.
    + intros s [Ha Hp]. split; [exact Ha|].
      destruct (Hsc s Hp) as [_ Hvs]. inversion Hvs; assumption.
Qed.

(** [from m import x, y, ...] binds the names one after the other. *)
Lemma scoped_from_import (m : string) (ns : list string) :
  forall (sc : scope) (P : state -> Prop),
    stable P -> (forall s, P s -> agrees sc s) ->
    scoped P (fun _ s => agrees (bind_all ns sc) s /\ P s)
      (map_m (fun x => Kernel.bind (perform runtime (RImport m (Some x)))
                                   (fun v => assign_name x v)) ns).
Proof.
  induction ns as [|x ns IH]; intros sc P HP Hsc; cbn [map_m].
  - apply scoped_ret. intros s Hp. split; [apply Hsc|]; exact Hp.
  - eapply (scoped_bind _ (fun _ s => agrees (Scoping.bind x sc) s /\ P s)).
    { eapply scoped_bind; [apply (scoped_perform P); [exact HP | exact I]|].
      intros v. eapply scoped_post; [|apply (scoped_assign_name _ sc x v)].
      - intros ? s (Ha & _ & Hp). split; assumption.
      - stab.
      - intros s [Hv Hp]. split; [apply Hsc, Hp | exact Hv]. }
    intros ?. eapply scoped_bind.
    { apply (IH (Scoping.bind x sc)
                (fun s => agrees (Scoping.bind x sc) s /\ P s)).
      - stab.
      - intros s [Ha _]. exact Ha. }
    intros us. apply scoped_ret. intros s (Ha & _ & Hp).
    rewrite bind_all_cons. split; assumption.
Qed.


Lemma stable_binds_globals (g : list string) :
  stable (fun s => binds (globals s) g).
Proof. intros s s' Hb [Hi _]. eapply binds_includes; eassumption. Qed.

Lemma frame_of_store_ok (G : gmap string value) (ps : list string)
    (args : list value) (fr : gmap string value) :
  Forall (closure_ok G) args -> frame_of ps args = Some fr -> store_ok G fr.
Proof.
  intros Hargs Hfr. unfold frame_of in Hfr.
  destruct (length ps =? length args)%nat; [|discriminate].
  injection Hfr as <-. intros x v Hx.
  apply elem_of_list_to_map_2 in Hx.
  apply list_elem_of_In in Hx. apply in_combine_r in Hx.
  rewrite Forall_forall in Hargs. apply Hargs, list_elem_of_In, Hx.
Qed.

Lemma frame_of_binds (ps : list string) (args : list value)
    (fr : gmap string value) :
  frame_of ps args = Some fr -> binds fr ps.
Proof.
  unfold frame_of. destruct (length ps =? length args)%nat eqn:Hlen;
    [|discriminate].
  apply Nat.eqb_eq in Hlen. intros Hfr. injection Hfr as <-. intros x Hx.
  destruct (list_to_map (zip ps args) !! x) as [v|] eqn:Hlook;
    [eexists; reflexivity|].
  exfalso. apply not_elem_of_list_to_map in Hlook.
  apply Hlook. rewrite fst_zip by lia. apply list_elem_of_In, Hx.
Qed.

(** A call of a function of the notebook: the body runs in a frame of its
    own, which is dropped afterwards. *)
Lemma scoped_with_frame {A : Type} (P Pin : state -> Prop)
    (Q : A -> state -> Prop) (fr : gmap string value) (m : M A) :
  stable P ->
  (forall s, state_ok s -> P s ->
     store_ok (globals s) fr
     /\ Pin (mk_state (globals s) (fr :: frames s) (libs s) (log s))) ->
  (forall a s s', globals s' = globals s -> Q a s -> Q a s') ->
  scoped Pin Q m ->
  scoped P (fun a s => Q a s /\ P s) (with_frame fr m).
Proof.
  intros HP Hpush HQ Hm s o s' Hs Hp Hrun. unfold with_frame in Hrun.
  destruct (m _) as [o1 s1] eqn:Hms. injection Hrun as <- <-.
  destruct (Hpush s Hs Hp) as [Hfr Hpin].
  assert (Hpushed : state_ok (mk_state (globals s) (fr :: frames s)
                                       (libs s) (log s))).
  { destruct Hs as [Hg Hf]. split; cbn [globals frames];
      [exact Hg | constructor; assumption]. }
  destruct (Hm _ _ _ Hpushed Hpin Hms)
    as ([Hgi Hfi] & [Hg1 Hf1] & Hl & Hq).
  cbn [globals frames] in Hgi, Hfi.
  destruct (frames s1) as [|fr1 rest1] eqn:Hfr1; [contradiction|].
  destruct Hfi as [-> _]. cbn [tl].
  assert (Hgrow : grows s (mk_state (globals s1) (frames s) (libs s1) (log s1))).
  { split; cbn [globals frames]; [exact Hgi|].
    destruct (frames s); [exact I|]. split; [reflexivity | apply includes_refl]. }
  split; [exact Hgrow|]. split.
  { split; cbn [globals frames]; [exact Hg1|]. inversion Hf1; assumption. }
  split; [exact Hl|].
  intros a Ha. split; [|eapply HP; eassumption].
  eapply HQ; [|apply Hq, Ha]. reflexivity.
Qed.

Lemma guard_Some (b : bool) (sc sc' : scope) :
  guard b sc = Some sc' -> b = true /\ sc' = sc.
Proof. destruct b; simpl; intros H; [injection H as <-; auto | discriminate]. Qed.

Lemma values_ok_concat (vss : list (list value)) (s : state) :
  Forall (fun vs => Forall (fun v => value_ok v s) vs) vss ->
  Forall (fun v => value_ok v s) (concat vss).
Proof.
  induction 1 as [|vs vss Hvs _ IH]; simpl; [constructor|].
  apply Forall_app. split; assumption.
Qed.

Ltac seq := eapply scoped_bind.
Ltac finish_with rule :=
  eapply scoped_post; [|apply rule; [stab | exact I]]; entail.

(** *** The interpreter reads bound names only *)
Lemma interp_scoped (n : nat) :
  (forall e sc (P : state -> Prop),
     stable P -> (forall s, P s -> agrees sc s) -> reads_ok sc e = true ->
     scoped P (fun v s => value_ok v s /\ P s) (eval runtime n e))
  /\ (forall st sc sc' (P : state -> Prop),
        stable P -> (forall s, P s -> agrees sc s) ->
        binds_before_reads sc st = Some sc' ->
        scoped P (fun r s => after sc' r s /\ P s) (exec runtime n st))
  /\ (forall f args kwargs (P : state -> Prop),
        stable P ->
        (forall s, P s -> value_ok f s /\ Forall (fun v => value_ok v s) args) ->
        scoped P (fun v s => value_ok v s /\ P s) (call runtime n f args kwargs)).
Proof.
  induction n as [|n (IHe & IHs & IHc)].
  { split; [|split]; intros; apply scoped_out_of_fuel. }
  assert (IHes : forall es sc (P : state -> Prop),
            stable P -> (forall s, P s -> agrees sc s) ->
            forallb (reads_ok sc) es = true ->
            scoped P (fun vs s => Forall (fun v => value_ok v s) vs /\ P s)
                   (map_m (eval runtime n) es)).
  { intros es sc P HP Hsc Hes.
    apply (scoped_map_m (fun v s => value_ok v s)); [intros; stab | exact HP|].
    intros e P' He HP' Hent. apply (IHe e sc); [exact HP' | entail|].
    eapply forallb_In; eassumption. }
  assert (IHb : forall body sc sc' (P : state -> Prop),
            stable P -> (forall s, P s -> agrees sc s) ->
            block_ok sc body = Some sc' ->
            scoped P (fun r s => after sc' r s /\ P s)
                   (block (exec runtime n) body)).
  { intros body sc sc' P HP Hsc Hbody.
    apply (scoped_block _ body sc sc' P HP Hsc Hbody).
    intros st sc1 sc2 P' _ HP' Hsc1 Hst. apply (IHs st sc1 sc2 P'); assumption. }
  split; [|split].
  - (* expressions *)
    intros e sc P HP Hsc Hok.
    destruct e as [x|z|lit|t|b| |es|es|ks vs|op l r|e1|e1 a|e1 i|lo hi
                  |f args kwargs|e1|ps body|elt x iter];
      cbn [eval]; cbn [reads_ok] in Hok.
    + apply (scoped_lookup_name P sc); assumption.
    + apply scoped_perform; [exact HP | exact I].
    + apply scoped_perform; [exact HP | exact I].
    + apply scoped_perform; [exact HP | exact I].
    + apply scoped_perform; [exact HP | exact I].
    + apply scoped_perform; [exact HP | exact I].
    + seq; [apply (IHes _ sc); eassumption|]. intros vs.
      finish_with scoped_perform.
    + seq; [apply (IHes _ sc); eassumption|]. intros vs.
      finish_with scoped_perform.
    + apply andb_true_iff in Hok as [Hks Hvs].
      seq; [apply (IHes _ sc); eassumption|]. intros kvs.
      seq; [apply (IHes _ sc); [stab | entail | eassumption]|]. intros vvs.
      finish_with scoped_perform.
    + apply andb_true_iff in Hok as [Hl Hr].
      seq; [apply (IHe _ sc); eassumption|]. intros vl.
      seq; [apply (IHe _ sc); [stab | entail | eassumption]|]. intros vr.
      finish_with scoped_perform.
    + seq; [apply (IHe _ sc); eassumption|]. intros v.
      finish_with scoped_perform.
    + seq; [apply (IHe _ sc); eassumption|]. intros v.
      finish_with scoped_perform.
    + apply andb_true_iff in Hok as [He1 Hi].
      seq; [apply (IHe _ sc); eassumption|]. intros v.
      seq; [apply (IHe _ sc); [stab | entail | eassumption]|]. intros vi.
      finish_with scoped_perform.
    + apply andb_true_iff in Hok as [Hlo Hhi].
      eapply (scoped_bind _ (fun _ s => P s)).
      { destruct lo as [e1|]; [|apply scoped_ret; auto].
        seq; [apply (IHe _ sc); eassumption|]. intros v.
        apply scoped_ret. entail. }
      intros vlo. eapply (scoped_bind _ (fun _ s => P s)).
      { destruct hi as [e1|]; [|apply scoped_ret; auto].
        seq; [apply (IHe _ sc); eassumption|]. intros v.
        apply scoped_ret. entail. }
      intros vhi. apply scoped_perform; [exact HP | exact I].
    + apply andb_true_iff in Hok as [Hok Hkw].
      apply andb_true_iff in Hok as [Hf Hargs].
      seq; [apply (IHe _ sc); eassumption|]. intros vf.
      seq.
      { apply (scoped_map_m
                 (fun (vs : list value) s => Forall (fun v => value_ok v s) vs)).
        - intros vs. apply stable_values_ok.
        - stab.
        - intros a P' Ha HP' Hent.
          assert (Ha_ok : reads_ok sc a = true)
            by (eapply forallb_In; eassumption).
          assert (Hplain :
                    scoped P' (fun vs s => Forall (fun v => value_ok v s) vs
                                           /\ P' s)
                      (Kernel.bind (eval runtime n a) (fun v => ret [v]))).
          { seq; [apply (IHe _ sc); [exact HP' | entail | exact Ha_ok]|].
            intros v. apply scoped_ret. intros s [Hv Hp].
            split; [repeat constructor; exact Hv | exact Hp]. }
          destruct a; try exact Hplain.
          cbn [reads_ok] in Ha_ok.
          seq; [apply (IHe _ sc); [exact HP' | entail | exact Ha_ok]|].
          intros v.
          eapply scoped_post; [|apply scoped_perform_items; [stab | exact I]].
          intros vs s (Hvs & _ & Hp). split; [|exact Hp].
          eapply Forall_impl; [exact Hvs|]. intros w Hw. apply Hw. }
      intros vargs.
      seq.
      { apply (scoped_map_m (fun (_ : string * value) (_ : state) => True)).
        - intros; apply stable_true.
        - stab.
        - intros kv P' Hkv HP' Hent.
          seq; [apply (IHe _ sc); [exact HP' | entail |]|].
          { exact (forallb_In _ _ kv Hkw Hkv). }
          intros v. apply scoped_ret. intros s [_ Hp].
          split; [exact I | exact Hp]. }
      intros vkw.
      eapply scoped_post; [|apply IHc; [stab|]].
      * entail.
      * intros s (_ & Hvargs & Hvf & Hp).
        split; [exact Hvf | apply values_ok_concat, Hvargs].
    + apply scoped_raise.
    + apply scoped_ret. intros s Hp. split; [|exact Hp].
      exists (module_names sc). split; [apply Hsc, Hp | exact Hok].
    + apply andb_true_iff in Hok as [Hiter Helt].
      seq; [apply (IHe _ sc); eassumption|]. intros it.
      seq; [apply scoped_perform_items; [stab | exact I]|]. intros items.
      seq.
      { apply (scoped_map_m (fun (v : value) s => value_ok v s)).
        - intros v. apply stable_value_ok.
        - stab.
        - intros item P' Hitem HP' Hent.
          seq.
          { apply (scoped_assign_name P' sc x item HP').
            intros s Hp. destruct (Hent s Hp) as (Hitems & _ & Hp0).
            split; [apply Hsc, Hp0|].
            rewrite Forall_forall in Hitems.
            apply Hitems, list_elem_of_In, Hitem. }
          intros ?.
          eapply scoped_post;
            [|apply (IHe elt (Scoping.bind x sc)); [stab | entail | exact Helt]].
          entail. }
      intros vs. finish_with scoped_perform.
  - (* statements *)
    intros st sc sc' P HP Hsc Hok.
    destruct st as [m asname|m ns|t e|t op e|e|es|e|x ps body|x bases body
                   |x iter body|line|body handler];
      cbn [exec]; cbn [binds_before_reads] in Hok.
    + seq; [apply scoped_perform; [exact HP | exact I]|]. intros v.
      seq.
      { apply (scoped_assign_name _ sc _ v); [stab | entail]. }
      intros ?. apply scoped_ret. intros s (Ha & _ & Hp).
      split; [|exact Hp]. destruct asname; injection Hok as <-; exact Ha.
    + injection Hok as <-.
      seq; [apply (scoped_from_import m ns sc P HP Hsc)|].
      intros us. apply scoped_ret. entail.
    + assert (Hraise : forall (what : string) (Q : state -> Prop),
                scoped Q (fun r s => after sc r s /\ P s)
                  (Kernel.bind (raise what : M unit) (fun _ => ret None))).
      { intros what Q. eapply (scoped_bind _ (fun _ _ => False));
          [apply scoped_raise|].
        intros ? s o s' _ []. }
      destruct t as [x|z|lit|t0|b| |ts|ts|ks vs|op l r|e1|o a|o i|lo hi
                    |f args kwargs|e1|ps body|elt x iter];
        cbn [binds_before_reads] in Hok; apply guard_Some in Hok as [Hok ->];
        try (seq; [apply (IHe _ sc); eassumption|]; intros v; apply Hraise).
      * seq; [apply (IHe _ sc); eassumption|]. intros v.
        seq; [apply (scoped_assign_name _ sc x v); [stab | entail]|].
        intros ?. apply scoped_ret. entail.
      * seq; [apply (IHe _ sc); eassumption|]. intros v.
        destruct (names_of ts) as [xs|]; [|apply Hraise].
        eapply (scoped_bind _ (fun _ s => agrees (bind_all xs sc) s /\ P s)).
        { seq; [apply scoped_perform_items; [stab | exact I]|]. intros items.
          eapply scoped_post;
            [|apply (scoped_assign_names xs items sc); [stab|]].
          - entail.
          - intros s (Hitems & _ & Hp). split; [apply Hsc, Hp|].
            eapply Forall_impl; [exact Hitems|]. intros w Hw. apply Hw. }
        intros ?. apply scoped_ret. entail.
      * seq; [apply (IHe _ sc); eassumption|]. intros v.
        destruct (names_of ts) as [xs|]; [|apply Hraise].
        eapply (scoped_bind _ (fun _ s => agrees (bind_all xs sc) s /\ P s)).
        { seq; [apply scoped_perform_items; [stab | exact I]|]. intros items.
          eapply scoped_post;
            [|apply (scoped_assign_names xs items sc); [stab|]].
          - entail.
          - intros s (Hitems & _ & Hp). split; [apply Hsc, Hp|].
            eapply Forall_impl; [exact Hitems|]. intros w Hw. apply Hw. }
        intros ?. apply scoped_ret. entail.
      * apply andb_true_iff in Hok as [He Ho].
        seq; [apply (IHe _ sc); eassumption|]. intros v.
        eapply (scoped_bind _ (fun _ s => P s)).
        { seq; [apply (IHe _ sc); [stab | entail | eassumption]|]. intros vo.
          seq; [apply scoped_perform; [stab | exact I]|]. intros w.
          apply scoped_ret. entail. }
        intros ?. apply scoped_ret. entail.
      * apply andb_true_iff in Hok as [Hok Hi].
        apply andb_true_iff in Hok as [He Ho].
        seq; [apply (IHe _ sc); eassumption|]. intros v.
        eapply (scoped_bind _ (fun _ s => P s)).
        { seq; [apply (IHe _ sc); [stab | entail | eassumption]|]. intros vo.
          seq; [apply (IHe _ sc); [stab | entail | eassumption]|]. intros vi.
          seq; [apply scoped_perform; [stab | exact I]|]. intros w.
          apply scoped_ret. entail. }
        intros ?. apply scoped_ret. entail.
    + assert (Hraise : forall (what : string),
                scoped P (fun r s => after sc r s /\ P s)
                  (Kernel.bind (raise what : M unit) (fun _ => ret None))).
      { intros what. eapply (scoped_bind _ (fun _ _ => False));
          [apply scoped_raise|].
        intros ? s o s' _ []. }
      destruct t as [x|z|lit|t0|b| |ts|ts|ks vs|op0 l r|e1|o a|o i|lo hi
                    |f args kwargs|e1|ps body|elt x iter];
        cbn [binds_before_reads] in Hok;
        try (injection Hok as <-; apply Hraise).
      * apply guard_Some in Hok as [Hok ->].
        apply andb_true_iff in Hok as [Hx He].
        eapply (scoped_bind _ (fun _ s => P s)).
        { seq; [apply (scoped_lookup_name P sc x); assumption|]. intros cur.
          seq; [apply (IHe _ sc); [stab | entail | eassumption]|]. intros v.
          seq; [apply scoped_perform; [stab | exact I]|]. intros r.
          eapply scoped_post; [|apply (scoped_assign_name _ sc x r); [stab | entail]].
          entail. }
        intros ?. apply scoped_ret. entail.
      * apply guard_Some in Hok as [Hok ->].
        apply andb_true_iff in Hok as [Ho He].
        eapply (scoped_bind _ (fun _ s => P s)).
        { seq; [apply (IHe _ sc); eassumption|]. intros vo.
          seq; [apply scoped_perform; [stab | exact I]|]. intros cur.
          seq; [apply (IHe _ sc); [stab | entail | eassumption]|]. intros v.
          seq; [apply scoped_perform; [stab | exact I]|]. intros r.
          seq; [apply scoped_perform; [stab | exact I]|]. intros w.
          apply scoped_ret. entail. }
        intros ?. apply scoped_ret. entail.
      * apply guard_Some in Hok as [Hok ->].
        apply andb_true_iff in Hok as [Hok He].
        apply andb_true_iff in Hok as [Ho Hi].
        eapply (scoped_bind _ (fun _ s => P s)).
        { seq; [apply (IHe _ sc); eassumption|]. intros vo.
          seq; [apply (IHe _ sc); [stab | entail | eassumption]|]. intros vi.
          seq; [apply scoped_perform; [stab | exact I]|]. intros cur.
          seq; [apply (IHe _ sc); [stab | entail | eassumption]|]. intros v.
          seq; [apply scoped_perform; [stab | exact I]|]. intros r.
          seq; [apply scoped_perform; [stab | exact I]|]. intros w.
          apply scoped_ret. entail. }
        intros ?. apply scoped_ret. entail.
    + apply guard_Some in Hok as [Hok ->].
      seq; [apply (IHe _ sc); eassumption|]. intros v.
      apply scoped_ret. intros s [_ Hp]. split; [apply Hsc|]; exact Hp.
    + apply guard_Some in Hok as [Hok ->].
      seq; [apply (IHes _ sc); eassumption|]. intros vs.
      seq; [apply scoped_perform; [stab | exact I]|]. intros v.
      apply scoped_ret. intros s (_ & _ & Hp). split; [apply Hsc|]; exact Hp.
    + apply guard_Some in Hok as [Hok ->].
      seq; [apply (IHe _ sc); eassumption|]. intros v.
      apply scoped_ret. entail.
    + destruct (thread_scope binds_before_reads (enter ps sc) body)
        as [scb|] eqn:Hbody; [|discriminate].
      injection Hok as <-.
      seq.
      { apply (scoped_assign_name P sc x (VFun ps body) HP).
        intros s Hp. split; [apply Hsc, Hp|].
        exists (module_names sc). split; [apply Hsc, Hp|].
        unfold block_ok. unfold enter in Hbody. rewrite Hbody.
        eexists; reflexivity. }
      intros ?. apply scoped_ret. entail.
    + destruct (thread_scope binds_before_reads (enter [] sc) body)
        as [scb|] eqn:Hbody; [|discriminate].
      apply guard_Some in Hok as [Hok ->].
      seq; [apply (IHes _ sc); eassumption|]. intros vb.
      seq.
      { apply (scoped_assign_name _ sc x (VClass x vb body)); [stab|].
        intros s [_ Hp]. split; [apply Hsc, Hp|].
        exists (module_names sc). split; [apply Hsc, Hp|].
        unfold block_ok. unfold enter in Hbody. rewrite Hbody.
        eexists; reflexivity. }
      intros ?. apply scoped_ret. entail.
    + destruct (thread_scope binds_before_reads (Scoping.bind x sc) body)
        as [scb|] eqn:Hbody; [|discriminate].
      apply guard_Some in Hok as [Hok ->].
      seq; [apply (IHe _ sc); eassumption|]. intros it.
      seq; [apply scoped_perform_items; [stab | exact I]|]. intros items.
      eapply scoped_post; [|apply scoped_for_each].
      { intros r s (Hr & _ & _ & Hp). split; [|exact Hp].
        destruct r as [v|]; [apply Hr; reflexivity | apply Hsc, Hp]. }
      intros item Hitem.
      seq.
      { apply (scoped_assign_name _ sc x item); [stab|].
        intros s (Hitems & _ & Hp). split; [apply Hsc, Hp|].
        rewrite Forall_forall in Hitems.
        apply Hitems, list_elem_of_In, Hitem. }
      intros ?.
      eapply scoped_post;
        [|apply (IHb body (Scoping.bind x sc) scb); [stab | entail | exact Hbody]].
      intros r s (Hr & _ & Hp). split; [|exact Hp].
      intros v ->. exact Hr.
    + injection Hok as <-.
      seq; [apply scoped_perform; [exact HP | exact I]|]. intros v.
      apply scoped_ret. intros s [_ Hp]. split; [apply Hsc|]; exact Hp.
    + destruct (thread_scope binds_before_reads sc body) as [scb|] eqn:Hbody;
        [|discriminate].
      destruct (thread_scope binds_before_reads sc handler) as [sch|] eqn:Hhandler;
        [|discriminate].
      injection Hok as <-.
      intros s o s' Hs Hp Hrun.
      destruct (block (exec runtime n) body s) as [ob s1] eqn:Hb.
      destruct (IHb body sc scb P HP Hsc Hbody s ob s1 Hs Hp Hb)
        as (Hg1 & Hs1 & (l1 & Hl1 & Hk1) & Hq1).
      assert (Hp1 : P s1) by (eapply HP; eassumption).
      destruct ob as [r|ex|].
      * injection Hrun as <- <-. split; [exact Hg1|]. split; [exact Hs1|].
        split; [exists l1; split; assumption|].
        intros a Ha. injection Ha as <-. split; [|exact Hp1].
        destruct r as [v|]; [exact (proj1 (Hq1 _ eq_refl)) | apply Hsc, Hp1].
      * destruct (IHb handler sc sch P HP Hsc Hhandler s1 o s' Hs1 Hp1 Hrun)
          as (Hg2 & Hs2 & (l2 & Hl2 & Hk2) & Hq2).
        split; [eapply grows_trans; eassumption|]. split; [exact Hs2|].
        split.
        { exists (l1 ++ l2). split; [rewrite Hl2, Hl1; symmetry; apply app_assoc|].
          apply Forall_app. split; assumption. }
        intros a Ha. destruct (Hq2 a Ha) as [Hr Hp2]. split; [|exact Hp2].
        destruct a as [v|]; [exact Hr | apply Hsc, Hp2].
      * injection Hrun as <- <-. split; [exact Hg1|]. split; [exact Hs1|].
        split; [exists l1; split; assumption|]. intros a Ha. discriminate.
  - (* calls *)
    intros f args kwargs P HP Hent.
    destruct f as [x|ps body|ps body|c bases body]; cbn [call].
    + apply scoped_perform; [exact HP | exact I].
    + destruct kwargs; [|apply scoped_raise].
      destruct (frame_of ps args) as [fr|] eqn:Hfr; [|apply scoped_raise].
      intros s o s' Hs Hp Hrun.
      destruct (Hent s Hp) as [(g & Hg & [scb Hbody]) Hargs].
      assert (Htriple :
                scoped (fun s0 => P s0 /\ binds (globals s0) g)
                       (fun v s0 => value_ok v s0 /\ P s0)
                       (Kernel.bind (with_frame fr (block (exec runtime n) body))
                                    (or_none runtime))).
      { seq.
        { apply (scoped_with_frame _ (agrees (mk_scope g (Some ps)))
                   (fun r s0 => forall v, r = Some v -> value_ok v s0)).
          - apply stable_and; [exact HP | apply stable_binds_globals].
          - intros s0 Hs0 [Hp0 Hg0]. split.
            + eapply frame_of_store_ok; [|exact Hfr].
              apply (Hent s0 Hp0).
            + split; cbn [globals frames module_names local_names];
                [exact Hg0 | eapply frame_of_binds; exact Hfr].
          - intros r s0 s0' Heq Hr v Hv. unfold value_ok. rewrite Heq.
            apply Hr, Hv.
          - eapply scoped_post;
              [|apply (IHb body (mk_scope g (Some ps)) scb);
                [apply stable_agrees | auto | exact Hbody]].
            intros r s0 [Hr _] v ->. exact Hr. }
        intros [v|]; cbn [or_none].
        - apply scoped_ret. intros s0 (Hr & Hp0 & _).
          split; [apply Hr; reflexivity | exact Hp0].
        - eapply scoped_pre;
            [|eapply scoped_post;
              [|apply (scoped_perform (fun s0 => P s0 /\ binds (globals s0) g));
                [|exact I]]].
          + intros s0 [_ Hp0]. exact Hp0.
          + intros v s0 (Hv & Hp0 & _). split; assumption.
          + apply stable_and; [exact HP | apply stable_binds_globals]. }
      exact (Htriple s o s' Hs (conj Hp Hg) Hrun).
    + destruct kwargs; [|apply scoped_raise].
      destruct (frame_of ps args) as [fr|] eqn:Hfr; [|apply scoped_raise].
      intros s o s' Hs Hp Hrun.
      destruct (Hent s Hp) as [(g & Hg & Hbody) Hargs].
      assert (Htriple :
                scoped (fun s0 => P s0 /\ binds (globals s0) g)
                       (fun v s0 => value_ok v s0 /\ P s0)
                       (with_frame fr (eval runtime n body))).
      { eapply scoped_post;
          [|apply (scoped_with_frame _ (agrees (mk_scope g (Some ps)))
                     (fun v s0 => value_ok v s0))].
        - intros v s0 (Hv & Hp0 & _). split; assumption.
        - apply stable_and; [exact HP | apply stable_binds_globals].
        - intros s0 Hs0 [Hp0 Hg0]. split.
          + eapply frame_of_store_ok; [|exact Hfr].
            apply (Hent s0 Hp0).
          + split; cbn [globals frames module_names local_names];
              [exact Hg0 | eapply frame_of_binds; exact Hfr].
        - intros v s0 s0' Heq Hv. unfold value_ok. rewrite Heq. exact Hv.
        - eapply scoped_post;
            [|apply (IHe body (mk_scope g (Some ps)));
              [apply stable_agrees | auto | exact Hbody]].
          intros v s0 [Hv _]. exact Hv. }
      exact (Htriple s o s' Hs (conj Hp Hg) Hrun).
    + apply scoped_perform; [exact HP | exact I].
Qed.


Lemma exec_cell_scoped (fuel : nat) (src : list stmt) (sc sc' : scope) :
  block_ok sc src = Some sc' ->
  scoped (agrees sc) (fun _ s => agrees sc' s) (exec_cell runtime fuel (Code src)).
Proof.
  intros Hsrc. cbn [exec_cell]. seq.
  { apply (scoped_block _ src sc sc' (agrees sc)); [stab | auto | exact Hsrc|].
    intros st sc1 sc2 P' _ HP' Hsc1 Hst.
    apply (proj1 (proj2 (interp_scoped fuel)) st sc1 sc2 P'); assumption. }
  intros [v|]; [apply scoped_raise|].
  apply scoped_ret. intros s [Ha _]. exact Ha.
Qed.

(** Run All over well-scoped cells asks only for builtin names. *)
Lemma run_cells_scoped (fuel : nat) (cells : list cell) :
  forall (i : nat) (sc : scope) (s s' : state) (started : list nat)
         (o : outcome ext unit),
    cells_ok sc cells = true ->
    state_ok s -> agrees sc s ->
    run_cells runtime fuel i cells s = (started, o, s') ->
    state_ok s' /\ exists l, log s' = log s ++ l /\ Forall known_name l.
Proof.
  induction cells as [|c rest IH]; intros i sc s s' started o Hok Hs Ha Hrun.
  - simpl in Hrun. injection Hrun as <- <- <-. split; [exact Hs|].
    exists []. split; [symmetry; apply app_nil_r | constructor].
  - assert (Hcell : exists sc1,
              cells_ok sc1 rest = true
              /\ scoped (agrees sc) (fun _ s0 => agrees sc1 s0)
                        (exec_cell runtime fuel c)).
    { destruct c as [| |src]; cbn [cells_ok] in Hok.
      - exists sc. split; [exact Hok|]. apply scoped_ret. auto.
      - exists sc. split; [exact Hok|]. apply scoped_ret. auto.
      - destruct (block_ok sc src) as [sc1|] eqn:Hsrc; [|discriminate].
        exists sc1. split; [exact Hok|]. apply exec_cell_scoped, Hsrc. }
    destruct Hcell as (sc1 & Hrest & Htriple).
    cbn [run_cells] in Hrun.
    destruct (exec_cell runtime fuel c s) as [o1 s1] eqn:Hexec.
    destruct (Htriple s o1 s1 Hs Ha Hexec) as (_ & Hs1 & (l1 & Hl1 & Hk1) & Hq1).
    destruct o1 as [[]|e|].
    + destruct (run_cells runtime fuel (S i) rest s1) as [[started' o'] s2]
        eqn:Hrun'.
      injection Hrun as <- <- <-.
      destruct (IH _ sc1 _ _ _ _ Hrest Hs1 (Hq1 tt eq_refl) Hrun')
        as (Hs2 & l2 & Hl2 & Hk2).
      split; [exact Hs2|].
      exists (l1 ++ l2). split; [rewrite Hl2, Hl1; symmetry; apply app_assoc|].
      apply Forall_app. split; assumption.
    + injection Hrun as <- <- <-. split; [exact Hs1|].
      exists l1. split; assumption.
    + injection Hrun as <- <- <-. split; [exact Hs1|].
      exists l1. split; assumption.
Qed.

(** *** Methods, called back by the libraries *)

Lemma bind_local (x : string) (sc : scope) :
  is_Some (local_names sc) ->
  module_names (Scoping.bind x sc) = module_names sc
  /\ is_Some (local_names (Scoping.bind x sc)).
Proof.
  unfold Scoping.bind. intros [l Hl]. rewrite Hl. cbn.
  split; [reflexivity | eexists; reflexivity].
Qed.

Lemma bind_all_local (xs : list string) :
  forall sc, is_Some (local_names sc) ->
    module_names (bind_all xs sc) = module_names sc
    /\ is_Some (local_names (bind_all xs sc)).
Proof.
  induction xs as [|x xs IH]; intros sc Hl; [split; [reflexivity | exact Hl]|].
  rewrite bind_all_cons. destruct (bind_local x sc Hl) as [Hm Hl'].
  destruct (IH _ Hl') as [Hm' Hl'']. split; [congruence | exact Hl''].
Qed.

(** Inside a function or a class body, a statement binds local names
    only. *)
Lemma binds_before_reads_local (sc sc' : scope) (st : stmt) :
  binds_before_reads sc st = Some sc' -> is_Some (local_names sc) ->
  module_names sc' = module_names sc /\ is_Some (local_names sc').
Proof.
  intros Hok Hl.
  assert (Hsame : forall b, guard b sc = Some sc' ->
                    module_names sc' = module_names sc
                    /\ is_Some (local_names sc')).
  { intros b Hb. apply guard_Some in Hb as [_ ->]. auto. }
  assert (Hbind : forall b x, guard b (Scoping.bind x sc) = Some sc' ->
                    module_names sc' = module_names sc
                    /\ is_Some (local_names sc')).
  { intros b x Hb. apply guard_Some in Hb as [_ ->]. apply bind_local, Hl. }
  destruct st as [m asname|m ns|t e|t op e|e|es|e|x ps body|x bases body
                 |x iter body|line|body handler];
    cbn [binds_before_reads] in Hok.
  - destruct asname; injection Hok as <-; apply bind_local, Hl.
  - injection Hok as <-. apply bind_all_local, Hl.
  - destruct t; try (eapply Hsame; exact Hok); try (eapply Hbind; exact Hok);
      apply guard_Some in Hok as [_ ->];
      (destruct (names_of _); [apply bind_all_local, Hl | auto]).
  - destruct t; try (eapply Hsame; exact Hok); injection Hok as <-; auto.
  - eapply Hsame; exact Hok.
  - eapply Hsame; exact Hok.
  - eapply Hsame; exact Hok.
  - destruct (thread_scope _ _ body); [|discriminate].
    injection Hok as <-. apply bind_local, Hl.
  - destruct (thread_scope _ _ body); [|discriminate].
    eapply Hbind; exact Hok.
  - destruct (thread_scope _ _ body); [|discriminate].
    eapply Hsame; exact Hok.
  - injection Hok as <-. auto.
  - destruct (thread_scope _ _ body); [|discriminate].
    destruct (thread_scope _ _ handler); [|discriminate].
    injection Hok as <-. auto.
Qed.

(** A method of a checked class body reads only its parameters, its locals
    and the module-level names of the class. *)
Lemma method_ok (g : list string) (body : list stmt) (m : string)
    (ps : list string) (mbody : list stmt) :
  forall l,
    is_Some (block_ok (mk_scope g (Some l)) body) ->
    In (m, ps, mbody) (methods_of body) ->
    is_Some (block_ok (mk_scope g (Some ps)) mbody).
Proof.
  induction body as [|st body IH]; intros l [sc' Hok] Hin; [destruct Hin|].
  unfold block_ok in Hok. cbn [thread_scope] in Hok.
  destruct (binds_before_reads (mk_scope g (Some l)) st) as [sc1|] eqn:Hst;
    [|discriminate].
  destruct (binds_before_reads_local _ _ _ Hst) as [Hm [l1 Hl1]];
    [eexists; reflexivity|].
  assert (Hsc1 : sc1 = mk_scope g (Some l1)).
  { destruct sc1 as [g1 loc1]. cbn in Hm, Hl1. subst. reflexivity. }
  unfold methods_of in Hin. cbn [List.flat_map] in Hin.
  apply in_app_or in Hin as [Hin|Hin].
  - destruct st; cbn in Hin; try contradiction.
    destruct Hin as [Hin|[]].
    injection Hin as -> -> ->. cbn [binds_before_reads] in Hst.
    unfold enter in Hst. cbn [module_names] in Hst. unfold block_ok.
    destruct (thread_scope binds_before_reads (mk_scope g (Some ps)) mbody);
      [eexists; reflexivity | discriminate].
  - apply (IH l1); [|exact Hin]. subst sc1. exists sc'. exact Hok.
Qed.

Lemma method_closure_ok (G : gmap string value) (c : string)
    (bases : list value) (body : list stmt) (m : string) (ps : list string)
    (mbody : list stmt) :
  closure_ok G (VClass c bases body) ->
  In (m, ps, mbody) (methods_of body) ->
  closure_ok G (VFun ps mbody).
Proof.
  intros (g & Hg & Hbody) Hin. exists g. split; [exact Hg|].
  eapply method_ok; eassumption.
Qed.

(** A method of a class of the kernel, called with objects of the
    libraries in a kernel whose closures are well scoped, asks only for
    builtin names. *)
Lemma method_call_scoped (fuel : nat) (s s2 : state) (cls c : string)
    (bases : list value) (body : list stmt) (m : string) (ps : list string)
    (mbody : list stmt) (args : list ext) (o : outcome ext value) :
  state_ok s ->
  globals s !! cls = Some (VClass c bases body) ->
  In (m, ps, mbody) (methods_of body) ->
  call runtime fuel (VFun ps mbody) (List.map VExt args) [] s = (o, s2) ->
  exists l, log s2 = log s ++ l /\ Forall known_name l.
Proof.
  intros Hs Hcls Hin Hcall.
  assert (Hclosure : closure_ok (globals s) (VFun ps mbody)).
  { eapply method_closure_ok; [|exact Hin]. exact (proj1 Hs _ _ Hcls). }
  destruct (proj2 (proj2 (interp_scoped fuel)) (VFun ps mbody)
              (List.map VExt args) [] (value_ok (VFun ps mbody))
              (stable_value_ok _)) with (s := s) (o := o) (s' := s2)
    as (_ & _ & Hlog & _); try assumption.
  intros s0 Hv. split; [exact Hv|].
  apply Forall_forall. intros v Hv'.
  apply list_elem_of_In, in_map_iff in Hv' as (x & <- & _). exact I.
Qed.

Lemma fresh_scoped (w : world) :
  state_ok (fresh w : state) /\ agrees top (fresh w : state).
Proof.
  split; [split; cbn; [apply map_Forall_empty | constructor]|].
  split; cbn; [intros x []|exact I].
Qed.

End ScopeSoundness.

(** ** No notebook reads an unbound name *)
Section NotebookNames.
Import Py Kernel Notebooks Scoping.
Local Open Scope list_scope.

Lemma notebooks_well_scoped (nb : notebook) :
  In nb Notebooks.all -> well_scoped nb = true.
Proof. intros Hnb. each_notebook Hnb; vm_compute; reflexivity. Qed.

(** A name that nothing binds is asked of the runtime, and the check sees
    it. *)
Example unbound_name_is_asked_for :
  let nb := {| nb_name := "unbound"; nb_cells := [Code [SExpr (EName "df")]] |} in
  well_scoped nb = false
  /\ List.map fst (log (run scripted 5 nb (mk_script 0 [] None)).2)
     = [RBuiltin "df"].
Proof. split; reflexivity. Qed.

(** A name bound only in the body of a loop is not bound after a loop over
    no items: the check refuses what [Analysis.backward_reads] lets
    through. *)
Example loop_may_not_bind :
  let nb := {| nb_name := "loop";
               nb_cells := [ Code [SFor "i" (EList []) [SAssign (EName "y") (EInt 1)]];
                             Code [SExpr (EName "y")] ] |} in
  Analysis.backward_reads nb = []
  /\ well_scoped nb = false
  /\ List.map fst (log (run scripted 5 nb (mk_script 0 [] None)).2)
     = [RList []; RIter (VExt 0%nat); RBuiltin "y"].
Proof. repeat split; reflexivity. Qed.

(** The check looks into the bodies of classes: a method that reads a name
    nothing binds is refused. *)
Example method_may_not_read_unbound_names :
  let nb (e : expr) :=
    {| nb_name := "class";
       nb_cells := [Code [SClass "v" [] [SDef "f" ["self"; "mu"] [SReturn e]]]] |} in
  well_scoped (nb (EBinOp Mult (EName "mu") (EName "scale"))) = false
  /\ well_scoped (nb (EBinOp Mult (EName "mu") (EName "mu"))) = true.
Proof. split; reflexivity. Qed.

(** The class of the quasi-binomial notebook in the kernel after a complete
    run, and what its method [__call__] asks the runtime for when it is
    called with two objects: the constants and the arithmetic of its
    body. *)
Example vf_in_the_kernel :
  let s := (run scripted 30 quasibinomial (completing_script quasibinomial)).2 in
  globals s !! "vf"
  = Some (VClass "vf" [VExt 79%nat]
            [ SDef "__call__" ["self"; "mu"] [SReturn vf_call_body];
              SDef "deriv" ["self"; "mu"] [SReturn vf_deriv_body] ])
  /\ List.map fst
       (List.skipn (length (log s))
          (log (Kernel.call scripted 10 (VFun ["self"; "mu"] [SReturn vf_call_body])
                  [VExt 0%nat; VExt 1%nat] [] s).2))
     = [ RConst (KInt 2); RBinOp Pow (VExt 1%nat) (VExt 114%nat);
         RConst (KInt 1); RBinOp Sub (VExt 116%nat) (VExt 1%nat);
         RConst (KInt 2); RBinOp Pow (VExt 117%nat) (VExt 118%nat);
         RBinOp Mult (VExt 115%nat) (VExt 119%nat) ].
Proof. vm_compute. split; reflexivity. Qed.

(** X11: no notebook reads a name before it is bound.  Each notebook passes
    the scope check, which covers the cells, the functions and lambdas and
    the bodies and methods of the classes.  In every run of a notebook,
    whatever the libraries answer and however far the run gets, the only
    names the kernel asks the runtime for are the Python builtins [print],
    [int], [range], [dict], [len] and [True], which Python 2, the language
    of the quantile regression notebook, looks up as a name: every other
    name a cell or a function of the notebook reads was bound by an earlier
    statement (no [NameError]).  The same holds for the methods of the
    classes the run has defined, whenever a library calls one back with
    objects of its own. *)
Theorem notebooks_ask_for_builtin_names_only :
  forall nb, In nb Notebooks.all ->
    well_scoped nb = true
    /\ forall (ext world : Type)
              (runtime : request ext -> world -> response ext * world)
              (fuel : nat) (w : world) (started : list nat)
              (o : outcome ext unit) (s' : state ext world),
         run runtime fuel nb w = (started, o, s') ->
         (forall (x : string) (answer : response ext),
            In (RBuiltin x, answer) (log s') ->
            In x ["print"; "int"; "range"; "dict"; "len"; "True"])
         /\ forall (cls c : string) (bases : list (value ext))
                   (body : list stmt) (m : string) (ps : list string)
                   (mbody : list stmt),
              globals s' !! cls = Some (VClass c bases body) ->
              In (m, ps, mbody) (methods_of body) ->
              forall (args : list ext) (fuel' : nat)
                     (o2 : outcome ext (value ext)) (s2 : state ext world),
                Kernel.call runtime fuel' (VFun ps mbody) (List.map VExt args) [] s'
                = (o2, s2) ->
                forall (x : string) (answer : response ext),
                  In (RBuiltin x, answer) (log s2) ->
                  In x ["print"; "int"; "range"; "dict"; "len"; "True"].
Proof.
  intros nb Hnb. split; [exact (notebooks_well_scoped nb Hnb)|].
  intros ext world runtime fuel w started o s' Hrun.
  destruct (fresh_scoped (ext := ext) w) as [Hs Ha].
  destruct (run_cells_scoped runtime fuel (nb_cells nb) 0 top (fresh w) s'
              started o (notebooks_well_scoped nb Hnb) Hs Ha Hrun)
    as (Hs' & l & Hl & Hk).
  cbn [fresh log app] in Hl.
  assert (Hlog : forall x answer, In (RBuiltin x, answer) (log s') ->
                   In x ["print"; "int"; "range"; "dict"; "len"; "True"]).
  { intros x answer Hin. rewrite Hl in Hin. rewrite Forall_forall in Hk.
    exact (Hk _ (proj2 (list_elem_of_In _ _) Hin)). }
  split; [exact Hlog|].
  intros cls c bases body m ps mbody Hcls Hm args fuel' o2 s2 Hcall x answer Hin.
  destruct (method_call_scoped runtime fuel' s' s2 cls c bases body m ps mbody
              args o2 Hs' Hcls Hm Hcall) as (l2 & Hl2 & Hk2).
  rewrite Hl2 in Hin. apply in_app_or in Hin as [Hin|Hin].
  - exact (Hlog x answer Hin).
  - rewrite Forall_forall in Hk2.
    exact (Hk2 _ (proj2 (list_elem_of_In _ _) Hin)).
Qed.

(** The theorem at the quasi-binomial notebook, the one that defines a
    class. *)
Lemma quasibinomial_asks_for_builtin_names_only :
  well_scoped quasibinomial = true
  /\ forall (ext world : Type)
            (runtime : request ext -> world -> response ext * world)
            (fuel : nat) (w : world) (started : list nat)
            (o : outcome ext unit) (s' : state ext world),
       run runtime fuel quasibinomial w = (started, o, s') ->
       (forall (x : string) (answer : response ext),
          In (RBuiltin x, answer) (log s') ->
          In x ["print"; "int"; "range"; "dict"; "len"; "True"])
       /\ forall (cls c : string) (bases : list (value ext))
                 (body : list stmt) (m : string) (ps : list string)
                 (mbody : list stmt),
            globals s' !! cls = Some (VClass c bases body) ->
            In (m, ps, mbody) (methods_of body) ->
            forall (args : list ext) (fuel' : nat)
                   (o2 : outcome ext (value ext)) (s2 : state ext world),
              Kernel.call runtime fuel' (VFun ps mbody) (List.map VExt args) [] s'
              = (o2, s2) ->
              forall (x : string) (answer : response ext),
                In (RBuiltin x, answer) (log s2) ->
                In x ["print"; "int"; "range"; "dict"; "len"; "True"].
Proof.
  apply (notebooks_ask_for_builtin_names_only quasibinomial).
  unfold Notebooks.all. simpl. auto.
Defined.

(** The builtins the notebooks ask for when they run to completion. *)
Example builtins_asked_for :
  List.map (fun nb =>
              remove_dups
                (List.flat_map (fun ev : event nat =>
                                  match ev.1 with RBuiltin x => [x] | _ => [] end)
                               (log (run scripted 30 nb (completing_script nb)).2)))
           Notebooks.all
  = [ ["int"; "print"]; ["dict"; "range"; "True"]; ["len"; "print"] ].
Proof. vm_compute. reflexivity. Qed.

End NotebookNames.
